(** * A resilient HTTP client: [src/lib/http.ts]

    Shallow embedding of the [HttpClient] class and of the platform objects
    it drives ([Headers], [URLSearchParams], timers, [fetch]), followed by the
    properties of the attempt loop, of header and URL construction and of the
    backoff policy.

    Conventions.
    - JavaScript strings are byte strings ([string]); every string operation
      the class performs ([startsWith], [includes], the trailing-slash regex,
      header-name lowercasing) acts on ASCII bytes only.
    - The numbers the class counts with (status codes, the attempt counter,
      the retry budget, milliseconds) are integers, [Z]; the retry budget
      may be negative.  For these, values that are not integers (NaN, the
      infinities, fractions) are outside the model.
    - The value of [Math.random()] is a binary64 number, and its product
      with the delay bound is rounded as binary64 multiplication rounds
      it.  A query value that is a number is an integer, read as the
      binary64 number nearest to it, or any other number, carried with
      the string [String] gives for it.
    - Objects that are shared between the caller and the client live in a
      heap of [Cell]s and are held by reference.  The fields of the client
      are written by the constructor only (lines 54 to 58), so a client is
      a record value.
    - Effects are threaded through an explicit [State]; the answers of the
      outside world (transport, random source, UUID source) come from an
      [Env] of scripts indexed by the number of calls made so far, and every
      platform call is appended to the [trace].
    - A thrown JavaScript value is a [JsError]; a computation that can throw
      returns a [result]. *)

From Stdlib Require Import ZArith Lia Ascii String List Bool.
From stdpp Require Import base strings list pretty.

Local Open Scope string_scope.
Local Open Scope list_scope.
Local Open Scope Z_scope.

(** ** JavaScript string primitives *)

Module Str.

(** [s.startsWith(p)] *)
Fixpoint startsWith (s p : string) {struct p} : bool :=
  match p with
  | EmptyString => true
  | String a p' =>
      match s with
      | EmptyString => false
      | String b s' => Ascii.eqb a b && startsWith s' p'
      end
  end.

(** [s.includes(sub)] *)
Definition includes (s sub : string) : bool :=
  match String.index 0 sub s with
  | Some _ => true
  | None => false
  end.

(** Removal of the longest suffix whose bytes all satisfy [p]: what
    [replace] does with the regular expression [c+$], for a class [c] of
    bytes, and the empty string as replacement. *)
Fixpoint strip_suffix (p : ascii -> bool) (s : string) : string :=
  match s with
  | EmptyString => EmptyString
  | String c rest =>
      let rest' := strip_suffix p rest in
      if p c && String.eqb rest' "" then "" else String c rest'
  end.

(** Removal of the longest prefix whose bytes all satisfy [p]. *)
Fixpoint strip_prefix (p : ascii -> bool) (s : string) : string :=
  match s with
  | EmptyString => EmptyString
  | String c rest => if p c then strip_prefix p rest else s
  end.

Definition is_slash (c : ascii) : bool := Ascii.eqb c "/".

(** The [replace] of line 54: the trailing slashes are removed. *)
Definition strip_trailing_slashes (s : string) : string :=
  strip_suffix is_slash s.

Fixpoint all (p : ascii -> bool) (s : string) : bool :=
  match s with
  | EmptyString => true
  | String c rest => p c && all p rest
  end.

Fixpoint map (f : ascii -> ascii) (s : string) : string :=
  match s with
  | EmptyString => EmptyString
  | String c rest => String (f c) (map f rest)
  end.

Definition code (c : ascii) : N := N_of_ascii c.

Definition in_range (lo hi : N) (c : ascii) : bool :=
  (N.leb lo (code c) && N.leb (code c) hi)%N.

Definition is_upper : ascii -> bool := in_range 65 90.
Definition is_lower : ascii -> bool := in_range 97 122.
Definition is_digit : ascii -> bool := in_range 48 57.
Definition is_alnum (c : ascii) : bool := is_upper c || is_lower c || is_digit c.

Definition lower (c : ascii) : ascii :=
  if is_upper c then ascii_of_N (code c + 32) else c.

(** ASCII lowercasing, the byte-case-insensitive key of a header name. *)
Definition toLowerCase : string -> string := map lower.

Definition mem (c : ascii) (s : string) : bool :=
  negb (all (fun d => negb (Ascii.eqb c d)) s).

Definition hex_digit (n : N) : ascii :=
  if (n <? 10)%N then ascii_of_N (48 + n) else ascii_of_N (55 + n).

(** [%XX] with upper-case hexadecimal digits. *)
Definition percent_byte (c : ascii) : string :=
  String "%" (String (hex_digit (code c / 16)) (String (hex_digit (code c mod 16)) "")).

Fixpoint concat_map (f : ascii -> string) (s : string) : string :=
  match s with
  | EmptyString => EmptyString
  | String c rest => f c +:+ concat_map f rest
  end.

(** The last byte of [s] is a slash. *)
Definition ends_with_slash (s : string) : Prop :=
  exists pre, s = pre +:+ "/".

Fixpoint slashes (n : nat) : string :=
  match n with
  | O => ""
  | S k => String "/" (slashes k)
  end.

End Str.

(** ** [URLSearchParams]: the application/x-www-form-urlencoded serializer *)

Module URLSearchParams.

(** A parameter list in insertion order, as built by [append]. *)
Definition t := list (string * string).

Definition append (params : t) (key value : string) : t :=
  params ++ [(key, value)].

(** Bytes left as they are: ASCII alphanumerics and [*-._]. *)
Definition is_unreserved (c : ascii) : bool :=
  Str.is_alnum c || Str.mem c "*-._".

Definition encode_byte (c : ascii) : string :=
  if Ascii.eqb c " " then "+"
  else if is_unreserved c then String c ""
  else Str.percent_byte c.

Definition encode : string -> string := Str.concat_map encode_byte.

Definition pair_toString (kv : string * string) : string :=
  encode (fst kv) +:+ "=" +:+ encode (snd kv).

(** [params.toString()] *)
Fixpoint toString (params : t) : string :=
  match params with
  | [] => ""
  | [kv] => pair_toString kv
  | kv :: rest => pair_toString kv +:+ "&" +:+ toString rest
  end.

End URLSearchParams.

(** ** [Headers]: the fetch header list

    Names are kept in their lower-case form, which is how every reading
    operation reports them; [None] stands for the [TypeError] the platform
    throws on a name or value that is not well formed. *)

Module Headers.

Definition t := list (string * string).

(** Header names are HTTP tokens. *)
Definition is_tchar (c : ascii) : bool :=
  Str.is_alnum c || Str.mem c "!#$%&'*+-.^_`|~".

Definition valid_name (name : string) : bool :=
  negb (String.eqb name "") && Str.all is_tchar name.

(** HTTP whitespace bytes: tab, line feed, carriage return, space. *)
Definition is_http_whitespace (c : ascii) : bool :=
  Str.mem c (String "009" (String "010" (String "013" " "))).

(** Values are normalized by removing leading and trailing whitespace. *)
Definition normalize (value : string) : string :=
  Str.strip_suffix is_http_whitespace (Str.strip_prefix is_http_whitespace value).

(** A normalized value is accepted when it holds no NUL, LF or CR. *)
Definition valid_value (value : string) : bool :=
  Str.all (fun c => negb (Str.mem c (String "000" (String "010" (String "013" ""))))) value.

Definition same_name (name : string) (h : string * string) : bool :=
  String.eqb (fst h) (Str.toLowerCase name).

(** [headers.has(name)], for a well-formed [name] *)
Definition has (headers : t) (name : string) : bool :=
  existsb (same_name name) headers.

Fixpoint join (values : list string) : string :=
  match values with
  | [] => ""
  | [v] => v
  | v :: rest => v +:+ ", " +:+ join rest
  end.

(** [headers.get(name)]: the values under [name], in order, joined by
    a comma and a space; [None] is JavaScript's [null]. *)
Definition get (headers : t) (name : string) : option string :=
  match List.filter (same_name name) headers with
  | [] => None
  | hs => Some (join (List.map snd hs))
  end.

Definition checked (name value : string) : option (string * string) :=
  let value' := normalize value in
  if valid_name name && valid_value value'
  then Some (Str.toLowerCase name, value')
  else None.

(** [headers.append(name, value)] *)
Definition append (headers : t) (name value : string) : option t :=
  match checked name value with
  | Some h => Some (headers ++ [h])
  | None => None
  end.

(** Replace the value of the first header called [fst h] and drop the
    later ones. *)
Fixpoint replace (h : string * string) (headers : t) : t :=
  match headers with
  | [] => []
  | x :: rest =>
      if String.eqb (fst x) (fst h)
      then h :: List.filter (fun y => negb (String.eqb (fst y) (fst h))) rest
      else x :: replace h rest
  end.

(** [headers.set(name, value)] *)
Definition set (headers : t) (name value : string) : option t :=
  match checked name value with
  | Some h => Some (if has headers name then replace h headers else headers ++ [h])
  | None => None
  end.

(** [new Headers(record)]: every own property is appended in order. *)
Fixpoint of_record (record : list (string * string)) (acc : t) : option t :=
  match record with
  | [] => Some acc
  | (k, v) :: rest =>
      match append acc k v with
      | Some acc' => of_record rest acc'
      | None => None
      end
  end.

End Headers.

(** ** Plain objects used as [Record<string, string>]

    Own properties in insertion order.  (ECMAScript lists integer-like keys
    first; two keys that differ only by letter case are never integer-like,
    so the header list built from a record combines values in the same
    order either way.) *)

Module Record.

Definition t := list (string * string).

(** [obj[key] = value]: an existing key keeps its position. *)
Fixpoint assign (obj : t) (key value : string) : t :=
  match obj with
  | [] => [(key, value)]
  | (k, v) :: rest =>
      if String.eqb k key then (k, value) :: rest
      else (k, v) :: assign rest key value
  end.

(** [{ ...a, ...b }] *)
Definition spread (a b : t) : t :=
  fold_left (fun acc kv => assign acc (fst kv) (snd kv)) b
    (fold_left (fun acc kv => assign acc (fst kv) (snd kv)) a []).

(** [obj[key]]: the value of the own property [key]; [None] is
    [undefined]. *)
Definition get (obj : t) (key : string) : option string :=
  match List.find (fun kv => String.eqb (fst kv) key) obj with
  | Some kv => Some (snd kv)
  | None => None
  end.

(** [Object.keys(obj)] *)
Definition keys (obj : t) : list string := List.map fst obj.

(** [Object.assign(target, source)]: the copy a spread makes of one
    object. *)
Definition assign_all (source target : t) : t :=
  fold_left (fun acc kv => assign acc (fst kv) (snd kv)) source target.

End Record.

(** ** Headers built from an object *)

(** The header a property becomes. *)
Definition header_of (kv : string * string) : string * string :=
  (Str.toLowerCase (fst kv), Headers.normalize (snd kv)).

(** [key] names the header [name]. *)
Definition names (name key : string) : bool :=
  String.eqb (Str.toLowerCase key) (Str.toLowerCase name).

(** ** Numbers

    A JavaScript number is a binary64 value.  The operations below act on
    non-negative values [a / d], with integers [a] and [d]; rounding is to
    nearest, ties to even. *)

Module Number.

(** [a / 2^shift], rounded to an integer. *)
Definition round_nearest_even (a shift : Z) : Z :=
  let q := a / 2 ^ shift in
  let rest := a mod 2 ^ shift in
  let half := 2 ^ (shift - 1) in
  if (half <? rest) || ((rest =? half) && Z.odd q) then q + 1 else q.

(** The integer [a] rounded to 53 significant bits. *)
Definition round53 (a : Z) : Z :=
  let shift := Z.log2 a + 1 - 53 in
  if shift <=? 0 then a else round_nearest_even a shift * 2 ^ shift.

(** [Math.floor(x * n)] for the number [x = num / den] and the integer
    [n], where [den = 2^e] with [0 <= e <= 1074], [0 <= num < 2^53] and
    [0 <= n < 2^53].  The exact product is [num * n / 2^e]; it is a
    binary64 number when [num * n] has at most 53 bits, and is at least
    [2^-1021] otherwise, where binary64 numbers have 53 significant
    bits. *)
Definition floor_of_product (num den n : Z) : Z :=
  round53 (num * n) / den.

(** The number an integer literal [n >= 0] denotes; [None] is
    [Infinity]. *)
Definition of_integer (n : Z) : option Z :=
  let v := round53 n in
  if v <? 2 ^ 1024 then Some v else None.

(** Number of decimal digits of [n > 0]. *)
Definition digits (n : Z) : Z := Z.of_nat (String.length (pretty n)).

(** The decimal [v] denotes the number [x]. *)
Definition denotes (x v : Z) : bool :=
  match of_integer v with
  | Some d => d =? x
  | None => false
  end.

(** The decimal of [k] significant digits that denotes [x], when there is
    one: of the two that enclose [x], the one nearer to [x]. *)
Definition candidate (x k : Z) : option Z :=
  let p := 10 ^ (digits x - k) in
  let lo := x / p * p in
  let hi := lo + p in
  match denotes x lo, denotes x hi with
  | true, true =>
      if x - lo <? hi - x then Some lo
      else if hi - x <? x - lo then Some hi
      else if Z.even (x / p) then Some lo else Some hi
  | true, false => Some lo
  | false, true => Some hi
  | false, false => None
  end.

(** The decimal with the fewest significant digits, [k] or more, that
    denotes the number [x > 0]; seventeen digits always do. *)
Fixpoint shortest (x k : Z) (fuel : nat) : Z :=
  match fuel with
  | O => x
  | S fuel' =>
      if digits x <=? k then x
      else match candidate x k with
           | Some v => v
           | None => shortest x (k + 1) fuel'
           end
  end.

Definition is_zero (c : ascii) : bool := Ascii.eqb c "0".

(** [d.ddd e+xx], for a decimal [v >= 10^21]. *)
Definition exponential (v : Z) : string :=
  let e := pretty (digits v - 1) in
  match Str.strip_suffix is_zero (pretty v) with
  | String d EmptyString => String d ("e+" +:+ e)
  | String d rest => String d ("." +:+ rest +:+ "e+" +:+ e)
  | EmptyString => "0"
  end.

Definition positive_toString (n : Z) : string :=
  match of_integer n with
  | None => "Infinity"
  | Some x =>
      let v := shortest x 1 17 in
      if v <? 10 ^ 21 then pretty v else exponential v
  end.

(** [String(n)] for the number the integer [n] denotes: the digits of the
    shortest decimal that denotes it, and an exponent from [10^21] on. *)
Definition toString (n : Z) : string :=
  if n =? 0 then "0"
  else if n <? 0 then "-" +:+ positive_toString (- n)
  else positive_toString n.

End Number.

(** ** Values of type [unknown]

    JSON payloads and parsed bodies are kept abstract. *)

Class JsValues := {
  JsValue : Type;
}.

Inductive HttpMethod := GET | POST | PUT | PATCH | DELETE.

(** Values a query parameter may take.  [QNumber n] is the number the
    integer [n] denotes: [n] itself when its magnitude is at most [2^53],
    the binary64 number nearest to it in general.  [QOtherNumber text] is
    a number that no integer denotes (a fraction, [NaN]), given with the
    string [String] makes of it. *)
Inductive QueryValue :=
| QString (s : string)
| QNumber (n : Z)
| QOtherNumber (text : string)
| QBoolean (b : bool)
| QUndefined.

(** [String(value)] *)
Definition String_of (value : QueryValue) : string :=
  match value with
  | QString s => s
  | QNumber n => Number.toString n
  | QOtherNumber text => text
  | QBoolean true => "true"
  | QBoolean false => "false"
  | QUndefined => "undefined"
  end.

(** [value !== undefined] *)
Definition is_defined (value : QueryValue) : bool :=
  match value with
  | QUndefined => false
  | _ => true
  end.

(** [Math.random()]: the value [rnd_num / rnd_den]. *)
Record Rand := { rnd_num : Z; rnd_den : Z }.

(** The contract of [Math.random()]: a value in [[0, 1)], *)
Definition in_unit_interval (r : Rand) : Prop :=
  0 <= rnd_num r < rnd_den r.

(** that is a binary64 number: [m / 2^e] with [0 <= m < 2^53] and
    [0 <= e <= 1074]. *)
Definition is_binary64 (r : Rand) : bool :=
  (0 <=? rnd_num r) && (rnd_num r <? 2 ^ 53)
  && (rnd_den r =? 2 ^ Z.log2 (rnd_den r)) && (Z.log2 (rnd_den r) <=? 1074).

(** What a timer does when it fires. *)
Inductive Callback :=
| AbortRequest      (* [() => controller.abort()] *)
| ResolveSleep.     (* [resolve] of the backoff promise *)

(** Calls into the platform, in the order they are made. *)
Inductive Event :=
| EvSetTimeout (handle : nat) (cb : Callback) (ms : Z)
| EvClearTimeout (handle : nat)
| EvTimerFired (handle : nat)
| EvFetch (url : string) (method : HttpMethod) (headers : Headers.t)
          (body : option string) (cache : option string) (signal : nat)
| EvMathRandom (r : Rand)
| EvRandomUUID (id : string).

(** Heap objects that the client shares with, or copies from, its caller. *)
Inductive Cell :=
| ObjRecord (props : Record.t)      (* a [Record<string, string>] *)
| ObjArray (items : list Z)         (* a [number[]] *)
| ObjSet (members : list Z).        (* a [Set<number>], in insertion order *)

Section Client.

Context `{JsValues}.

(** *** Exported types of the module *)

Record HTTPClientOptions := {
  opt_baseUrl : string;
  opt_defaultHeaders : option nat;      (* reference to a record *)
  opt_retries : option Z;
  opt_retryStatuses : option nat;       (* reference to an array *)
  opt_defaultTimeoutMs : option Z;
}.

Record RequestInitEx := {
  init_headers : option Record.t;
  init_query : option (list (string * QueryValue));   (* as [Object.entries] lists it *)
  init_json : option JsValue;
  init_timeoutMs : option Z;
  init_authToken : option string;       (* [None]: null or undefined *)
  init_cache : option string;
}.

(** The parsed body: [undefined], the value of [response.json()], or the
    string of [response.text()]. *)
Inductive Data :=
| DUndefined
| DJson (v : JsValue)
| DText (s : string).

Record HttpResponse := {
  data : Data;
  status : Z;
  headers : Headers.t;
}.

(** *** Thrown values *)

Inductive ErrorKind :=
| NotAnError            (* a thrown value that is no [Error] instance *)
| ErrorInstance         (* [Error] or a subclass other than [TypeError] *)
| TypeErrorInstance.

Record JsError := {
  err_kind : ErrorKind;
  err_name : option string;
  err_message : string;
  err_status : option Z;
  err_response : option HttpResponse;
}.

Definition instanceof_Error (e : JsError) : bool :=
  match err_kind e with NotAnError => false | _ => true end.

Definition instanceof_TypeError (e : JsError) : bool :=
  match err_kind e with TypeErrorInstance => true | _ => false end.

(** [new HTTPError(message, status, response)] *)
Definition HTTPError (message : string) (status : option Z)
    (response : option HttpResponse) : JsError :=
  {| err_kind := ErrorInstance;
     err_name := Some "HTTPError";
     err_message := message;
     err_status := status;
     err_response := response |}.

(** A [TypeError] raised by the platform. *)
Definition TypeError (message : string) : JsError :=
  {| err_kind := TypeErrorInstance;
     err_name := Some "TypeError";
     err_message := message;
     err_status := None;
     err_response := None |}.

Inductive result (A : Type) :=
| Ok (a : A)
| Throw (e : JsError).
Arguments Ok {A} a.
Arguments Throw {A} e.

(** *** The platform's [Response] and the outcome of [fetch] *)

Record FetchResponse := {
  fr_status : Z;
  fr_statusText : string;
  fr_headers : Headers.t;
  fr_json : result JsValue;      (* what [response.json()] settles to *)
  fr_text : result string;       (* what [response.text()] settles to *)
}.

(** [response.ok] *)
Definition fr_ok (response : FetchResponse) : bool :=
  (200 <=? fr_status response) && (fr_status response <=? 299).

Inductive FetchOutcome :=
| Resolved (response : FetchResponse)
| Failed (error : JsError).

(** *** The outside world and the mutable state *)

Record Env := {
  transport : nat -> FetchOutcome;     (* answer to the n-th [fetch] *)
  random : nat -> Rand;                (* n-th [Math.random()] *)
  uuid : nat -> string;                (* n-th [randomUUID()] *)
}.

Record State := {
  heap : list Cell;
  armed : list nat;          (* handles of the timers not yet released *)
  next_handle : nat;
  fetched : nat;             (* [fetch] calls made *)
  drawn : nat;               (* [Math.random()] calls made *)
  issued : nat;              (* [randomUUID()] calls made *)
  trace : list Event;
}.

Definition with_heap (f : list Cell -> list Cell) (s : State) : State :=
  {| heap := f (heap s); armed := armed s; next_handle := next_handle s;
     fetched := fetched s; drawn := drawn s; issued := issued s;
     trace := trace s |}.

Definition with_armed (f : list nat -> list nat) (s : State) : State :=
  {| heap := heap s; armed := f (armed s); next_handle := next_handle s;
     fetched := fetched s; drawn := drawn s; issued := issued s;
     trace := trace s |}.

Definition with_next_handle (n : nat) (s : State) : State :=
  {| heap := heap s; armed := armed s; next_handle := n;
     fetched := fetched s; drawn := drawn s; issued := issued s;
     trace := trace s |}.

Definition with_fetched (n : nat) (s : State) : State :=
  {| heap := heap s; armed := armed s; next_handle := next_handle s;
     fetched := n; drawn := drawn s; issued := issued s;
     trace := trace s |}.

Definition with_drawn (n : nat) (s : State) : State :=
  {| heap := heap s; armed := armed s; next_handle := next_handle s;
     fetched := fetched s; drawn := n; issued := issued s;
     trace := trace s |}.

Definition with_issued (n : nat) (s : State) : State :=
  {| heap := heap s; armed := armed s; next_handle := next_handle s;
     fetched := fetched s; drawn := drawn s; issued := n;
     trace := trace s |}.

Definition log (e : Event) (s : State) : State :=
  {| heap := heap s; armed := armed s; next_handle := next_handle s;
     fetched := fetched s; drawn := drawn s; issued := issued s;
     trace := trace s ++ [e] |}.

(** *** Computations: state passing with exceptions *)

Definition M (A : Type) : Type := State -> result A * State.

Definition ret {A} (a : A) : M A := fun s => (Ok a, s).

Definition throw {A} (e : JsError) : M A := fun s => (Throw e, s).

Definition bind {A B} (m : M A) (k : A -> M B) : M B :=
  fun s =>
    match m s with
    | (Ok a, s') => k a s'
    | (Throw e, s') => (Throw e, s')
    end.

(** [try { m } catch (error) { handler error }] *)
Definition try_catch {A} (m : M A) (handler : JsError -> M A) : M A :=
  fun s =>
    match m s with
    | (Ok a, s') => (Ok a, s')
    | (Throw e, s') => handler e s'
    end.

(** [try { m } finally { cleanup }]: [cleanup] runs whatever way [m]
    ends; a throwing [cleanup] replaces the completion of [m]. *)
Definition try_finally {A} (m : M A) (cleanup : M unit) : M A :=
  fun s =>
    let '(r, s') := m s in
    match cleanup s' with
    | (Ok _, s'') => (r, s'')
    | (Throw e, s'') => (Throw e, s'')
    end.

Definition gets {A} (f : State -> A) : M A := fun s => (Ok (f s), s).

Definition modify (f : State -> State) : M unit := fun s => (Ok tt, f s).

(** A platform call that signals failure by a [TypeError]. *)
Definition or_TypeError {A} (message : string) (o : option A) : M A :=
  match o with
  | Some a => ret a
  | None => throw (TypeError message)
  end.

(** A platform call that returns, or throws a value of its own. *)
Definition completion {A} (r : result A) : M A :=
  match r with
  | Ok a => ret a
  | Throw e => throw e
  end.

End Client.

Arguments Ok {_ A} a.
Arguments Throw {_ A} e.

(** ** Services the class takes from its host

    [JSON.stringify] and the WHATWG [URL] class are kept abstract.
    [JSON.stringify] returns a string or [undefined] ([None]), or throws:
    a [TypeError] of its own, or whatever a [toJSON] method or a getter of
    the payload throws.  [new URL] throws nothing but a [TypeError]
    ([None]). *)

Class Platform `{JsValues} := {
  JSON_stringify : JsValue -> result (option string);
  URL : Type;
  URL_new : string -> option URL;
  URL_set_search : URL -> string -> URL;
  URL_toString : URL -> string;
}.

Notation "x <- m ;; k" := (bind m (fun x => k))
  (at level 100, m at next level, right associativity).
Notation "m ;;; k" := (bind m (fun _ => k))
  (at level 100, right associativity).

(** ** Platform calls *)

Section Calls.

Context `{Platform} (env : Env).

(** Allocation of a new object; its reference is the next free index. *)
Definition alloc (c : Cell) : M nat :=
  fun s => (Ok (length (heap s)), with_heap (fun h => h ++ [c]) s).

(** The own properties of the record at [ref]. *)
Definition read_record (s : State) (ref : nat) : Record.t :=
  match heap s !! ref with
  | Some (ObjRecord props) => props
  | _ => []
  end.

(** The elements of the array at [ref]. *)
Definition read_array (s : State) (ref : nat) : list Z :=
  match heap s !! ref with
  | Some (ObjArray items) => items
  | _ => []
  end.

(** [set.has(x)] for the set at [ref]. *)
Definition Set_has (s : State) (ref : nat) (x : Z) : bool :=
  match heap s !! ref with
  | Some (ObjSet members) => existsb (Z.eqb x) members
  | _ => false
  end.

(** Insertion of the elements of [items] into a set, one after the
    other; an element already present is skipped. *)
Fixpoint Set_add_all (members items : list Z) : list Z :=
  match items with
  | [] => members
  | x :: rest =>
      Set_add_all (if existsb (Z.eqb x) members then members else members ++ [x]) rest
  end.

(** [new Set(array)] for the array at [ref] *)
Definition Set_new (ref : nat) : M nat :=
  items <- gets (fun s => read_array s ref) ;;
  alloc (ObjSet (Set_add_all [] items)).

(** [obj[key] = value] on the record at [ref]: what a caller holding the
    reference can do at any time. *)
Definition assign_property (ref : nat) (key value : string) (s : State) : State :=
  with_heap (fun h => <[ref := ObjRecord (Record.assign (read_record s ref) key value)]> h) s.

(** [array.push(x)] on the array at [ref]. *)
Definition array_push (ref : nat) (x : Z) (s : State) : State :=
  with_heap (fun h => <[ref := ObjArray (read_array s ref ++ [x])]> h) s.

(** [setTimeout(cb, ms)] *)
Definition setTimeout (cb : Callback) (ms : Z) : M nat :=
  fun s =>
    let handle := next_handle s in
    (Ok handle,
     log (EvSetTimeout handle cb ms)
       (with_armed (cons handle) (with_next_handle (S handle) s))).

Fixpoint remove_handle (handle : nat) (handles : list nat) : list nat :=
  match handles with
  | [] => []
  | h :: rest => if Nat.eqb h handle then rest else h :: remove_handle handle rest
  end.

(** [clearTimeout(handle)] *)
Definition clearTimeout (handle : nat) : M unit :=
  modify (fun s => log (EvClearTimeout handle) (with_armed (remove_handle handle) s)).

(** [await new Promise((resolve) => setTimeout(resolve, delay))]: the
    timer is armed, elapses, and resolves the promise. *)
Definition sleep (delay : Z) : M unit :=
  handle <- setTimeout ResolveSleep delay ;;
  modify (fun s => log (EvTimerFired handle) (with_armed (remove_handle handle) s)).

(** [Math.random()] *)
Definition Math_random : M Rand :=
  fun s =>
    let r := random env (drawn s) in
    (Ok r, log (EvMathRandom r) (with_drawn (S (drawn s)) s)).

(** [randomUUID()] *)
Definition randomUUID : M string :=
  fun s =>
    let id := uuid env (issued s) in
    (Ok id, log (EvRandomUUID id) (with_issued (S (issued s)) s)).

(** [await fetch(url, { method, headers, body, cache, signal })] *)
Definition fetch (url : string) (method : HttpMethod) (hdrs : Headers.t)
    (body : option string) (cache : option string) (signal : nat) : M FetchResponse :=
  fun s =>
    let s' := log (EvFetch url method hdrs body cache signal)
                (with_fetched (S (fetched s)) s) in
    match transport env (fetched s) with
    | Resolved response => (Ok response, s')
    | Failed error => (Throw error, s')
    end.

(** ** The class [HttpClient] *)

Record HttpClient := {
  baseUrl : string;
  defaultHeaders : nat;        (* reference to a record *)
  retries : Z;
  retryStatuses : nat;         (* reference to a set *)
  defaultTimeoutMs : Z;
}.

(** [constructor({ baseUrl, defaultHeaders = {}, retries = 2,
     retryStatuses = [408, 429, 502, 503, 504], defaultTimeoutMs = 5000 })] *)
Definition constructor (options : HTTPClientOptions) : M HttpClient :=
  defaultHeaders_ <- match opt_defaultHeaders options with
                     | Some ref => ret ref
                     | None => alloc (ObjRecord [])
                     end ;;
  let retries_ := default 2 (opt_retries options) in
  retryStatuses_ <- match opt_retryStatuses options with
                    | Some ref => ret ref
                    | None => alloc (ObjArray [408; 429; 502; 503; 504])
                    end ;;
  let defaultTimeoutMs_ := default 5000 (opt_defaultTimeoutMs options) in
  statuses <- Set_new retryStatuses_ ;;
  ret {| baseUrl := Str.strip_trailing_slashes (opt_baseUrl options);
         defaultHeaders := defaultHeaders_;
         retries := retries_;
         retryStatuses := statuses;
         defaultTimeoutMs := defaultTimeoutMs_ |}.

Section Methods.

Variable this : HttpClient.

(** The string handed to [new URL(...)]. *)
Definition joined (path : string) : string :=
  baseUrl this +:+ (if Str.startsWith path "/" then path else "/" +:+ path).

(** The parameter list built by the [forEach] over [Object.entries(query)]. *)
Definition query_params (query : list (string * QueryValue)) : URLSearchParams.t :=
  fold_left
    (fun params entry =>
       match snd entry with
       | QUndefined => params
       | value => URLSearchParams.append params (fst entry) (String_of value)
       end)
    query [].

Definition buildUrl (path : string) (query : option (list (string * QueryValue)))
    : M string :=
  url <- or_TypeError "Invalid URL" (URL_new (joined path)) ;;
  let url := match query with
             | Some q => URL_set_search url (URLSearchParams.toString (query_params q))
             | None => url
             end in
  ret (URL_toString url).

Definition buildHeaders (init : RequestInitEx) : M Headers.t :=
  defaults <- gets (fun s => read_record s (defaultHeaders this)) ;;
  hdrs <- or_TypeError "Invalid header"
            (Headers.of_record
               (Record.spread defaults (default [] (init_headers init))) []) ;;
  hdrs <- (if negb (Headers.has hdrs "x-request-id")
           then id <- randomUUID ;;
                or_TypeError "Invalid header" (Headers.set hdrs "x-request-id" id)
           else ret hdrs) ;;
  hdrs <- (match init_authToken init with
           | Some token =>
               (* [if (init.authToken)]: the empty string is falsy *)
               if negb (String.eqb token "")
               then or_TypeError "Invalid header"
                      (Headers.set hdrs "Authorization" ("Bearer " +:+ token))
               else ret hdrs
           | None => ret hdrs
           end) ;;
  hdrs <- (if bool_decide (is_Some (init_json init)) && negb (Headers.has hdrs "Content-Type")
           then or_TypeError "Invalid header"
                  (Headers.set hdrs "Content-Type" "application/json")
           else ret hdrs) ;;
  ret hdrs.

Definition parseResponse (response : FetchResponse) : M Data :=
  let contentType := default "" (Headers.get (fr_headers response) "content-type") in
  if fr_status response =? 204 then ret DUndefined
  else if Str.includes contentType "application/json" then
    match fr_json response with
    | Ok v => ret (DJson v)
    | Throw e => throw e
    end
  else
    match fr_text response with
    | Ok text => ret (DText text)
    | Throw e => throw e
    end.

Definition shouldRetry (s : State) (status_ attempt maxAttempts : Z) : bool :=
  Set_has s (retryStatuses this) status_ && (attempt <? maxAttempts - 1).

Definition isNetworkError (error : JsError) : bool :=
  instanceof_TypeError error
  || bool_decide (err_name error = Some "FetchError").

Definition shouldRetryError (error : JsError) (attempt maxAttempts : Z) : bool :=
  let isAbortError :=
    bool_decide (err_name error = Some "AbortError")
    || bool_decide (err_status error = Some 408) in
  (attempt <? maxAttempts - 1) && (isAbortError || isNetworkError error).

(** [Math.min(cap, base * 2 ** attempt)]; [attempt] is never negative. *)
Definition backoff_maxDelay (attempt : Z) : Z :=
  let base := 300 in
  let cap := 4000 in
  Z.min cap (base * 2 ^ attempt).

(** [Math.floor(r * (maxDelay + 1))]: the product is rounded to a binary64
    number before the floor is taken. *)
Definition backoff_delay (attempt : Z) (r : Rand) : Z :=
  Number.floor_of_product (rnd_num r) (rnd_den r) (backoff_maxDelay attempt + 1).

Definition backoff (attempt : Z) : M unit :=
  r <- Math_random ;;
  let delay := backoff_delay attempt r in
  sleep delay.

(** How one iteration of the attempt loop ends when it does not throw. *)
Inductive Step :=
| Continue (lastError : option JsError)
| Return (response : HttpResponse).

(** [new HTTPError(`HTTP ${status} ${statusText}`, status,
     { data, status, headers })], the error built at line 108. *)
Definition status_error (response : FetchResponse) (data_ : Data) : JsError :=
  HTTPError
    ("HTTP " +:+ pretty (fr_status response) +:+ " " +:+ fr_statusText response)
    (Some (fr_status response))
    (Some {| data := data_;
             status := fr_status response;
             headers := fr_headers response |}).

(** [error instanceof Error ? error : new HTTPError("Unknown HTTP error")],
    the value thrown at line 122. *)
Definition rethrown (error : JsError) : JsError :=
  if instanceof_Error error then error
  else HTTPError "Unknown HTTP error" None None.

(** The [try] block of the loop body: lines 93 to 115. *)
Definition try_block (method : HttpMethod) (url : string) (hdrs : Headers.t)
    (body : option string) (init : RequestInitEx)
    (maxAttempts attempt : Z) (lastError : option JsError) (timeout : nat) : M Step :=
  response <- fetch url method hdrs body (init_cache init) timeout ;;
  retry <- gets (fun s => shouldRetry s (fr_status response) attempt maxAttempts) ;;
  if retry then
    backoff attempt ;;;
    ret (Continue lastError)
  else
    data_ <- parseResponse response ;;
    if negb (fr_ok response) then
      throw (status_error response data_)
    else
      ret (Return {| data := data_;
                     status := fr_status response;
                     headers := fr_headers response |}).

(** The [catch] block: lines 117 to 122; [lastError = error] is the
    argument of [Continue]. *)
Definition catch_block (maxAttempts attempt : Z) (error : JsError) : M Step :=
  if shouldRetryError error attempt maxAttempts then
    backoff attempt ;;;
    ret (Continue (Some error))
  else
    throw (rethrown error).

(** The body of the [for] loop of [request]: lines 89 to 125.  The
    abort controller of the attempt is identified with the timer that
    aborts it. *)
Definition attempt_body (method : HttpMethod) (url : string) (hdrs : Headers.t)
    (body : option string) (init : RequestInitEx)
    (maxAttempts attempt : Z) (lastError : option JsError) : M Step :=
  timeout <- setTimeout AbortRequest
               (default (defaultTimeoutMs this) (init_timeoutMs init)) ;;
  try_finally
    (try_catch
       (try_block method url hdrs body init maxAttempts attempt lastError timeout)
       (catch_block maxAttempts attempt))
    (clearTimeout timeout).

(** How the [for] statement ends. *)
Inductive LoopResult :=
| Returned (response : HttpResponse)     (* [return] at line 115 *)
| Raised (error : JsError)               (* [throw] at line 108 or 122 *)
| Completed (lastError : option JsError) (* the loop test failed *)
| OutOfFuel.                             (* iterations left to run *)

(** [for (let attempt = ...; attempt < maxAttempts; attempt++) { ... }],
    run for at most [fuel] evaluations of the loop test. *)
Fixpoint attempts (fuel : nat) (method : HttpMethod) (url : string)
    (hdrs : Headers.t) (body : option string) (init : RequestInitEx)
    (maxAttempts attempt : Z) (lastError : option JsError) (s : State)
    : LoopResult * State :=
  match fuel with
  | O => (OutOfFuel, s)
  | S fuel' =>
      if attempt <? maxAttempts then
        match attempt_body method url hdrs body init maxAttempts attempt lastError s with
        | (Ok (Continue lastError'), s') =>
            attempts fuel' method url hdrs body init maxAttempts (attempt + 1) lastError' s'
        | (Ok (Return response), s') => (Returned response, s')
        | (Throw error, s') => (Raised error, s')
        end
      else (Completed lastError, s)
  end.

(** The state of the promise returned by [request]. *)
Inductive Settled :=
| Fulfilled (response : HttpResponse)
| Rejected (error : JsError)
| Pending.

Definition empty_init : RequestInitEx :=
  {| init_headers := None; init_query := None; init_json := None;
     init_timeoutMs := None; init_authToken := None; init_cache := None |}.

(** Lines 82 to 84: the three values fixed before the loop. *)
Definition prepare (path : string) (init : RequestInitEx)
    : M (string * Headers.t * option string) :=
  url <- buildUrl path (init_query init) ;;
  hdrs <- buildHeaders init ;;
  body <- match init_json init with
          | Some v => completion (JSON_stringify v)
          | None => ret None
          end ;;
  ret (url, hdrs, body).

(** [Math.max(1, this.retries + 1)] *)
Definition maxAttempts_of : Z := Z.max 1 (retries this + 1).

(** The loop as [request] starts it: one loop test more than there are
    attempts is enough to see it end. *)
Definition request_loop (method : HttpMethod) (url : string) (hdrs : Headers.t)
    (body : option string) (init : RequestInitEx) (s : State)
    : LoopResult * State :=
  attempts (S (Z.to_nat maxAttempts_of)) method url hdrs body init
    maxAttempts_of 0 None s.

Definition request (method : HttpMethod) (path : string)
    (init : option RequestInitEx) (s : State) : Settled * State :=
  let init := default empty_init init in
  match prepare path init s with
  | (Throw e, s1) => (Rejected e, s1)
  | (Ok (url, hdrs, body), s1) =>
      match request_loop method url hdrs body init s1 with
      | (Returned response, s2) => (Fulfilled response, s2)
      | (Raised error, s2) => (Rejected error, s2)
      | (Completed lastError, s2) =>
          (Rejected (match lastError with
                     | Some e => if instanceof_Error e then e
                                 else HTTPError "Request failed" None None
                     | None => HTTPError "Request failed" None None
                     end), s2)
      | (OutOfFuel, s2) => (Pending, s2)
      end
  end.

Definition get (path : string) (init : option RequestInitEx) :=
  request GET path init.

Definition post (path : string) (init : option RequestInitEx) :=
  request POST path init.

Definition put (path : string) (init : option RequestInitEx) :=
  request PUT path init.

Definition patch (path : string) (init : option RequestInitEx) :=
  request PATCH path init.

Definition delete_ (path : string) (init : option RequestInitEx) :=
  request DELETE path init.

End Methods.

End Calls.

(** ** One attempt, read off the answer of the transport

    The completion of the loop body and the platform calls it makes are
    fixed by the answer the transport gives to its [fetch]; the two
    functions below spell them out, and [attempt_body_spec] shows that the
    loop body computes exactly these. *)

Section Attempt.

Context `{Platform} (env : Env) (this : HttpClient).

(** What [parseResponse] settles to. *)
Definition parse_result (response : FetchResponse) : result Data :=
  if fr_status response =? 204 then Ok DUndefined
  else if Str.includes (default "" (Headers.get (fr_headers response) "content-type"))
            "application/json"
       then match fr_json response with
            | Ok v => Ok (DJson v)
            | Throw e => Throw e
            end
       else match fr_text response with
            | Ok text => Ok (DText text)
            | Throw e => Throw e
            end.

(** Completion of the [catch] block. *)
Definition caught (maxAttempts attempt : Z) (error : JsError) : result Step :=
  if shouldRetryError error attempt maxAttempts
  then Ok (Continue (Some error))
  else Throw (rethrown error).

(** Completion of the loop body. *)
Definition verdict (s : State) (maxAttempts attempt : Z)
    (lastError : option JsError) (answer : FetchOutcome) : result Step :=
  match answer with
  | Failed error => caught maxAttempts attempt error
  | Resolved response =>
      if shouldRetry this s (fr_status response) attempt maxAttempts
      then Ok (Continue lastError)
      else
        match parse_result response with
        | Throw e => caught maxAttempts attempt e
        | Ok data_ =>
            if negb (fr_ok response)
            then caught maxAttempts attempt (status_error response data_)
            else Ok (Return {| data := data_;
                               status := fr_status response;
                               headers := fr_headers response |})
        end
  end.

(** The error with which an attempt fails: the fault of its [fetch], or
    of the reading of its body. *)
Definition fault_of (answer : FetchOutcome) : option JsError :=
  match answer with
  | Failed error => Some error
  | Resolved response =>
      match parse_result response with
      | Throw e => Some e
      | Ok _ => None
      end
  end.

(** An attempt that ends in a timeout: the abort fires while the [fetch]
    is pending, or while the body of a response that is not retried for
    its status is being read. *)
Definition timed_out (s : State) (answer : FetchOutcome) : Prop :=
  (exists e, fault_of answer = Some e /\ err_name e = Some "AbortError")
  /\ match answer with
     | Failed _ => True
     | Resolved response => Set_has s (retryStatuses this) (fr_status response) = false
     end.

Definition continues (r : result Step) : bool :=
  match r with
  | Ok (Continue _) => true
  | _ => false
  end.

(** Platform calls of one attempt started in state [s]; [retrying] tells
    whether a backoff sleep is part of it. *)
Definition attempt_events (s : State) (method : HttpMethod) (url : string)
    (hdrs : Headers.t) (body : option string) (init : RequestInitEx)
    (attempt : Z) (retrying : bool) : list Event :=
  let timeout := next_handle s in
  let r := random env (drawn s) in
  [EvSetTimeout timeout AbortRequest
     (default (defaultTimeoutMs this) (init_timeoutMs init));
   EvFetch url method hdrs body (init_cache init) timeout]
  ++ (if retrying
      then [EvMathRandom r;
            EvSetTimeout (S timeout) ResolveSleep (backoff_delay attempt r);
            EvTimerFired (S timeout)]
      else [])
  ++ [EvClearTimeout timeout].

(** The state one attempt leaves behind. *)
Definition after_attempt (s : State) (method : HttpMethod) (url : string)
    (hdrs : Headers.t) (body : option string) (init : RequestInitEx)
    (attempt : Z) (retrying : bool) : State :=
  {| heap := heap s;
     armed := armed s;
     next_handle := if retrying then S (S (next_handle s)) else S (next_handle s);
     fetched := S (fetched s);
     drawn := if retrying then S (drawn s) else drawn s;
     issued := issued s;
     trace := trace s ++ attempt_events s method url hdrs body init attempt retrying |}.

(** How the loop ends when its last iteration completes as [r]. *)
Definition loop_result_of (r : result Step) : LoopResult :=
  match r with
  | Ok (Return response) => Returned response
  | Ok (Continue lastError) => Completed lastError
  | Throw error => Raised error
  end.

(** The promise of [request] after a loop that ended as [r]. *)
Definition settled_of (r : LoopResult) : Settled :=
  match r with
  | Returned response => Fulfilled response
  | Raised error => Rejected error
  | Completed lastError =>
      Rejected (match lastError with
                | Some e => if instanceof_Error e then e
                            else HTTPError "Request failed" None None
                | None => HTTPError "Request failed" None None
                end)
  | OutOfFuel => Pending
  end.

End Attempt.

(** ** Computations by their effect on the state *)

Section Footprint.

Context `{Platform} (env : Env).

(** [m] leaves the state as it finds it. *)
Definition quiet {A} (m : M A) : Prop :=
  forall s, snd (m s) = s.

(** [m] calls [randomUUID()] at most once and does nothing else. *)
Definition issues_at_most_one {A} (m : M A) : Prop :=
  forall s,
    snd (m s) = s \/
    snd (m s) = log (EvRandomUUID (uuid env (issued s))) (with_issued (S (issued s)) s).

End Footprint.

(** ** Reading a trace *)

(** Handles of the abort timers armed in [evs], in order. *)
Fixpoint acquired (evs : list Event) : list nat :=
  match evs with
  | [] => []
  | EvSetTimeout handle AbortRequest _ :: rest => handle :: acquired rest
  | _ :: rest => acquired rest
  end.

(** Handles passed to [clearTimeout] in [evs], in order. *)
Fixpoint released (evs : list Event) : list nat :=
  match evs with
  | [] => []
  | EvClearTimeout handle :: rest => handle :: released rest
  | _ :: rest => released rest
  end.

(** Number of [fetch] calls in [evs]. *)
Fixpoint fetch_count (evs : list Event) : nat :=
  match evs with
  | [] => O
  | EvFetch _ _ _ _ _ _ :: rest => S (fetch_count rest)
  | _ :: rest => fetch_count rest
  end.

(** An event of the attempt loop of one call: every [fetch] carries the
    given request, and no identifier is drawn. *)
Definition loop_event (url : string) (method : HttpMethod) (hdrs : Headers.t)
    (body : option string) (cache : option string) (e : Event) : Prop :=
  match e with
  | EvFetch url' method' hdrs' body' cache' _ =>
      url' = url /\ method' = method /\ hdrs' = hdrs /\ body' = body /\ cache' = cache
  | EvRandomUUID _ => False
  | _ => True
  end.

(** The [x-request-id] header sent by a [fetch]. *)
Definition request_id_of (e : Event) : option (option string) :=
  match e with
  | EvFetch _ _ hdrs _ _ _ => Some (Headers.get hdrs "x-request-id")
  | _ => None
  end.

(** Delays of the abort timers armed in [evs], in order. *)
Fixpoint abort_delays (evs : list Event) : list Z :=
  match evs with
  | [] => []
  | EvSetTimeout _ AbortRequest ms :: rest => ms :: abort_delays rest
  | _ :: rest => abort_delays rest
  end.

(** Delays of the backoff sleeps started in [evs], in order. *)
Fixpoint sleeps (evs : list Event) : list Z :=
  match evs with
  | [] => []
  | EvSetTimeout _ ResolveSleep ms :: rest => ms :: sleeps rest
  | _ :: rest => sleeps rest
  end.

(** Methods of the [fetch] calls in [evs], in order. *)
Fixpoint fetch_methods (evs : list Event) : list HttpMethod :=
  match evs with
  | [] => []
  | EvFetch _ method _ _ _ _ :: rest => method :: fetch_methods rest
  | _ :: rest => fetch_methods rest
  end.

(** What a run of the attempt loop leaves behind, from [s] to [s']: the
    heap, the armed timers and the identifier counter are as before; the
    platform calls made are those of the attempts, each [fetch] with the
    same request, each abort timer armed once and cleared once, and at most
    [budget] calls to [fetch]. *)
Definition loop_footprint (url : string) (method : HttpMethod) (hdrs : Headers.t)
    (body : option string) (cache : option string) (budget : nat)
    (s s' : State) : Prop :=
  heap s' = heap s /\ armed s' = armed s /\ issued s' = issued s /\
  exists evs,
    trace s' = trace s ++ evs /\
    Forall (loop_event url method hdrs body cache) evs /\
    released evs = acquired evs /\
    Forall (fun handle => (next_handle s <= handle)%nat) (acquired evs) /\
    NoDup (acquired evs) /\
    fetched s' = (fetched s + fetch_count evs)%nat /\
    length (acquired evs) = fetch_count evs /\
    (fetch_count evs <= budget)%nat.

(** ** A host to run the client on

    JSON values are integers.  A URL is accepted when it is an [https] URL
    written with letters, digits and [/ : . - _] only; on the URLs used in
    this file the WHATWG parser leaves such a string as it is.  A URL is
    kept as the pair of its part before the query and its query. *)

Module Host.

Definition url_byte (c : ascii) : bool :=
  Str.is_alnum c || Str.mem c "/:.-_".

Definition parse (s : string) : option (string * string) :=
  if Str.startsWith s "https://" && Str.all url_byte s
  then Some (s, "")
  else None.

Definition set_search (url : string * string) (search : string)
    : string * string :=
  (fst url, search).

Definition toString (url : string * string) : string :=
  if String.eqb (snd url) "" then fst url
  else fst url +:+ "?" +:+ snd url.

Definition values : JsValues :=
  {| JsValue := Z |}.

Definition platform : @Platform values :=
  @Build_Platform values
    (fun v : Z => Ok (Some (pretty v)))
    (string * string) parse set_search toString.

End Host.

#[local] Existing Instance Host.values.
#[local] Existing Instance Host.platform.

(** ** Concrete clients, worlds and calls *)

Module Examples.

Definition fresh : State :=
  {| heap := []; armed := []; next_handle := 0; fetched := 0; drawn := 0;
     issued := 0; trace := [] |}.

(** [new HttpClient({ baseUrl: "https://x.test/", retries: 2,
     defaultTimeoutMs: 5000 })], as in [src/lib/api.ts]. *)
Definition users_options : HTTPClientOptions :=
  {| opt_baseUrl := "https://x.test/";
     opt_defaultHeaders := None;
     opt_retries := Some 2;
     opt_retryStatuses := None;
     opt_defaultTimeoutMs := Some 5000 |}.

Definition users : HttpClient :=
  {| baseUrl := "https://x.test";
     defaultHeaders := 0;
     retries := 2;
     retryStatuses := 2;
     defaultTimeoutMs := 5000 |}.

Definition started : State :=
  {| heap := [ObjRecord []; ObjArray [408; 429; 502; 503; 504];
              ObjSet [408; 429; 502; 503; 504]];
     armed := []; next_handle := 0; fetched := 0; drawn := 0; issued := 0;
     trace := [] |}.

(** A caller that passes its own status array and header record. *)
Definition caller_state (statuses : list Z) (props : Record.t) : State :=
  {| heap := [ObjArray statuses; ObjRecord props];
     armed := []; next_handle := 0; fetched := 0; drawn := 0; issued := 0;
     trace := [] |}.

Definition caller_options (retries_ : Z) : HTTPClientOptions :=
  {| opt_baseUrl := "https://x.test";
     opt_defaultHeaders := Some 1%nat;
     opt_retries := Some retries_;
     opt_retryStatuses := Some 0%nat;
     opt_defaultTimeoutMs := None |}.

Definition caller_client (retries_ : Z) : HttpClient :=
  {| baseUrl := "https://x.test";
     defaultHeaders := 1;
     retries := retries_;
     retryStatuses := 2;
     defaultTimeoutMs := 5000 |}.

Definition constructed (statuses : list Z) (props : Record.t) : State :=
  {| heap := [ObjArray statuses; ObjRecord props; ObjSet (Set_add_all [] statuses)];
     armed := []; next_handle := 0; fetched := 0; drawn := 0; issued := 0;
     trace := [] |}.

Definition syntax_error : JsError :=
  {| err_kind := ErrorInstance;
     err_name := Some "SyntaxError";
     err_message := "Unexpected end of JSON input";
     err_status := None;
     err_response := None |}.

(** The fault of a [fetch] aborted by its timer. *)
Definition abort_error : JsError :=
  {| err_kind := ErrorInstance;
     err_name := Some "AbortError";
     err_message := "This operation was aborted";
     err_status := None;
     err_response := None |}.

(** A plain-text response. *)
Definition reply (status_ : Z) (statusText text : string) : FetchResponse :=
  {| fr_status := status_;
     fr_statusText := statusText;
     fr_headers := [("content-type", "text/plain")];
     fr_json := Throw syntax_error;
     fr_text := Ok text |}.

Definition half : Rand := {| rnd_num := 1; rnd_den := 2 |}.

Definition request_id : string := "3f2b8c1e-5d47-4a9b-8e21-0c6d9f4a7b10".

(** A world whose transport gives the same answer to every [fetch]. *)
Definition always (answer : FetchOutcome) : Env :=
  {| transport := fun _ => answer;
     random := fun _ => half;
     uuid := fun _ => request_id |}.

(** A world that answers 408 to the first [fetch] and 200 afterwards. *)
Definition timeout_then_ok : Env :=
  {| transport := fun n =>
       match n with
       | O => Resolved (reply 408 "Request Timeout" "")
       | _ => Resolved (reply 200 "OK" "done")
       end;
     random := fun _ => half;
     uuid := fun _ => request_id |}.

(** The state of [started] after the preparation of a call that was
    given no request id. *)
Definition prepared : State :=
  {| heap := heap started; armed := []; next_handle := 0; fetched := 0;
     drawn := 0; issued := 1; trace := [EvRandomUUID request_id] |}.

Definition with_token (token : string) (headers_ : option Record.t) : RequestInitEx :=
  {| init_headers := headers_; init_query := None; init_json := None;
     init_timeoutMs := None; init_authToken := Some token; init_cache := None |}.

(** A call with headers of its own and, possibly, a JSON body. *)
Definition with_headers (headers_ : Record.t) (json : option Z) : RequestInitEx :=
  {| init_headers := Some headers_; init_query := None; init_json := json;
     init_timeoutMs := None; init_authToken := None; init_cache := None |}.

(** The fault of a [fetch] that could not reach the server. *)
Definition network_error : JsError := TypeError "fetch failed".

(** A thrown value that is no [Error]: a plain string. *)
Definition thrown_string : JsError :=
  {| err_kind := NotAnError;
     err_name := None;
     err_message := "boom";
     err_status := None;
     err_response := None |}.

(** A world that answers 503, then fails to connect, then answers 200. *)
Definition flaky : Env :=
  {| transport := fun n =>
       match n with
       | O => Resolved (reply 503 "Service Unavailable" "busy")
       | S O => Failed network_error
       | _ => Resolved (reply 200 "OK" "done")
       end;
     random := fun _ => half;
     uuid := fun _ => request_id |}.

(** A world that answers 503 and then throws a value that is no [Error]. *)
Definition busy_then_thrown : Env :=
  {| transport := fun n =>
       match n with
       | O => Resolved (reply 503 "Service Unavailable" "busy")
       | _ => Failed thrown_string
       end;
     random := fun _ => half;
     uuid := fun _ => request_id |}.

(** [new HttpClient({ baseUrl: "/" })]: the base URL is the empty string
    once its slash is stripped, and the string handed to [new URL] is the
    path alone. *)
Definition rootless : HttpClient :=
  {| baseUrl := "";
     defaultHeaders := 0;
     retries := 2;
     retryStatuses := 2;
     defaultTimeoutMs := 5000 |}.

(** The host, given payloads whose [toJSON] method throws [thrown]. *)
Definition throwing (thrown : JsError) : @Platform Host.values :=
  @Build_Platform Host.values
    (fun _ : Z => Throw thrown)
    (string * string) Host.parse Host.set_search Host.toString.

(** A JSON response whose body cannot be parsed. *)
Definition broken_json (status_ : Z) (statusText : string) : FetchResponse :=
  {| fr_status := status_;
     fr_statusText := statusText;
     fr_headers := [("content-type", "application/json")];
     fr_json := Throw syntax_error;
     fr_text := Ok "{" |}.

End Examples.

(** * Properties *)

#[local] Arguments String.append !s1 s2 : simpl nomatch.

(** ** Numbers *)

(** Rounding to the nearest multiple of [2^shift] moves a number by half
    of [2^shift] at most. *)
Lemma round_nearest_even_bounds (a shift : Z) :
  0 <= a -> 0 < shift ->
  0 <= Number.round_nearest_even a shift * 2 ^ shift <= a + 2 ^ (shift - 1).
Proof.
  intros Ha Hshift. unfold Number.round_nearest_even.
  assert (Hpow : 0 < 2 ^ shift) by (apply Z.pow_pos_nonneg; lia).
  assert (Hhalf : 2 ^ shift = 2 * 2 ^ (shift - 1)).
  { rewrite <- Z.pow_succ_r by lia. f_equal. lia. }
  pose proof (Z.div_mod a (2 ^ shift) ltac:(lia)) as Hdiv.
  pose proof (Z.mod_pos_bound a (2 ^ shift) Hpow) as Hmod.
  assert (Hq : 0 <= a / 2 ^ shift) by (apply Z.div_pos; lia).
  set (q := a / 2 ^ shift) in *. set (rest := a mod 2 ^ shift) in *.
  set (half := 2 ^ (shift - 1)) in *.
  destruct ((half <? rest) || ((rest =? half) && Z.odd q)) eqn:Hup.
  - assert (half <= rest).
    { apply orb_true_iff in Hup as [Hlt | Heq].
      - apply Z.ltb_lt in Hlt. lia.
      - apply andb_true_iff in Heq as [Heq _]. apply Z.eqb_eq in Heq. lia. }
    nia.
  - nia.
Qed.

(** Rounding to 53 significant bits moves a number by [2^-53] of itself at
    most. *)
Lemma round53_bounds (a : Z) :
  0 <= a ->
  0 <= Number.round53 a /\ Number.round53 a * 2 ^ 53 <= a * 2 ^ 53 + a.
Proof.
  intros Ha. unfold Number.round53.
  destruct (Z.log2 a + 1 - 53 <=? 0) eqn:Hshift.
  - lia.
  - apply Z.leb_gt in Hshift.
    pose proof (round_nearest_even_bounds a (Z.log2 a + 1 - 53) Ha Hshift) as [Hlo Hhi].
    split; [exact Hlo|].
    assert (Hpos : 0 < a).
    { destruct (Z.eq_dec a 0) as [-> | ?]; [|lia]. simpl in Hshift. lia. }
    pose proof (Z.log2_spec a Hpos) as [Hlog _].
    assert (Hsplit : 2 ^ Z.log2 a = 2 ^ (Z.log2 a + 1 - 53 - 1) * 2 ^ 53).
    { rewrite <- Z.pow_add_r by lia. f_equal. lia. }
    nia.
Qed.

(** An integer of at most 53 bits is a binary64 number. *)
Lemma round53_exact (a : Z) : 0 <= a < 2 ^ 53 -> Number.round53 a = a.
Proof.
  intros [Hlo Hhi]. unfold Number.round53.
  destruct (Z.log2 a + 1 - 53 <=? 0) eqn:Hshift; [reflexivity|].
  apply Z.leb_gt in Hshift.
  destruct (Z.eq_dec a 0) as [-> | Hpos]; [simpl in Hshift; lia|].
  assert (Hlog : Z.log2 a < 53) by (apply Z.log2_lt_pow2; lia).
  lia.
Qed.


(** Rounding to 53 significant bits keeps the leading bit. *)
Lemma round53_above (a : Z) : 2 ^ 53 <= a -> 2 ^ 53 <= Number.round53 a.
Proof.
  intros Ha. unfold Number.round53.
  destruct (Z.log2 a + 1 - 53 <=? 0) eqn:Hshift; [exact Ha|].
  apply Z.leb_gt in Hshift.
  set (shift := Z.log2 a + 1 - 53) in *.
  pose proof (Z.log2_spec a ltac:(lia)) as [Hlog _].
  assert (Hpow : 0 < 2 ^ shift) by (apply Z.pow_pos_nonneg; lia).
  assert (Hsplit : 2 ^ Z.log2 a = 2 ^ 52 * 2 ^ shift).
  { rewrite <- Z.pow_add_r by lia. f_equal. lia. }
  assert (Hq : 2 ^ 52 <= a / 2 ^ shift).
  { apply Z.div_le_lower_bound; lia. }
  assert (Hround : a / 2 ^ shift <= Number.round_nearest_even a shift).
  { unfold Number.round_nearest_even. destruct (_ || _); lia. }
  assert (H53 : 2 ^ 53 = 2 ^ 52 * 2) by reflexivity.
  assert (H2 : 2 <= 2 ^ shift).
  { change 2 with (2 ^ 1) at 1. apply Z.pow_le_mono_r; lia. }
  nia.
Qed.

Lemma of_integer_safe (x : Z) : 0 <= x < 2 ^ 53 -> Number.of_integer x = Some x.
Proof.
  intros Hx. unfold Number.of_integer. rewrite (round53_exact x Hx).
  assert (Hlt : x < 2 ^ 1024).
  { apply Z.lt_trans with (2 ^ 53); [lia|]. apply Z.pow_lt_mono_r; lia. }
  apply Z.ltb_lt in Hlt. now rewrite Hlt.
Qed.

Lemma denotes_safe (x v : Z) :
  0 <= x < 2 ^ 53 -> 0 <= v -> Number.denotes x v = (v =? x).
Proof.
  intros Hx Hv. unfold Number.denotes.
  destruct (Z_lt_le_dec v (2 ^ 53)) as [Hlt | Hge].
  - now rewrite of_integer_safe by lia.
  - pose proof (round53_above v Hge) as Hround.
    unfold Number.of_integer.
    destruct (Number.round53 v <? 2 ^ 1024); symmetry; [|apply Z.eqb_neq; lia].
    destruct (Z.eqb_spec (Number.round53 v) x); [lia|]. apply Z.eqb_neq. lia.
Qed.

Lemma candidate_safe (x k : Z) :
  0 <= x < 2 ^ 53 -> k < Number.digits x ->
  Number.candidate x k = None \/ Number.candidate x k = Some x.
Proof.
  intros Hx Hk. unfold Number.candidate.
  set (p := 10 ^ (Number.digits x - k)).
  assert (Hp : 0 < p) by (apply Z.pow_pos_nonneg; lia).
  pose proof (Z.div_mod x p ltac:(lia)) as Hdiv.
  pose proof (Z.mod_pos_bound x p Hp) as Hmod.
  assert (Hq : 0 <= x / p) by (apply Z.div_pos; lia).
  assert (Hlo : 0 <= x / p * p <= x) by nia.
  rewrite !denotes_safe by lia.
  assert (Hhi : (x / p * p + p =? x) = false) by (apply Z.eqb_neq; nia).
  rewrite Hhi.
  destruct (Z.eqb_spec (x / p * p) x) as [Heq | Hne]; [right | left; reflexivity].
  now rewrite Heq.
Qed.

Lemma shortest_safe (x : Z) (fuel : nat) (k : Z) :
  0 <= x < 2 ^ 53 -> Number.shortest x k fuel = x.
Proof.
  intros Hx. revert k. induction fuel as [|fuel IH]; intros k; [reflexivity|].
  cbn [Number.shortest].
  destruct (Number.digits x <=? k) eqn:Hk; [reflexivity|].
  apply Z.leb_gt in Hk.
  destruct (candidate_safe x k Hx Hk) as [-> | ->]; [apply IH | reflexivity].
Qed.

(** An integer of magnitude below [2^53] prints as its decimal numeral. *)
Lemma toString_safe (n : Z) : Z.abs n < 2 ^ 53 -> Number.toString n = pretty n.
Proof.
  intros Hn.
  assert (Hpos : forall x, 0 <= x < 2 ^ 53 -> Number.positive_toString x = pretty x).
  { intros x Hx. unfold Number.positive_toString.
    rewrite (of_integer_safe x Hx). cbv zeta. rewrite (shortest_safe x 17 1 Hx).
    assert (Hlt : x < 10 ^ 21).
    { apply Z.lt_trans with (2 ^ 53); [lia | reflexivity]. }
    apply Z.ltb_lt in Hlt. now rewrite Hlt. }
  unfold Number.toString.
  destruct n as [|p|p]; [reflexivity | |].
  - change (Z.pos p =? 0) with false. change (Z.pos p <? 0) with false.
    cbn iota. apply Hpos. lia.
  - change (Z.neg p =? 0) with false. change (Z.neg p <? 0) with true.
    cbn iota. rewrite Hpos by (simpl; lia). reflexivity.
Qed.

Lemma toString_examples :
  Number.toString (2 ^ 53 + 1) = "9007199254740992"
  /\ Number.toString (2 ^ 60) = "1152921504606847000"
  /\ Number.toString (- 2 ^ 64) = "-18446744073709552000"
  /\ Number.toString (10 ^ 21) = "1e+21"
  /\ Number.toString (2 ^ 70) = "1.1805916207174113e+21"
  /\ Number.toString (10 ^ 23) = "1e+23"
  /\ Number.toString (2 ^ 1024) = "Infinity".
Proof. vm_compute. repeat split. Qed.

(** The product of a binary64 number below one and a positive integer,
    rounded, stays below the integer. *)
Lemma floor_of_product_bounds (num den n : Z) :
  0 <= num < den -> num < 2 ^ 53 -> 0 < n ->
  0 <= Number.floor_of_product num den n <= n - 1.
Proof.
  intros [Hnum Hden] Hmant Hn. unfold Number.floor_of_product.
  pose proof (round53_bounds (num * n) ltac:(nia)) as [Hlo Hhi].
  split.
  - apply Z.div_pos; lia.
  - apply Z.lt_succ_r. replace (Z.succ (n - 1)) with n by lia.
    apply Z.div_lt_upper_bound; [lia|].
    assert (Hround : Number.round53 (num * n) < num * n + n) by nia.
    nia.
Qed.

Lemma is_binary64_mantissa (r : Rand) :
  is_binary64 r = true -> rnd_num r < 2 ^ 53.
Proof.
  unfold is_binary64. intros Hr.
  apply andb_true_iff in Hr as [Hr _]. apply andb_true_iff in Hr as [Hr _].
  apply andb_true_iff in Hr as [_ Hr]. now apply Z.ltb_lt in Hr.
Qed.

(** ** Strings *)

Lemma append_eq_nil (a b : string) : a +:+ b = "" -> a = "" /\ b = "".
Proof. destruct a; simpl; [auto | discriminate]. Qed.

(** A stripped string does not end with a byte of the stripped class. *)
Lemma strip_suffix_last (p : ascii -> bool) (s pre : string) (c : ascii) :
  Str.strip_suffix p s = pre +:+ String c "" -> p c = false.
Proof.
  revert pre. induction s as [|a rest IH]; intros pre Heq; simpl in Heq.
  - destruct pre; discriminate.
  - destruct (p a && String.eqb (Str.strip_suffix p rest) "") eqn:Hc.
    + destruct pre; discriminate.
    + destruct pre as [|a' pre']; simpl in Heq.
      * injection Heq as -> Hrest. rewrite Hrest in Hc. simpl in Hc.
        now rewrite andb_true_r in Hc.
      * injection Heq as _ Hrest. eapply IH, Hrest.
Qed.

(** Stripping removes a run of bytes of the class, and nothing else. *)
Lemma strip_suffix_decompose (p : ascii -> bool) (s : string) :
  exists tail, s = Str.strip_suffix p s +:+ tail /\ Str.all p tail = true.
Proof.
  induction s as [|a rest (tail & Heq & Hall)]; simpl.
  - exists "". split; reflexivity.
  - destruct (p a && String.eqb (Str.strip_suffix p rest) "") eqn:Hc.
    + apply andb_true_iff in Hc as [Hp He]. apply String.eqb_eq in He.
      exists (String a rest). split; [reflexivity|].
      simpl. rewrite Hp. simpl. rewrite He in Heq. simpl in Heq. now rewrite Heq.
    + exists tail. split; [|exact Hall]. simpl. now rewrite <- Heq.
Qed.

Lemma all_slashes (tail : string) :
  Str.all Str.is_slash tail = true -> exists n, tail = Str.slashes n.
Proof.
  induction tail as [|c tail IH]; simpl; intros Hall.
  - now exists O.
  - apply andb_true_iff in Hall as [Hc Hall]. destruct (IH Hall) as [n ->].
    apply Ascii.eqb_eq in Hc. subst c. now exists (S n).
Qed.

Lemma strip_trailing_slashes_no_slash (s : string) :
  ~ Str.ends_with_slash (Str.strip_trailing_slashes s).
Proof.
  intros [pre Heq]. apply strip_suffix_last in Heq. discriminate.
Qed.

Lemma strip_trailing_slashes_decompose (s : string) :
  exists n, s = Str.strip_trailing_slashes s +:+ Str.slashes n.
Proof.
  destruct (strip_suffix_decompose Str.is_slash s) as (tail & Heq & Hall).
  destruct (all_slashes tail Hall) as [n ->]. now exists n.
Qed.

(** Stripping acts on the last part of a string when something of that part
    is left. *)
Lemma strip_suffix_app (p : ascii -> bool) (a b : string) :
  Str.strip_suffix p b <> "" ->
  Str.strip_suffix p (a +:+ b) = a +:+ Str.strip_suffix p b.
Proof.
  intros Hb. induction a as [|c a IH]; simpl; [reflexivity|].
  rewrite IH. destruct (a +:+ Str.strip_suffix p b) eqn:Heq.
  - apply append_eq_nil in Heq as [_ Heq]. contradiction.
  - simpl. now rewrite andb_false_r.
Qed.

(** ** Header lists *)

Lemma filter_name_excluded (k : string) (hdrs : Headers.t) :
  List.filter (fun x => String.eqb (fst x) k)
    (List.filter (fun y => negb (String.eqb (fst y) k)) hdrs) = [].
Proof.
  induction hdrs as [|y rest IH]; simpl; [reflexivity|].
  destruct (String.eqb (fst y) k) eqn:Hy; simpl; [exact IH|].
  rewrite Hy. exact IH.
Qed.

Lemma filter_name_replace (k v : string) (hdrs : Headers.t) :
  existsb (fun x => String.eqb (fst x) k) hdrs = true ->
  List.filter (fun x => String.eqb (fst x) k) (Headers.replace (k, v) hdrs) = [(k, v)].
Proof.
  induction hdrs as [|x rest IH]; simpl; [discriminate|].
  destruct (String.eqb (fst x) k) eqn:Hx; simpl.
  - intros _. rewrite String.eqb_refl. f_equal. apply filter_name_excluded.
  - intros Hex. rewrite Hx. now apply IH.
Qed.

Lemma filter_other_replace (k k' v : string) (hdrs : Headers.t) :
  k <> k' ->
  List.filter (fun x => String.eqb (fst x) k') (Headers.replace (k, v) hdrs)
  = List.filter (fun x => String.eqb (fst x) k') hdrs.
Proof.
  intros Hne. apply String.eqb_neq in Hne.
  induction hdrs as [|x rest IH]; simpl; [reflexivity|].
  destruct (String.eqb (fst x) k) eqn:Hx; simpl.
  - apply String.eqb_eq in Hx. rewrite Hx, Hne. clear IH.
    induction rest as [|y rest IHr]; simpl; [reflexivity|].
    destruct (String.eqb (fst y) k) eqn:Hy; simpl.
    + apply String.eqb_eq in Hy. rewrite Hy, Hne. exact IHr.
    + destruct (String.eqb (fst y) k'); [now f_equal | exact IHr].
  - destruct (String.eqb (fst x) k'); [now f_equal | exact IH].
Qed.

Lemma filter_none (k : string) (hdrs : Headers.t) :
  existsb (fun x => String.eqb (fst x) k) hdrs = false ->
  List.filter (fun x => String.eqb (fst x) k) hdrs = [].
Proof.
  induction hdrs as [|x rest IH]; simpl; [reflexivity|].
  destruct (String.eqb (fst x) k); simpl; [discriminate | exact IH].
Qed.

(** After [set], the header has the one value just given, normalized. *)
Lemma get_set_same (hdrs hdrs' : Headers.t) (name value : string) :
  Headers.set hdrs name value = Some hdrs' ->
  Headers.get hdrs' name = Some (Headers.normalize value).
Proof.
  unfold Headers.set, Headers.checked, Headers.get, Headers.has, Headers.same_name.
  destruct (Headers.valid_name name && Headers.valid_value (Headers.normalize value));
    [|discriminate].
  intros [= <-].
  destruct (existsb _ hdrs) eqn:Hhas.
  - now rewrite filter_name_replace.
  - rewrite List.filter_app, filter_none by exact Hhas. simpl.
    now rewrite String.eqb_refl.
Qed.

(** [set] leaves the headers of every other name as they were. *)
Lemma get_set_other (hdrs hdrs' : Headers.t) (name name' value : string) :
  Str.toLowerCase name <> Str.toLowerCase name' ->
  Headers.set hdrs name value = Some hdrs' ->
  Headers.get hdrs' name' = Headers.get hdrs name'.
Proof.
  intros Hne.
  unfold Headers.set, Headers.checked, Headers.get, Headers.has, Headers.same_name.
  destruct (Headers.valid_name name && Headers.valid_value (Headers.normalize value));
    [|discriminate].
  intros [= <-].
  destruct (existsb _ hdrs) eqn:Hhas.
  - now rewrite filter_other_replace.
  - rewrite List.filter_app. simpl.
    apply String.eqb_neq in Hne. rewrite Hne. now rewrite app_nil_r.
Qed.

(** ** One attempt *)

(** Runs the [finally] block and compares the two states field by field. *)
Ltac release_timer :=
  unfold clearTimeout, modify, log, with_armed;
  unfold after_attempt, attempt_events; cbn;
  rewrite !Nat.eqb_refl; rewrite <- !app_assoc; reflexivity.

Section AttemptFacts.

Context `{Platform} (env : Env) (this : HttpClient).

Lemma parseResponse_pure (response : FetchResponse) (s : State) :
  parseResponse response s = (parse_result response, s).
Proof.
  unfold parseResponse, parse_result.
  destruct (fr_status response =? 204); [reflexivity|].
  destruct (Str.includes _ _).
  - destruct (fr_json response); reflexivity.
  - destruct (fr_text response); reflexivity.
Qed.

Lemma backoff_spec (attempt : Z) (s : State) :
  backoff env attempt s =
  (Ok tt,
   {| heap := heap s; armed := armed s; next_handle := S (next_handle s);
      fetched := fetched s; drawn := S (drawn s); issued := issued s;
      trace := trace s ++
        [EvMathRandom (random env (drawn s));
         EvSetTimeout (next_handle s) ResolveSleep
           (backoff_delay attempt (random env (drawn s)));
         EvTimerFired (next_handle s)] |}).
Proof.
  unfold backoff, sleep, bind, Math_random, setTimeout, modify, log, with_armed,
    with_next_handle, with_drawn; simpl.
  rewrite Nat.eqb_refl. rewrite <- !app_assoc. reflexivity.
Qed.

(** The loop body computes the verdict on the transport's answer and makes
    the platform calls of [attempt_events]. *)
Lemma catch_block_spec (maxAttempts attempt : Z) (error : JsError) (s : State) :
  catch_block env maxAttempts attempt error s =
  (caught maxAttempts attempt error,
   if shouldRetryError error attempt maxAttempts
   then snd (backoff env attempt s) else s).
Proof.
  unfold catch_block, caught, bind.
  destruct (shouldRetryError error attempt maxAttempts); [|reflexivity].
  now rewrite backoff_spec.
Qed.

Lemma shouldRetry_heap (s s' : State) (status_ attempt maxAttempts : Z) :
  heap s' = heap s ->
  shouldRetry this s' status_ attempt maxAttempts
  = shouldRetry this s status_ attempt maxAttempts.
Proof. unfold shouldRetry, Set_has. now intros ->. Qed.

Lemma attempt_body_spec (method : HttpMethod) (url : string) (hdrs : Headers.t)
    (body : option string) (init : RequestInitEx) (maxAttempts attempt : Z)
    (lastError : option JsError) (s : State) :
  let v := verdict this s maxAttempts attempt lastError (transport env (fetched s)) in
  attempt_body env this method url hdrs body init maxAttempts attempt lastError s
  = (v, after_attempt env this s method url hdrs body init attempt (continues v)).
Proof.
  unfold attempt_body, try_finally, try_catch, try_block, bind at 1.
  unfold setTimeout at 1. cbv beta iota.
  unfold bind at 1, fetch. cbv beta iota zeta.
  cbn [fetched log with_armed with_next_handle with_fetched].
  unfold verdict.
  destruct (transport env (fetched s)) as [response|error].
  - unfold bind at 1, gets.
    rewrite (shouldRetry_heap s) by reflexivity.
    destruct (shouldRetry this s (fr_status response) attempt maxAttempts).
    + unfold bind, ret. rewrite backoff_spec. release_timer.
    + unfold bind at 1. rewrite parseResponse_pure.
      destruct (parse_result response) as [data_|e].
      * destruct (negb (fr_ok response)).
        -- unfold throw. rewrite catch_block_spec. unfold caught.
           destruct (shouldRetryError (status_error response data_) attempt maxAttempts).
           ++ rewrite backoff_spec. release_timer.
           ++ release_timer.
        -- unfold ret. release_timer.
      * rewrite catch_block_spec. unfold caught.
        destruct (shouldRetryError e attempt maxAttempts).
        -- rewrite backoff_spec. release_timer.
        -- release_timer.
  - rewrite catch_block_spec. unfold caught.
    destruct (shouldRetryError error attempt maxAttempts).
    + rewrite backoff_spec. release_timer.
    + release_timer.
Qed.

End AttemptFacts.

(** ** Traces *)

Lemma acquired_app (evs evs' : list Event) :
  acquired (evs ++ evs') = acquired evs ++ acquired evs'.
Proof.
  induction evs as [|e evs IH]; simpl; [reflexivity|].
  destruct e as [h [] ms| | | | |]; simpl; now rewrite ?IH.
Qed.

Lemma released_app (evs evs' : list Event) :
  released (evs ++ evs') = released evs ++ released evs'.
Proof.
  induction evs as [|e evs IH]; simpl; [reflexivity|].
  destruct e; simpl; now rewrite ?IH.
Qed.

Lemma fetch_count_app (evs evs' : list Event) :
  fetch_count (evs ++ evs') = (fetch_count evs + fetch_count evs')%nat.
Proof.
  induction evs as [|e evs IH]; simpl; [reflexivity|].
  destruct e; simpl; now rewrite ?IH.
Qed.

Section LoopFacts.

Context `{Platform} (env : Env) (this : HttpClient).
Context (method : HttpMethod) (url : string) (hdrs : Headers.t)
        (body : option string) (init : RequestInitEx) (maxAttempts : Z).

Lemma attempt_events_acquired (s : State) (attempt : Z) (retrying : bool) :
  acquired (attempt_events env this s method url hdrs body init attempt retrying)
  = [next_handle s].
Proof. destruct retrying; reflexivity. Qed.

Lemma attempt_events_released (s : State) (attempt : Z) (retrying : bool) :
  released (attempt_events env this s method url hdrs body init attempt retrying)
  = [next_handle s].
Proof. destruct retrying; reflexivity. Qed.

Lemma attempt_events_fetch_count (s : State) (attempt : Z) (retrying : bool) :
  fetch_count (attempt_events env this s method url hdrs body init attempt retrying)
  = 1%nat.
Proof. destruct retrying; reflexivity. Qed.

Lemma attempt_events_loop_event (s : State) (attempt : Z) (retrying : bool) :
  Forall (loop_event url method hdrs body (init_cache init))
    (attempt_events env this s method url hdrs body init attempt retrying).
Proof.
  destruct retrying; unfold attempt_events; simpl;
    repeat (apply Forall_cons; split; [simpl; auto|]); apply Forall_nil; exact I.
Qed.

(** An attempt that continues is not the last one. *)
Lemma verdict_continues (s : State) (attempt : Z) (lastError : option JsError)
    (answer : FetchOutcome) :
  continues (verdict this s maxAttempts attempt lastError answer) = true ->
  attempt < maxAttempts - 1.
Proof.
  unfold verdict, caught, shouldRetry, shouldRetryError.
  destruct (attempt <? maxAttempts - 1) eqn:Hlt; [intros _; lia|].
  destruct answer as [response|error]; [|discriminate].
  rewrite andb_false_r. simpl.
  destruct (parse_result response); [|discriminate].
  destruct (negb (fr_ok response)); discriminate.
Qed.

Lemma verdict_heap (s s' : State) (attempt : Z) (lastError : option JsError)
    (answer : FetchOutcome) :
  heap s' = heap s ->
  verdict this s' maxAttempts attempt lastError answer
  = verdict this s maxAttempts attempt lastError answer.
Proof.
  intros Hheap. unfold verdict. destruct answer; [|reflexivity].
  now rewrite (shouldRetry_heap this s s') by exact Hheap.
Qed.

(** One unfolding of the loop. *)
Lemma attempts_step (fuel : nat) (attempt : Z) (lastError : option JsError) (s : State) :
  attempt < maxAttempts ->
  attempts env this (S fuel) method url hdrs body init maxAttempts attempt lastError s
  = let v := verdict this s maxAttempts attempt lastError (transport env (fetched s)) in
    let s' := after_attempt env this s method url hdrs body init attempt (continues v) in
    match v with
    | Ok (Continue lastError') =>
        attempts env this fuel method url hdrs body init maxAttempts (attempt + 1)
          lastError' s'
    | Ok (Return response) => (Returned response, s')
    | Throw error => (Raised error, s')
    end.
Proof.
  intros Hlt. cbn [attempts].
  apply Z.ltb_lt in Hlt. rewrite Hlt. rewrite attempt_body_spec. cbv zeta.
  destruct (verdict _ _ _ _ _ _) as [[]|]; reflexivity.
Qed.

(** The loop ends by [return] or [throw]. *)
Lemma attempts_ends (fuel : nat) :
  forall (attempt : Z) (lastError : option JsError) (s : State),
    attempt < maxAttempts ->
    (Z.to_nat (maxAttempts - attempt) <= fuel)%nat ->
    match fst (attempts env this fuel method url hdrs body init maxAttempts
                 attempt lastError s) with
    | Returned _ | Raised _ => True
    | Completed _ | OutOfFuel => False
    end.
Proof.
  induction fuel as [|fuel IH]; intros attempt lastError s Hlt Hfuel; [lia|].
  rewrite attempts_step by exact Hlt. cbv zeta.
  destruct (verdict _ _ _ _ _ _) as [[lastError'|response]|error] eqn:Hv; simpl; auto.
  assert (Hnext : attempt < maxAttempts - 1).
  { eapply verdict_continues. rewrite Hv. reflexivity. }
  apply IH; lia.
Qed.

Lemma loop_footprint_refl (budget : nat) (s : State) :
  loop_footprint url method hdrs body (init_cache init) budget s s.
Proof.
  repeat split. exists []. rewrite app_nil_r. simpl.
  repeat split; try constructor; lia.
Qed.

Lemma loop_footprint_attempt (budget : nat) (s : State) (attempt : Z)
    (retrying : bool) :
  (1 <= budget)%nat ->
  loop_footprint url method hdrs body (init_cache init) budget s
    (after_attempt env this s method url hdrs body init attempt retrying).
Proof.
  intros Hbudget. repeat split.
  exists (attempt_events env this s method url hdrs body init attempt retrying).
  rewrite attempt_events_acquired, attempt_events_released,
    attempt_events_fetch_count.
  split; [reflexivity|]. split; [apply attempt_events_loop_event|].
  split; [reflexivity|]. split; [repeat constructor|].
  split; [apply NoDup_singleton|]. simpl. repeat split; lia.
Qed.

(** The footprint of a run of the loop. *)
Lemma attempts_effects (fuel : nat) :
  forall (attempt : Z) (lastError : option JsError) (s : State),
    loop_footprint url method hdrs body (init_cache init)
      (Z.to_nat (maxAttempts - attempt)) s
      (snd (attempts env this fuel method url hdrs body init maxAttempts
              attempt lastError s)).
Proof.
  induction fuel as [|fuel IH]; intros attempt lastError s;
    [apply loop_footprint_refl|].
  destruct (Z.lt_ge_cases attempt maxAttempts) as [Hlt|Hge].
  2:{ cbn [attempts]. apply Z.ltb_ge in Hge. rewrite Hge. apply loop_footprint_refl. }
  rewrite attempts_step by exact Hlt. cbv zeta.
  destruct (verdict _ _ _ _ _ _) as [[lastError'|response]|error] eqn:Hv;
    cbn [continues snd]; [|apply loop_footprint_attempt; lia..].
  set (s1 := after_attempt env this s method url hdrs body init attempt true).
  destruct (IH (attempt + 1) lastError' s1)
    as (Hheap & Harmed & Hissued & evs & Htrace & Hev & Hrel & Hge & Hnd & Hf & Hlen & Hcnt).
  assert (Hnext : attempt < maxAttempts - 1).
  { eapply verdict_continues. rewrite Hv. reflexivity. }
  split; [exact Hheap|]. split; [exact Harmed|]. split; [exact Hissued|].
  exists (attempt_events env this s method url hdrs body init attempt true ++ evs).
  rewrite acquired_app, released_app, fetch_count_app.
  rewrite attempt_events_acquired, attempt_events_released, attempt_events_fetch_count.
  split.
  { rewrite Htrace. unfold s1, after_attempt. cbn [trace]. now rewrite app_assoc. }
  split.
  { apply Forall_app; split; [apply attempt_events_loop_event | exact Hev]. }
  split; [now rewrite Hrel|].
  split.
  { simpl. constructor; [lia|].
    eapply Forall_impl; [exact Hge|]. unfold s1. simpl. intros; lia. }
  split.
  { simpl. apply NoDup_cons; split; [|exact Hnd].
    intros Hin. rewrite Forall_forall in Hge. apply Hge in Hin.
    unfold s1 in Hin. simpl in Hin. lia. }
  split; [rewrite Hf; unfold s1; simpl; lia|].
  split; [simpl; now rewrite Hlen|]. lia.
Qed.

End LoopFacts.

(** ** Before the loop *)

Section PrepareFacts.

Context `{Platform} (env : Env) (this : HttpClient).

Lemma or_TypeError_state {A} (message : string) (o : option A) (s : State) :
  snd (or_TypeError message o s) = s.
Proof. destruct o; reflexivity. Qed.

Lemma or_TypeError_Ok {A} (message : string) (o : option A) (s s' : State) (a : A) :
  or_TypeError message o s = (Ok a, s') -> o = Some a /\ s' = s.
Proof. destruct o; simpl; intros [= ]; subst; auto. Qed.

Lemma quiet_ret {A} (a : A) : quiet (ret a).
Proof. intros s. reflexivity. Qed.

Lemma quiet_gets {A} (f : State -> A) : quiet (gets f).
Proof. intros s. reflexivity. Qed.

Lemma quiet_or_TypeError {A} (message : string) (o : option A) :
  quiet (or_TypeError message o).
Proof. intros s. apply or_TypeError_state. Qed.

Lemma completion_Ok {A} (r : result A) (s s' : State) (a : A) :
  completion r s = (Ok a, s') -> r = Ok a /\ s' = s.
Proof. destruct r; simpl; intros [= ]; subst; auto. Qed.

Lemma quiet_completion {A} (r : result A) : quiet (completion r).
Proof. intros s. now destruct r. Qed.

Lemma quiet_bind {A B} (m : M A) (k : A -> M B) :
  quiet m -> (forall a, quiet (k a)) -> quiet (bind m k).
Proof.
  intros Hm Hk s. unfold bind. specialize (Hm s).
  destruct (m s) as [[a|e] s1]; simpl in *; subst; [apply Hk | reflexivity].
Qed.

Lemma quiet_issues {A} (m : M A) : quiet m -> issues_at_most_one env m.
Proof. intros Hm s. left. apply Hm. Qed.

Lemma issues_bind_l {A B} (m : M A) (k : A -> M B) :
  issues_at_most_one env m -> (forall a, quiet (k a)) ->
  issues_at_most_one env (bind m k).
Proof.
  intros Hm Hk s. unfold bind. specialize (Hm s).
  destruct (m s) as [[a|e] s1]; simpl in *; [|exact Hm].
  now rewrite Hk.
Qed.

Lemma issues_bind_r {A B} (m : M A) (k : A -> M B) :
  quiet m -> (forall a, issues_at_most_one env (k a)) ->
  issues_at_most_one env (bind m k).
Proof.
  intros Hm Hk s. unfold bind. specialize (Hm s).
  destruct (m s) as [[a|e] s1]; simpl in *; subst; [apply Hk | now left].
Qed.

Lemma issues_randomUUID : issues_at_most_one env (randomUUID env).
Proof. intros s. now right. Qed.

Lemma quiet_buildUrl (path : string) (query : option (list (string * QueryValue))) :
  quiet (buildUrl this path query).
Proof.
  apply quiet_bind; [apply quiet_or_TypeError|]. intros url. apply quiet_ret.
Qed.

(** Header construction draws at most one identifier and does nothing else
    to the state. *)
Lemma issues_buildHeaders (init : RequestInitEx) :
  issues_at_most_one env (buildHeaders env this init).
Proof.
  unfold buildHeaders.
  apply issues_bind_r; [apply quiet_gets|]. intros defaults.
  apply issues_bind_r; [apply quiet_or_TypeError|]. intros hdrs0.
  apply issues_bind_l.
  - destruct (negb _); [|apply quiet_issues, quiet_ret].
    apply issues_bind_l; [apply issues_randomUUID|].
    intros id. apply quiet_or_TypeError.
  - intros hdrs1. apply quiet_bind.
    + destruct (init_authToken init) as [token|]; [|apply quiet_ret].
      destruct (negb _); [apply quiet_or_TypeError | apply quiet_ret].
    + intros hdrs2. apply quiet_bind; [|intros; apply quiet_ret].
      destruct (_ && _); [apply quiet_or_TypeError | apply quiet_ret].
Qed.

(** So do the three steps before the loop, taken together. *)
Lemma issues_prepare (path : string) (init : RequestInitEx) :
  issues_at_most_one env (prepare env this path init).
Proof.
  unfold prepare.
  apply issues_bind_r; [apply quiet_buildUrl|]. intros url.
  apply issues_bind_l; [apply issues_buildHeaders|]. intros hdrs.
  apply quiet_bind; [|intros; apply quiet_ret].
  destruct (init_json init); [apply quiet_completion | apply quiet_ret].
Qed.

End PrepareFacts.

(** ** The whole call *)

Section RequestFacts.

Context `{Platform} (env : Env) (this : HttpClient).

Lemma Set_has_heap (s s' : State) (ref : nat) (x : Z) :
  heap s' = heap s -> Set_has s' ref x = Set_has s ref x.
Proof. unfold Set_has. now intros ->. Qed.

Lemma maxAttempts_of_pos : 1 <= maxAttempts_of this.
Proof. unfold maxAttempts_of. lia. Qed.

(** [request] is the preparation followed by the loop. *)
Lemma request_unfold (method : HttpMethod) (path : string)
    (init : option RequestInitEx) (s s1 : State)
    (url : string) (hdrs : Headers.t) (body : option string) :
  prepare env this path (default empty_init init) s = (Ok (url, hdrs, body), s1) ->
  request env this method path init s
  = (settled_of (fst (request_loop env this method url hdrs body
                        (default empty_init init) s1)),
     snd (request_loop env this method url hdrs body (default empty_init init) s1)).
Proof.
  intros Hprep. unfold request. cbv zeta. rewrite Hprep.
  destruct (request_loop _ _ _ _ _ _ _ _) as [[] s2]; reflexivity.
Qed.

Lemma request_unprepared (method : HttpMethod) (path : string)
    (init : option RequestInitEx) (s s1 : State) (e : JsError) :
  prepare env this path (default empty_init init) s = (Throw e, s1) ->
  request env this method path init s = (Rejected e, s1).
Proof. intros Hprep. unfold request. cbv zeta. now rewrite Hprep. Qed.

(** The preparation touches neither the heap, nor the timers, nor the
    transport, and appends at most one [randomUUID()] to the trace. *)
Lemma prepare_frame (path : string) (init : RequestInitEx) (s : State) :
  let s1 := snd (prepare env this path init s) in
  heap s1 = heap s /\ armed s1 = armed s /\ fetched s1 = fetched s /\
  next_handle s1 = next_handle s /\
  (issued s <= issued s1 <= S (issued s))%nat /\
  exists evs, trace s1 = trace s ++ evs /\ fetch_count evs = O
              /\ acquired evs = [] /\ released evs = []
              /\ length evs = (issued s1 - issued s)%nat.
Proof.
  cbv zeta. destruct (issues_prepare env this path init s) as [-> | ->].
  - repeat split; try lia. exists []. rewrite app_nil_r, Nat.sub_diag. now repeat split.
  - simpl. repeat split; try lia. exists [EvRandomUUID (uuid env (issued s))].
    repeat split. simpl. lia.
Qed.

Section Loop.

Context (method : HttpMethod) (url : string) (hdrs : Headers.t)
        (body : option string) (init : RequestInitEx) (maxAttempts : Z).

(** When every attempt but the last continues, the loop makes all its
    attempts and ends as the last one does. *)
Lemma attempts_run_to_last (k : nat) :
  forall (attempt : Z) (lastError : option JsError) (s : State) (fuel : nat),
    maxAttempts - attempt = Z.of_nat (S k) ->
    (k < fuel)%nat ->
    (forall (j : nat) (lastError' : option JsError),
        (j < k)%nat ->
        continues (verdict this s maxAttempts (attempt + Z.of_nat j) lastError'
                     (transport env (fetched s + j))) = true) ->
    exists (lastError' : option JsError) (s' : State),
      attempts env this fuel method url hdrs body init maxAttempts attempt lastError s
      = (loop_result_of (verdict this s maxAttempts (maxAttempts - 1) lastError'
                           (transport env (fetched s + k))), s')
      /\ fetched s' = (fetched s + S k)%nat.
Proof.
  induction k as [|k IH]; intros attempt lastError s fuel Hrem Hfuel Hcont.
  - destruct fuel as [|fuel]; [lia|].
    rewrite attempts_step by lia. cbv zeta.
    replace (maxAttempts - 1) with attempt by lia. rewrite Nat.add_0_r.
    assert (Hlast : continues (verdict this s maxAttempts attempt lastError
                                 (transport env (fetched s))) = false).
    { destruct (continues _) eqn:Hc; [|reflexivity].
      apply verdict_continues in Hc. lia. }
    rewrite Hlast.
    exists lastError,
      (after_attempt env this s method url hdrs body init attempt false).
    split; [|simpl; lia].
    destruct (verdict _ _ _ _ _ _) as [[lastError'|response]|error];
      [discriminate | reflexivity..].
  - destruct fuel as [|fuel]; [lia|].
    rewrite attempts_step by lia. cbv zeta.
    generalize (Hcont O lastError ltac:(lia)). rewrite Z.add_0_r, Nat.add_0_r.
    destruct (verdict _ _ _ _ _ _) as [[lastError1|]|]; try discriminate. intros _.
    cbn [continues].
    set (s1 := after_attempt env this s method url hdrs body init attempt true).
    destruct (IH (attempt + 1) lastError1 s1 fuel) as (lastError' & s' & Hrun & Hf).
    + lia.
    + lia.
    + intros j lastError' Hj.
      rewrite (verdict_heap this maxAttempts s s1) by reflexivity.
      replace (attempt + 1 + Z.of_nat j) with (attempt + Z.of_nat (S j)) by lia.
      replace (fetched s1 + j)%nat with (fetched s + S j)%nat by (simpl; lia).
      apply Hcont. lia.
    + exists lastError', s'. split.
      * rewrite Hrun. rewrite (verdict_heap this maxAttempts s s1) by reflexivity.
        replace (fetched s1 + k)%nat with (fetched s + S k)%nat by (simpl; lia).
        reflexivity.
      * rewrite Hf. simpl. lia.
Qed.

End Loop.

End RequestFacts.

Section CountingFacts.

Context `{Platform} (env : Env) (this : HttpClient).

(** The calls to [fetch] made by one [request]. *)
Lemma request_fetches (method : HttpMethod) (path : string)
    (init : option RequestInitEx) (s : State) :
  let s' := snd (request env this method path init s) in
  (fetched s <= fetched s' <= fetched s + Z.to_nat (maxAttempts_of this))%nat.
Proof.
  cbv zeta.
  pose proof (prepare_frame env this path (default empty_init init) s) as Hframe.
  cbv zeta in Hframe. destruct Hframe as (_ & _ & Hf & _).
  destruct (prepare env this path (default empty_init init) s)
    as [[[[url hdrs] body]|e] s1] eqn:Hprep; simpl in Hf.
  - rewrite (request_unfold _ _ _ _ _ _ _ _ _ _ Hprep). cbn [snd].
    unfold request_loop.
    destruct (attempts_effects env this method url hdrs body (default empty_init init)
                (maxAttempts_of this) (S (Z.to_nat (maxAttempts_of this))) 0 None s1)
      as (_ & _ & _ & evs & _ & _ & _ & _ & _ & Hfetched & _ & Hcount).
    rewrite Hfetched, Hf. rewrite Z.sub_0_r in Hcount. lia.
  - rewrite (request_unprepared _ _ _ _ _ _ _ _ Hprep). simpl. lia.
Qed.

End CountingFacts.

Section TryFacts.

Context `{Platform} (env : Env) (this : HttpClient).

(** The [try] block throws the status error when the response is neither
    retried nor ok. *)
Lemma try_block_status_error (method : HttpMethod) (url : string) (hdrs : Headers.t)
    (body : option string) (init : RequestInitEx) (maxAttempts attempt : Z)
    (lastError : option JsError) (timeout : nat) (s : State)
    (response : FetchResponse) (data_ : Data) :
  transport env (fetched s) = Resolved response ->
  shouldRetry this s (fr_status response) attempt maxAttempts = false ->
  parse_result response = Ok data_ ->
  fr_ok response = false ->
  fst (try_block env this method url hdrs body init maxAttempts attempt lastError
         timeout s) = Throw (status_error response data_).
Proof.
  intros Htr Hretry Hparse Hok.
  unfold try_block, bind at 1, fetch. rewrite Htr.
  unfold bind at 1, gets. rewrite (shouldRetry_heap this s) by reflexivity.
  rewrite Hretry. unfold bind. rewrite parseResponse_pure, Hparse, Hok. reflexivity.
Qed.

End TryFacts.

Section ListFacts.

Context `{Platform} (env : Env) (this : HttpClient).

Lemma count_occ_NoDup (l : list nat) (x : nat) :
  NoDup l -> In x l -> count_occ Nat.eq_dec l x = 1%nat.
Proof.
  intros Hnd Hin. apply NoDup_ListNoDup in Hnd.
  rewrite (List.NoDup_count_occ' Nat.eq_dec) in Hnd. now apply Hnd.
Qed.

End ListFacts.

Section BuildFacts.

Context `{Platform} (env : Env).

Lemma backoff_maxDelay_bounds (attempt : Z) :
  0 <= backoff_maxDelay attempt <= 4000.
Proof.
  unfold backoff_maxDelay. cbv zeta.
  pose proof (Z.pow_nonneg 2 attempt ltac:(lia)). lia.
Qed.

Lemma backoff_delay_bounds (attempt : Z) (r : Rand) :
  in_unit_interval r -> is_binary64 r = true ->
  0 <= backoff_delay attempt r <= backoff_maxDelay attempt.
Proof.
  unfold in_unit_interval, backoff_delay. intros Hunit Hr.
  pose proof (backoff_maxDelay_bounds attempt) as [Hlo _].
  pose proof (floor_of_product_bounds (rnd_num r) (rnd_den r)
                (backoff_maxDelay attempt + 1) Hunit
                (is_binary64_mantissa r Hr) ltac:(lia)).
  lia.
Qed.

(** The rounding of the product can lift the delay over the floor of the
    exact product. *)
Lemma backoff_delay_rounds :
  backoff_delay 4 {| rnd_num := 6593222437791; rnd_den := 2 ^ 43 |} = 2999
  /\ 6593222437791 * (backoff_maxDelay 4 + 1) / 2 ^ 43 = 2998.
Proof. vm_compute. split; reflexivity. Qed.

(** The constructor never throws. *)
Lemma constructor_spec (options : HTTPClientOptions) (s : State) :
  exists this s',
    constructor options s = (Ok this, s')
    /\ baseUrl this = Str.strip_trailing_slashes (opt_baseUrl options)
    /\ retries this = default 2 (opt_retries options)
    /\ defaultTimeoutMs this = default 5000 (opt_defaultTimeoutMs options).
Proof.
  unfold constructor, bind, Set_new, bind, gets, alloc, ret.
  destruct (opt_defaultHeaders options), (opt_retryStatuses options);
    eexists; eexists; (split; [reflexivity|]); simpl; auto.
Qed.

Lemma constructor_baseUrl (options : HTTPClientOptions) (s s' : State)
    (this : HttpClient) :
  constructor options s = (Ok this, s') ->
  baseUrl this = Str.strip_trailing_slashes (opt_baseUrl options).
Proof.
  destruct (constructor_spec options s) as (this' & s'' & -> & Hbase & _).
  now intros [= <- _].
Qed.

Lemma query_params_acc (query : list (string * QueryValue)) (acc : URLSearchParams.t) :
  fold_left
    (fun params entry =>
       match snd entry with
       | QUndefined => params
       | value => URLSearchParams.append params (fst entry) (String_of value)
       end) query acc
  = acc ++ List.map (fun entry => (fst entry, String_of (snd entry)))
             (List.filter (fun entry => is_defined (snd entry)) query).
Proof.
  revert acc. induction query as [|[key value] query IH]; intros acc; simpl.
  - now rewrite app_nil_r.
  - rewrite IH. destruct value; simpl; unfold URLSearchParams.append;
      now rewrite <- ?app_assoc.
Qed.

End BuildFacts.

Section HeaderSteps.

Context `{Platform} (env : Env) (this : HttpClient).

Lemma bind_Ok {A B} (m : M A) (k : A -> M B) (s s' : State) (b : B) :
  bind m k s = (Ok b, s') ->
  exists a s1, m s = (Ok a, s1) /\ k a s1 = (Ok b, s').
Proof.
  unfold bind. destruct (m s) as [[a|e] s1]; [|discriminate].
  intros Hk. now exists a, s1.
Qed.

Lemma ret_Ok {A} (a b : A) (s s' : State) :
  ret a s = (Ok b, s') -> b = a /\ s' = s.
Proof. unfold ret. intros Heq. split; congruence. Qed.

(** The four steps of a successful header construction, and the state it
    leaves. *)
Lemma buildHeaders_Ok (init : RequestInitEx) (s s' : State) (hdrs : Headers.t) :
  buildHeaders env this init s = (Ok hdrs, s') ->
  exists hdrs0 hdrs1 hdrs2,
    Headers.of_record
      (Record.spread (read_record s (defaultHeaders this))
         (default [] (init_headers init))) [] = Some hdrs0
    /\ (if Headers.has hdrs0 "x-request-id" then hdrs1 = hdrs0 /\ s' = s
        else Headers.set hdrs0 "x-request-id" (uuid env (issued s)) = Some hdrs1
             /\ s' = log (EvRandomUUID (uuid env (issued s)))
                       (with_issued (S (issued s)) s))
    /\ match init_authToken init with
       | Some token =>
           if String.eqb token "" then hdrs2 = hdrs1
           else Headers.set hdrs1 "Authorization" ("Bearer " +:+ token) = Some hdrs2
       | None => hdrs2 = hdrs1
       end
    /\ (if bool_decide (is_Some (init_json init)) && negb (Headers.has hdrs2 "Content-Type")
        then Headers.set hdrs2 "Content-Type" "application/json" = Some hdrs
        else hdrs = hdrs2).
Proof.
  unfold buildHeaders. intros Hrun.
  apply bind_Ok in Hrun as (defaults & s1 & [= <- <-] & Hrun).
  apply bind_Ok in Hrun as (hdrs0 & s2 & Hrec & Hrun).
  apply or_TypeError_Ok in Hrec as [Hrec ->].
  apply bind_Ok in Hrun as (hdrs1 & s3 & Hid & Hrun).
  apply bind_Ok in Hrun as (hdrs2 & s4 & Hauth & Hrun).
  apply bind_Ok in Hrun as (hdrs3 & s5 & Hct & [= <- <-]).
  assert (Hs4 : s4 = s3).
  { revert Hauth. destruct (init_authToken init) as [token|]; [|intros Hret; now apply ret_Ok in Hret].
    destruct (String.eqb token ""); cbn [negb];
      [intros Hret; now apply ret_Ok in Hret|].
    intros Hauth. now apply or_TypeError_Ok in Hauth. }
  assert (Hs5 : s5 = s4).
  { revert Hct. destruct (_ && _); [|intros Hret; now apply ret_Ok in Hret].
    intros Hct. now apply or_TypeError_Ok in Hct. }
  subst s5 s4.
  exists hdrs0, hdrs1, hdrs2. split; [exact Hrec|]. split; [|split].
  - destruct (Headers.has hdrs0 "x-request-id"); cbn [negb] in Hid.
    + now apply ret_Ok in Hid.
    + apply bind_Ok in Hid as (id & s6 & [= <- <-] & Hid).
      apply or_TypeError_Ok in Hid as [Hid ->]. now split.
  - destruct (init_authToken init) as [token|]; [|now apply ret_Ok in Hauth].
    destruct (String.eqb token ""); cbn [negb] in Hauth;
      [now apply ret_Ok in Hauth|].
    now apply or_TypeError_Ok in Hauth.
  - destruct (_ && _); [|now apply ret_Ok in Hct].
    now apply or_TypeError_Ok in Hct.
Qed.

End HeaderSteps.

Section HeaderFacts.

Context `{Platform} (env : Env) (this : HttpClient).

Lemma normalize_bearer (token : string) :
  token <> "" ->
  Str.strip_suffix Headers.is_http_whitespace token = token ->
  Headers.normalize ("Bearer " +:+ token) = "Bearer " +:+ token.
Proof.
  intros Hne Hstrip. unfold Headers.normalize.
  change (Str.strip_prefix Headers.is_http_whitespace ("Bearer " +:+ token))
    with ("Bearer " +:+ token).
  rewrite strip_suffix_app; rewrite Hstrip; [reflexivity | exact Hne].
Qed.

Lemma has_get (hdrs : Headers.t) (name : string) :
  Headers.has hdrs name = true -> Headers.get hdrs name <> None.
Proof.
  unfold Headers.has, Headers.get.
  induction hdrs as [|h hdrs IH]; simpl; [discriminate|].
  destruct (Headers.same_name name h); simpl; [discriminate|]. exact IH.
Qed.

(** Built headers hold a request id: the one supplied, or else the one
    drawn. *)
Lemma buildHeaders_request_id (init : RequestInitEx) (s s' : State)
    (hdrs : Headers.t) :
  buildHeaders env this init s = (Ok hdrs, s') ->
  Headers.get hdrs "x-request-id" <> None
  /\ (issued s' <> issued s ->
      Headers.get hdrs "x-request-id" = Some (Headers.normalize (uuid env (issued s)))).
Proof.
  intros Hrun.
  apply buildHeaders_Ok in Hrun as (hdrs0 & hdrs1 & hdrs2 & _ & Hid & Hauth & Hct).
  assert (H2 : Headers.get hdrs2 "x-request-id" = Headers.get hdrs1 "x-request-id").
  { destruct (init_authToken init) as [token|]; [|now subst].
    destruct (String.eqb token ""); [now subst|].
    eapply get_set_other; [|exact Hauth]. discriminate. }
  assert (H3 : Headers.get hdrs "x-request-id" = Headers.get hdrs1 "x-request-id").
  { rewrite <- H2. destruct (_ && _); [|now subst].
    eapply get_set_other; [|exact Hct]. discriminate. }
  rewrite H3. destruct (Headers.has hdrs0 "x-request-id") eqn:Hhas.
  - destruct Hid as [-> ->]. split; [now apply has_get | congruence].
  - destruct Hid as [Hset ->]. apply get_set_same in Hset. rewrite Hset.
    split; [discriminate | reflexivity].
Qed.

(** The headers of a prepared call are those of [buildHeaders], run in the
    state the call starts in. *)
Lemma prepare_Ok (path : string) (init : RequestInitEx) (s s1 : State)
    (url : string) (hdrs : Headers.t) (body : option string) :
  prepare env this path init s = (Ok (url, hdrs, body), s1) ->
  buildHeaders env this init s = (Ok hdrs, s1).
Proof.
  unfold prepare. intros Hrun.
  apply bind_Ok in Hrun as (url' & s2 & Hurl & Hrun).
  pose proof (quiet_buildUrl this path (init_query init) s) as Hquiet.
  rewrite Hurl in Hquiet. cbn [snd] in Hquiet. subst s2.
  apply bind_Ok in Hrun as (hdrs' & s3 & Hhdrs & Hrun).
  apply bind_Ok in Hrun as (body' & s4 & Hbody & Hrun).
  apply ret_Ok in Hrun as [[= -> -> ->] ->].
  assert (Hs4 : s4 = s3).
  { revert Hbody. destruct (init_json init); intros Hbody.
    - now apply completion_Ok in Hbody.
    - now apply ret_Ok in Hbody. }
  now subst s4.
Qed.

End HeaderFacts.

Section HeapFacts.

Context `{Platform}.

(** No call changes the heap. *)
Lemma request_heap (env : Env) (this : HttpClient) (method : HttpMethod)
    (path : string) (init : option RequestInitEx) (s : State) :
  heap (snd (request env this method path init s)) = heap s.
Proof.
  pose proof (prepare_frame env this path (default empty_init init) s) as Hframe.
  cbv zeta in Hframe. destruct Hframe as (Hheap & _).
  destruct (prepare env this path (default empty_init init) s)
    as [[[[url hdrs] body]|e] s1] eqn:Hprep; cbn [snd] in Hheap.
  - rewrite (request_unfold _ _ _ _ _ _ _ _ _ _ Hprep). cbn [snd].
    unfold request_loop.
    destruct (attempts_effects env this method url hdrs body (default empty_init init)
                (maxAttempts_of this) (S (Z.to_nat (maxAttempts_of this))) 0 None s1)
      as (Hheap' & _).
    congruence.
  - now rewrite (request_unprepared _ _ _ _ _ _ _ _ Hprep).
Qed.

Lemma lookup_array_after_record (h : list Cell) (props : Record.t) (ref : nat) :
  match (h ++ [ObjRecord props]) !! ref with
  | Some (ObjArray items) => items
  | _ => []
  end
  = match h !! ref with
    | Some (ObjArray items) => items
    | _ => []
    end.
Proof.
  destruct (Nat.lt_ge_cases ref (length h)) as [Hlt|Hge].
  - now rewrite lookup_app_l.
  - rewrite lookup_app_r by exact Hge. rewrite (lookup_ge_None_2 h ref) by exact Hge.
    destruct (ref - length h)%nat as [|n]; [reflexivity|]. now destruct n.
Qed.

Lemma existsb_Set_add_all_acc (x : Z) (items members : list Z) :
  existsb (Z.eqb x) (Set_add_all members items)
  = existsb (Z.eqb x) members || existsb (Z.eqb x) items.
Proof.
  revert members. induction items as [|y items IH]; intros members; simpl.
  - now rewrite orb_false_r.
  - rewrite IH. destruct (existsb (Z.eqb y) members) eqn:Hy.
    + destruct (Z.eqb x y) eqn:Hxy; [|reflexivity].
      apply Z.eqb_eq in Hxy. subst y. rewrite Hy. reflexivity.
    + rewrite existsb_app. simpl. rewrite orb_false_r. now rewrite orb_assoc.
Qed.

(** The set built from an array has the elements of the array. *)
Lemma existsb_Set_add_all (x : Z) (items : list Z) :
  existsb (Z.eqb x) (Set_add_all [] items) = existsb (Z.eqb x) items.
Proof. now rewrite existsb_Set_add_all_acc. Qed.

(** The heap after construction: the heap before it, followed by the
    objects the constructor creates, the last of which is the retry set. *)
Lemma constructor_heap (options : HTTPClientOptions) (s0 s : State)
    (this : HttpClient) :
  constructor options s0 = (Ok this, s) ->
  let statuses := match opt_retryStatuses options with
                  | Some ref => read_array s0 ref
                  | None => [408; 429; 502; 503; 504]
                  end in
  exists created,
    heap s = heap s0 ++ created ++ [ObjSet (Set_add_all [] statuses)]
    /\ retryStatuses this = (length (heap s0) + length created)%nat
    /\ match opt_defaultHeaders options with
       | Some ref => defaultHeaders this = ref
       | None => defaultHeaders this = length (heap s0)
                 /\ exists rest, created = ObjRecord [] :: rest
       end.
Proof.
  unfold constructor, bind, Set_new, bind, gets, alloc, ret, read_array. cbv zeta.
  destruct (opt_defaultHeaders options) as [dh|], (opt_retryStatuses options) as [rs|];
    cbn; intros [= <- <-]; cbn.
  - exists []. rewrite Nat.add_0_r. now repeat split.
  - exists [ObjArray [408; 429; 502; 503; 504]].
    rewrite lookup_app_r, Nat.sub_diag by lia. cbn.
    rewrite <- app_assoc, length_app. now repeat split.
  - exists [ObjRecord []]. rewrite lookup_array_after_record.
    rewrite <- app_assoc, length_app. cbn.
    split; [reflexivity|]. split; [reflexivity|]. split; [reflexivity|]. now exists [].
  - exists [ObjRecord []; ObjArray [408; 429; 502; 503; 504]].
    rewrite lookup_app_r; rewrite length_app; cbn; [|lia].
    replace (length (heap s0) + 1 - (length (heap s0) + 1))%nat with O by lia. cbn.
    rewrite <- !app_assoc, length_app. cbn.
    split; [reflexivity|]. split; [lia|]. split; [reflexivity|]. now eexists.
Qed.

End HeapFacts.

(** * The claims *)

Example users_constructed :
  constructor Examples.users_options Examples.fresh
  = (Ok Examples.users, Examples.started).
Proof. reflexivity. Qed.

(** ** Terminal status errors *)

(** C1, counterexample.  The retry statuses are [503] only and one retry is
    allowed.  The first response is a 408: the [try] block throws the
    status error, the [catch] block takes it for a timeout, the attempt
    continues, and the caller receives the second response. *)
Lemma status_error_408_retried :
  let client := Examples.caller_client 1 in
  let s := Examples.constructed [503] [] in
  let env := Examples.timeout_then_ok in
  let hdrs := [("x-request-id", Examples.request_id)] in
  let error := status_error (Examples.reply 408 "Request Timeout" "") (DText "") in
  constructor (Examples.caller_options 1) (Examples.caller_state [503] [])
  = (Ok client, s)
  /\ fr_ok (Examples.reply 408 "Request Timeout" "") = false
  /\ shouldRetry client s 408 0 (maxAttempts_of client) = false
  /\ fst (try_block env client GET "https://x.test/x" hdrs None empty_init
            (maxAttempts_of client) 0 None 0%nat s) = Throw error
  /\ fst (attempt_body env client GET "https://x.test/x" hdrs None empty_init
            (maxAttempts_of client) 0 None s) = Ok (Continue (Some error))
  /\ fst (request env client GET "/x" None s)
     = Fulfilled {| data := DText "done"; status := 200;
                    headers := [("content-type", "text/plain")] |}
  /\ fetched (snd (request env client GET "/x" None s)) = 2%nat.
Proof. vm_compute. repeat split. Qed.

Section C1.

Context `{JsValues} (env : Env) (this : HttpClient).

(** C1, as amended.  A status error thrown by the [try] block for a
    response that is not ok goes through the [catch] block like any other
    error.  It ends the call, and is the very error the caller receives,
    when its status is not 408 or when no attempt remains; with status 408
    and an attempt remaining it is retried. *)
Theorem status_error_terminal_unless_408 (method : HttpMethod) (url : string)
    (hdrs : Headers.t) (body : option string) (init : RequestInitEx)
    (maxAttempts attempt : Z) (lastError : option JsError) (fuel : nat)
    (s : State) (response : FetchResponse) (data_ : Data) :
  attempt < maxAttempts ->
  transport env (fetched s) = Resolved response ->
  shouldRetry this s (fr_status response) attempt maxAttempts = false ->
  parse_result response = Ok data_ ->
  fr_ok response = false ->
  let error := status_error response data_ in
  let run := attempts env this (S fuel) method url hdrs body init maxAttempts
               attempt lastError s in
  (forall timeout,
      fst (try_block env this method url hdrs body init maxAttempts attempt
             lastError timeout s) = Throw error)
  /\ (fr_status response <> 408 \/ maxAttempts - 1 <= attempt ->
      fst run = Raised error /\ fetched (snd run) = S (fetched s))
  /\ (fr_status response = 408 /\ attempt < maxAttempts - 1 ->
      fst (attempt_body env this method url hdrs body init maxAttempts attempt
             lastError s) = Ok (Continue (Some error))).
Proof.
  intros Hlt Htr Hretry Hparse Hok. cbv zeta.
  split; [|split].
  - intros timeout. now apply try_block_status_error.
  - intros Hterm. rewrite attempts_step by exact Hlt. cbv zeta.
    assert (Hv : verdict this s maxAttempts attempt lastError (transport env (fetched s))
                 = Throw (status_error response data_)).
    { unfold verdict. rewrite Htr, Hretry, Hparse, Hok. simpl.
      unfold caught, shouldRetryError, isNetworkError. simpl.
      destruct Hterm as [Hne | Hlast].
      - rewrite (bool_decide_eq_false_2 (Some (fr_status response) = Some 408))
          by congruence.
        now rewrite andb_false_r.
      - replace (attempt <? maxAttempts - 1) with false
          by (symmetry; apply Z.ltb_ge; lia).
        reflexivity. }
    rewrite Hv. split; reflexivity.
  - intros [H408 Hmore]. rewrite attempt_body_spec. cbv zeta. cbn [fst].
    unfold verdict. rewrite Htr, Hretry, Hparse, Hok. simpl.
    unfold caught, shouldRetryError. simpl. rewrite H408.
    replace (attempt <? maxAttempts - 1) with true
      by (symmetry; apply Z.ltb_lt; lia).
    reflexivity.
Qed.

End C1.

Lemma status_error_terminal_unless_408_witness :
  let client := Examples.users in
  let s := Examples.started in
  let response := Examples.reply 500 "Internal Server Error" "oops" in
  let env := Examples.always (Resolved response) in
  let error := status_error response (DText "oops") in
  let run := attempts env client 4 GET "https://x.test/x" [] None empty_init 3 0 None s in
  (0 < 3
   /\ transport env (fetched s) = Resolved response
   /\ shouldRetry client s (fr_status response) 0 3 = false
   /\ parse_result response = Ok (DText "oops")
   /\ fr_ok response = false)
  /\ (forall timeout,
       fst (try_block env client GET "https://x.test/x" [] None empty_init 3 0 None
              timeout s) = Throw error)
  /\ fst run = Raised error /\ fetched (snd run) = 1%nat.
Proof.
  cbv zeta.
  assert (Hhyp : 0 < 3
   /\ transport (Examples.always (Resolved (Examples.reply 500 "Internal Server Error" "oops")))
        (fetched Examples.started)
      = Resolved (Examples.reply 500 "Internal Server Error" "oops")
   /\ shouldRetry Examples.users Examples.started
        (fr_status (Examples.reply 500 "Internal Server Error" "oops")) 0 3 = false
   /\ parse_result (Examples.reply 500 "Internal Server Error" "oops") = Ok (DText "oops")
   /\ fr_ok (Examples.reply 500 "Internal Server Error" "oops") = false).
  { split; [lia|]. repeat split. }
  split; [exact Hhyp|].
  destruct Hhyp as (H1 & H2 & H3 & H4 & H5).
  destruct (status_error_terminal_unless_408
              (Examples.always (Resolved (Examples.reply 500 "Internal Server Error" "oops")))
              Examples.users GET "https://x.test/x" [] None empty_init 3 0 None 3
              Examples.started (Examples.reply 500 "Internal Server Error" "oops")
              (DText "oops") H1 H2 H3 H4 H5) as (Htry & Hterm & _).
  split; [exact Htry|]. apply Hterm. left. vm_compute. discriminate.
Defined.

(** ** What the constructor stores *)

(** C2, counterexample.  The caller builds a client with its own header
    record and changes that record afterwards: the headers the client then
    sends have changed with it. *)
Lemma default_headers_shared_with_caller :
  let client := Examples.caller_client 2 in
  let s := Examples.constructed [503] [("X-Env", "prod")] in
  let s' := assign_property 1 "X-Env" "test" s in
  let env := Examples.always (Failed Examples.abort_error) in
  constructor (Examples.caller_options 2) (Examples.caller_state [503] [("X-Env", "prod")])
  = (Ok client, s)
  /\ read_record s (defaultHeaders client) = [("X-Env", "prod")]
  /\ read_record s' (defaultHeaders client) = [("X-Env", "test")]
  /\ fst (buildHeaders env client empty_init s)
     = Ok [("x-env", "prod"); ("x-request-id", Examples.request_id)]
  /\ fst (buildHeaders env client empty_init s')
     = Ok [("x-env", "test"); ("x-request-id", Examples.request_id)].
Proof. vm_compute. repeat split. Qed.

Section C2.

Context `{Platform}.

(** C2, as amended.  The constructor keeps the base URL without its
    trailing slashes and the two numbers as values, and copies the retry
    statuses into a set of its own, a new object; the objects of the caller
    are left as they were.  The default headers are kept by reference: the
    client holds the caller's object itself (a new empty record when none
    is given).  Afterwards no call changes the heap, hence no object the
    client refers to, and a later change of the caller's status array does
    not change the retry set. *)
Theorem constructor_stores_values_and_header_reference
    (options : HTTPClientOptions) (s0 s : State) (this : HttpClient) :
  constructor options s0 = (Ok this, s) ->
  (forall ref, opt_retryStatuses options = Some ref -> (ref < length (heap s0))%nat) ->
  let statuses := match opt_retryStatuses options with
                  | Some ref => read_array s0 ref
                  | None => [408; 429; 502; 503; 504]
                  end in
  (baseUrl this = Str.strip_trailing_slashes (opt_baseUrl options)
   /\ retries this = default 2 (opt_retries options)
   /\ defaultTimeoutMs this = default 5000 (opt_defaultTimeoutMs options))
  /\ ((length (heap s0) <= retryStatuses this)%nat
      /\ heap s !! retryStatuses this = Some (ObjSet (Set_add_all [] statuses))
      /\ forall status, Set_has s (retryStatuses this) status
                        = existsb (Z.eqb status) statuses)
  /\ (forall ref, (ref < length (heap s0))%nat -> heap s !! ref = heap s0 !! ref)
  /\ match opt_defaultHeaders options with
     | Some ref => defaultHeaders this = ref
     | None => (length (heap s0) <= defaultHeaders this)%nat
               /\ read_record s (defaultHeaders this) = []
     end
  /\ (forall ref x status,
        opt_retryStatuses options = Some ref ->
        Set_has (array_push ref x s) (retryStatuses this) status
        = Set_has s (retryStatuses this) status)
  /\ (forall env method path init s1,
        heap (snd (request env this method path init s1)) = heap s1).
Proof.
  intros Hnew Hlive. cbv zeta.
  destruct (constructor_spec options s0) as (this' & s' & Hnew' & Hbase & Hret & Htime).
  rewrite Hnew in Hnew'. injection Hnew' as <- <-.
  destruct (constructor_heap options s0 s this Hnew) as (created & Hheap & Hset & Hdh).
  cbv zeta in Hheap.
  assert (Hlookup : heap s !! retryStatuses this
                    = Some (ObjSet (Set_add_all []
                        match opt_retryStatuses options with
                        | Some ref => read_array s0 ref
                        | None => [408; 429; 502; 503; 504]
                        end))).
  { rewrite Hheap, Hset, app_assoc, lookup_app_r; rewrite length_app; [|lia].
    now rewrite Nat.sub_diag. }
  split; [now repeat split|]. split; [|split; [|split; [|split]]].
  - split; [lia|]. split; [exact Hlookup|].
    intros status. unfold Set_has. rewrite Hlookup. apply existsb_Set_add_all.
  - intros ref Href. rewrite Hheap. now apply lookup_app_l.
  - destruct (opt_defaultHeaders options) as [ref|]; [exact Hdh|].
    destruct Hdh as (Hdh & rest & ->). split; [lia|].
    unfold read_record. rewrite Hheap, Hdh, lookup_app_r, Nat.sub_diag by lia.
    reflexivity.
  - intros ref x status Href. apply Hlive in Href.
    unfold Set_has, array_push, with_heap. cbn [heap].
    rewrite list_lookup_insert_ne by lia. reflexivity.
  - intros. apply request_heap.
Qed.

End C2.

Lemma constructor_stores_values_and_header_reference_witness :
  let options := Examples.caller_options 2 in
  let s0 := Examples.caller_state [503; 429; 503] [("X-Env", "prod")] in
  let client := Examples.caller_client 2 in
  let s := Examples.constructed [503; 429; 503] [("X-Env", "prod")] in
  (constructor options s0 = (Ok client, s)
   /\ forall ref, opt_retryStatuses options = Some ref -> (ref < length (heap s0))%nat)
  /\ baseUrl client = "https://x.test"
  /\ heap s !! retryStatuses client = Some (ObjSet [503; 429])
  /\ defaultHeaders client = 1%nat
  /\ (forall x status,
        Set_has (array_push 0 x s) (retryStatuses client) status
        = Set_has s (retryStatuses client) status)
  /\ (forall env method path init s1,
        heap (snd (request env client method path init s1)) = heap s1).
Proof.
  cbv zeta.
  assert (Hnew : constructor (Examples.caller_options 2)
                   (Examples.caller_state [503; 429; 503] [("X-Env", "prod")])
                 = (Ok (Examples.caller_client 2),
                    Examples.constructed [503; 429; 503] [("X-Env", "prod")])).
  { reflexivity. }
  assert (Hlive : forall ref,
            opt_retryStatuses (Examples.caller_options 2) = Some ref -> (ref < 2)%nat).
  { intros ref [= <-]. lia. }
  split; [split; [exact Hnew | exact Hlive]|].
  destruct (constructor_stores_values_and_header_reference _ _ _ _ Hnew Hlive)
    as ((Hbase & _) & (_ & Hset & _) & _ & Hdh & Hpush & Hheap).
  split; [exact Hbase|]. split; [exact Hset|]. split; [exact Hdh|].
  split; [|exact Hheap]. intros x status. now apply Hpush.
Defined.

(** ** The bearer token *)

(** C3, counterexample.  The call passes the empty string as its token and
    the default headers hold an [Authorization] value: no bearer header is
    set and the default stays. *)
Lemma empty_token_sets_no_authorization :
  let client := Examples.caller_client 2 in
  let s := Examples.constructed [503] [("Authorization", "Basic abc")] in
  let env := Examples.always (Failed Examples.abort_error) in
  let init := Examples.with_token "" None in
  init_authToken init = Some ""
  /\ fst (buildHeaders env client init s)
     = Ok [("authorization", "Basic abc"); ("x-request-id", Examples.request_id)]
  /\ Headers.get [("authorization", "Basic abc"); ("x-request-id", Examples.request_id)]
       "Authorization" <> Some ("Bearer " +:+ "").
Proof. vm_compute. repeat split. discriminate. Qed.

Section C3.

Context `{JsValues} (env : Env) (this : HttpClient).

(** C3, as amended.  When the call has a bearer token that is not the empty
    string and header construction succeeds, the [Authorization] header of
    the final set has exactly one value, [Bearer <token>] as normalized by
    [Headers.set] (surrounding whitespace removed), whatever the default
    headers and the per-call headers hold under that name; for a token
    without trailing whitespace that value is [Bearer <token>] itself. *)
Theorem bearer_token_sets_authorization (init : RequestInitEx) (s s' : State)
    (hdrs : Headers.t) (token : string) :
  init_authToken init = Some token ->
  token <> "" ->
  buildHeaders env this init s = (Ok hdrs, s') ->
  Headers.get hdrs "Authorization" = Some (Headers.normalize ("Bearer " +:+ token))
  /\ (Str.strip_suffix Headers.is_http_whitespace token = token ->
      Headers.get hdrs "Authorization" = Some ("Bearer " +:+ token)).
Proof.
  intros Htoken Hne Hrun.
  apply buildHeaders_Ok in Hrun as (hdrs0 & hdrs1 & hdrs2 & _ & _ & Hauth & Hct).
  rewrite Htoken in Hauth. apply String.eqb_neq in Hne as Hneb. rewrite Hneb in Hauth.
  apply get_set_same in Hauth.
  assert (Hget : Headers.get hdrs "Authorization"
                 = Some (Headers.normalize ("Bearer " +:+ token))).
  { destruct (_ && _); [|now subst].
    rewrite <- Hauth. eapply get_set_other; [|exact Hct]. discriminate. }
  split; [exact Hget|].
  intros Hstrip. rewrite Hget. now rewrite normalize_bearer.
Qed.

End C3.

Lemma bearer_token_sets_authorization_witness :
  let client := Examples.caller_client 2 in
  let s := Examples.constructed [503] [("Authorization", "Basic abc")] in
  let env := Examples.always (Failed Examples.abort_error) in
  let init := Examples.with_token "tok" (Some [("authorization", "Other")]) in
  let hdrs := [("authorization", "Bearer tok"); ("x-request-id", Examples.request_id)] in
  (init_authToken init = Some "tok"
   /\ "tok" <> ""
   /\ fst (buildHeaders env client init s) = Ok hdrs)
  /\ Headers.get hdrs "Authorization" = Some "Bearer tok".
Proof.
  cbv zeta. split; [split; [reflexivity | split; [discriminate | reflexivity]]|].
  apply (bearer_token_sets_authorization
           (Examples.always (Failed Examples.abort_error)) (Examples.caller_client 2)
           (Examples.with_token "tok" (Some [("authorization", "Other")]))
           (Examples.constructed [503] [("Authorization", "Basic abc")])
           (snd (buildHeaders (Examples.always (Failed Examples.abort_error))
                   (Examples.caller_client 2)
                   (Examples.with_token "tok" (Some [("authorization", "Other")]))
                   (Examples.constructed [503] [("Authorization", "Basic abc")])))
           _ "tok"); [reflexivity | discriminate | reflexivity | reflexivity].
Defined.

(** ** Retry before the ok test *)

(** C4, counterexample.  The retry statuses are [200] only and every
    response is a 200: the call retries twice and then returns the third
    response. *)
Lemma retry_status_200_fulfilled :
  let client := Examples.caller_client 2 in
  let s := Examples.constructed [200] [] in
  let response := Examples.reply 200 "OK" "done" in
  let env := Examples.always (Resolved response) in
  (forall n, transport env n = Resolved response)
  /\ Set_has s (retryStatuses client) (fr_status response) = true
  /\ fst (request env client GET "/x" None s)
     = Fulfilled {| data := DText "done"; status := 200;
                    headers := [("content-type", "text/plain")] |}
  /\ fetched (snd (request env client GET "/x" None s)) = 3%nat.
Proof. vm_compute. repeat split. Qed.

Section C4.

Context `{Platform} (env : Env) (this : HttpClient).

(** C4, as amended.  The retry test comes before the ok test: an attempt
    whose response status is in [retryStatuses] while attempts remain ends
    in a continue, whatever the status.  When every response has a status
    in [retryStatuses], the call makes exactly [max(1, retries + 1)]
    attempts and the last response decides: a status that is not ok gives
    the status error, an ok status gives a fulfilled response, and a body
    that cannot be read gives the read error. *)
Theorem retry_status_on_every_attempt (method : HttpMethod) (path : string)
    (init : option RequestInitEx) (s : State) :
  let s' := snd (request env this method path init s) in
  let made := (fetched s' - fetched s)%nat in
  let maxAttempts := Z.max 1 (retries this + 1) in
  (forall url hdrs body init0 attempt lastError s0 response,
      transport env (fetched s0) = Resolved response ->
      shouldRetry this s0 (fr_status response) attempt maxAttempts = true ->
      fst (attempt_body env this method url hdrs body init0 maxAttempts attempt
             lastError s0) = Ok (Continue lastError))
  /\ ((forall n, exists response,
          transport env n = Resolved response
          /\ Set_has s (retryStatuses this) (fr_status response) = true) ->
      forall url hdrs body s1,
        prepare env this path (default empty_init init) s = (Ok (url, hdrs, body), s1) ->
        exists response,
          transport env (fetched s + Z.to_nat maxAttempts - 1) = Resolved response
          /\ Z.of_nat made = maxAttempts
          /\ fst (request env this method path init s)
             = match parse_result response with
               | Ok data_ =>
                   if fr_ok response
                   then Fulfilled {| data := data_;
                                     status := fr_status response;
                                     headers := fr_headers response |}
                   else Rejected (status_error response data_)
               | Throw e => Rejected (rethrown e)
               end).
Proof.
  cbv zeta. fold (maxAttempts_of this). split.
  { intros url hdrs body init0 attempt lastError s0 response Htr Hretry.
    rewrite attempt_body_spec. cbv zeta. cbn [fst]. unfold verdict.
    now rewrite Htr, Hretry. }
  intros Hall url hdrs body s1 Hprep.
  pose proof (maxAttempts_of_pos this) as Hpos.
  pose proof (prepare_frame env this path (default empty_init init) s) as Hframe.
  cbv zeta in Hframe. rewrite Hprep in Hframe.
  destruct Hframe as (Hheap & _ & Hf & _). simpl in Hheap, Hf.
  rewrite (request_unfold _ _ _ _ _ _ _ _ _ _ Hprep). cbn [fst snd].
  unfold request_loop.
  destruct (attempts_run_to_last env this method url hdrs body
              (default empty_init init) (maxAttempts_of this)
              (Z.to_nat (maxAttempts_of this) - 1) 0 None s1
              (S (Z.to_nat (maxAttempts_of this))))
    as (lastError' & s2 & Hrun & Hfetched).
  - lia.
  - lia.
  - intros j lastError' Hj.
    destruct (Hall (fetched s1 + j)%nat) as (response & -> & Hin).
    unfold verdict, shouldRetry. rewrite (Set_has_heap s s1) by exact Hheap.
    rewrite Hin. replace (0 + Z.of_nat j <? maxAttempts_of this - 1) with true
      by (symmetry; apply Z.ltb_lt; lia).
    reflexivity.
  - rewrite Hrun. cbn [fst snd].
    destruct (Hall (fetched s1 + (Z.to_nat (maxAttempts_of this) - 1))%nat)
      as (response & Htr & Hin).
    exists response.
    replace (fetched s + Z.to_nat (maxAttempts_of this) - 1)%nat
      with (fetched s1 + (Z.to_nat (maxAttempts_of this) - 1))%nat by lia.
    split; [exact Htr|]. split; [rewrite Hfetched, Hf; lia|].
    rewrite Htr. unfold verdict, shouldRetry, caught, shouldRetryError.
    rewrite Z.ltb_irrefl, andb_false_r. simpl.
    destruct (parse_result response) as [data_|e]; [|reflexivity].
    destruct (fr_ok response); reflexivity.
Qed.

End C4.

Lemma retry_status_on_every_attempt_witness :
  let client := Examples.users in
  let s := Examples.started in
  let response := Examples.reply 503 "Service Unavailable" "busy" in
  let env := Examples.always (Resolved response) in
  (forall n, exists r, transport env n = Resolved r
                       /\ Set_has s (retryStatuses client) (fr_status r) = true)
  /\ fst (request env client GET "/x" None s)
     = Rejected (status_error response (DText "busy"))
  /\ Z.of_nat (fetched (snd (request env client GET "/x" None s)) - fetched s) = 3.
Proof.
  cbv zeta.
  assert (Hall : forall n, exists r,
            transport (Examples.always
                         (Resolved (Examples.reply 503 "Service Unavailable" "busy"))) n
            = Resolved r
            /\ Set_has Examples.started (retryStatuses Examples.users) (fr_status r) = true).
  { intros n. eexists. split; reflexivity. }
  split; [exact Hall|].
  destruct (retry_status_on_every_attempt
              (Examples.always (Resolved (Examples.reply 503 "Service Unavailable" "busy")))
              Examples.users GET "/x" None Examples.started) as (_ & Hlast).
  assert (Hprep : prepare (Examples.always
                             (Resolved (Examples.reply 503 "Service Unavailable" "busy")))
                    Examples.users "/x" (default empty_init None) Examples.started
                  = (Ok ("https://x.test/x", [("x-request-id", Examples.request_id)], None),
                     Examples.prepared)).
  { vm_compute. reflexivity. }
  destruct (Hlast Hall _ _ _ _ Hprep) as (response & Htr & Hmade & Hres).
  injection Htr as <-. split; [exact Hres | exact Hmade].
Defined.

(** ** The number of attempts *)

Section C5.

Context `{Platform} (env : Env) (this : HttpClient).

(** C5.  One call makes at most [max(1, retries + 1)] attempts, which is
    [retries + 1] for a retry budget that is not negative.  When every
    attempt ends in a timeout (an abort fault of its [fetch], or of the
    reading of its body), the call makes exactly [max(1, retries + 1)]
    attempts and rejects with the fault of the last one; no response is
    returned. *)
Theorem attempts_bounded_by_retries (method : HttpMethod) (path : string)
    (init : option RequestInitEx) (s : State) :
  let s' := snd (request env this method path init s) in
  let made := (fetched s' - fetched s)%nat in
  let maxAttempts := Z.max 1 (retries this + 1) in
  Z.of_nat made <= maxAttempts
  /\ (0 <= retries this -> Z.of_nat made <= retries this + 1)
  /\ ((forall n, timed_out this s (transport env n)) ->
      forall url hdrs body s1,
        prepare env this path (default empty_init init) s = (Ok (url, hdrs, body), s1) ->
        exists e,
          fault_of (transport env (fetched s + Z.to_nat maxAttempts - 1)) = Some e
          /\ err_name e = Some "AbortError"
          /\ fst (request env this method path init s) = Rejected (rethrown e)
          /\ Z.of_nat made = maxAttempts).
Proof.
  cbv zeta. pose proof (request_fetches env this method path init s) as Hmade.
  cbv zeta in Hmade. fold (maxAttempts_of this).
  pose proof (maxAttempts_of_pos this) as Hpos.
  split; [lia|]. split; [unfold maxAttempts_of in *; lia|].
  intros Habort url hdrs body s1 Hprep.
  pose proof (prepare_frame env this path (default empty_init init) s) as Hframe.
  cbv zeta in Hframe. rewrite Hprep in Hframe.
  destruct Hframe as (Hheap & _ & Hf & _). simpl in Hheap, Hf.
  assert (Hcaught : forall n attempt lastError,
    exists e, fault_of (transport env n) = Some e
              /\ err_name e = Some "AbortError"
              /\ verdict this s1 (maxAttempts_of this) attempt lastError (transport env n)
                 = caught (maxAttempts_of this) attempt e).
  { intros n attempt lastError.
    destruct (Habort n) as ((e & Hfault & Hname) & Hstatus).
    exists e. split; [exact Hfault|]. split; [exact Hname|].
    unfold verdict. destruct (transport env n) as [response|error].
    - unfold shouldRetry. rewrite (Set_has_heap s s1) by exact Hheap.
      rewrite Hstatus. simpl. simpl in Hfault.
      destruct (parse_result response); [discriminate|]. now injection Hfault as ->.
    - now injection Hfault as ->. }
  rewrite (request_unfold _ _ _ _ _ _ _ _ _ _ Hprep). cbn [fst snd].
  unfold request_loop.
  destruct (attempts_run_to_last env this method url hdrs body
              (default empty_init init) (maxAttempts_of this)
              (Z.to_nat (maxAttempts_of this) - 1) 0 None s1
              (S (Z.to_nat (maxAttempts_of this))))
    as (lastError' & s2 & Hrun & Hfetched).
  - lia.
  - lia.
  - intros j lastError' Hj.
    destruct (Hcaught (fetched s1 + j)%nat (0 + Z.of_nat j) lastError')
      as (e & _ & Hname & ->).
    unfold caught, shouldRetryError. rewrite Hname.
    replace (0 + Z.of_nat j <? maxAttempts_of this - 1) with true
      by (symmetry; apply Z.ltb_lt; lia).
    reflexivity.
  - rewrite Hrun. cbn [fst snd].
    destruct (Hcaught (fetched s1 + (Z.to_nat (maxAttempts_of this) - 1))%nat
                (maxAttempts_of this - 1) lastError')
      as (e & Hfault & Hname & ->).
    exists e. replace (fetched s + Z.to_nat (maxAttempts_of this) - 1)%nat
      with (fetched s1 + (Z.to_nat (maxAttempts_of this) - 1))%nat by lia.
    split; [exact Hfault|]. split; [exact Hname|]. split.
    + unfold caught, shouldRetryError. rewrite Z.ltb_irrefl. reflexivity.
    + rewrite Hfetched, Hf. lia.
Qed.

End C5.

Lemma attempts_bounded_by_retries_witness :
  let client := Examples.users in
  let s := Examples.started in
  let env := Examples.always (Failed Examples.abort_error) in
  (0 <= retries client /\ forall n, timed_out client s (transport env n))
  /\ Z.of_nat (fetched (snd (request env client GET "/x" None s)) - fetched s)
     <= retries client + 1
  /\ fst (request env client GET "/x" None s) = Rejected Examples.abort_error
  /\ Z.of_nat (fetched (snd (request env client GET "/x" None s)) - fetched s) = 3.
Proof.
  cbv zeta.
  assert (Hall : forall n,
            timed_out Examples.users Examples.started
              (transport (Examples.always (Failed Examples.abort_error)) n)).
  { intros n. split; [|exact I]. eexists. split; reflexivity. }
  assert (Hr : 0 <= retries Examples.users) by (simpl; lia).
  split; [split; [exact Hr | exact Hall]|].
  destruct (attempts_bounded_by_retries (Examples.always (Failed Examples.abort_error))
              Examples.users GET "/x" None Examples.started) as (_ & Hle & Hlast).
  split; [exact (Hle Hr)|].
  assert (Hprep : prepare (Examples.always (Failed Examples.abort_error))
                    Examples.users "/x" (default empty_init None) Examples.started
                  = (Ok ("https://x.test/x", [("x-request-id", Examples.request_id)], None),
                     Examples.prepared)).
  { vm_compute. reflexivity. }
  destruct (Hlast Hall _ _ _ _ Hprep) as (e & Hfault & _ & Hres & Hmade).
  injection Hfault as <-. split; [exact Hres | exact Hmade].
Defined.

(** ** The backoff delay *)

Section C6.

Context `{JsValues} (env : Env).

(** C6.  The backoff after attempt [a] draws one random number and sleeps
    once; for the numbers [Math.random()] gives, binary64 numbers in
    [[0, 1)], the delay slept lies between 0 and [min(4000, 300 * 2^a)]
    milliseconds, both included.  The delay is the floor of the binary64
    product of line 181, the product as floating-point multiplication
    rounds it. *)
Theorem backoff_delay_in_range (attempt : Z) (s : State) :
  0 <= attempt ->
  in_unit_interval (random env (drawn s)) ->
  is_binary64 (random env (drawn s)) = true ->
  exists delay,
    trace (snd (backoff env attempt s))
    = trace s ++ [EvMathRandom (random env (drawn s));
                  EvSetTimeout (next_handle s) ResolveSleep delay;
                  EvTimerFired (next_handle s)]
    /\ 0 <= delay <= Z.min 4000 (300 * 2 ^ attempt).
Proof.
  intros _ Hunit Hdouble. rewrite backoff_spec. cbn [snd trace].
  exists (backoff_delay attempt (random env (drawn s))).
  split; [reflexivity|]. now apply backoff_delay_bounds.
Qed.

End C6.

Lemma backoff_delay_in_range_witness :
  let env := Examples.always (Failed Examples.abort_error) in
  (0 <= 1
   /\ in_unit_interval (random env (drawn Examples.started))
   /\ is_binary64 (random env (drawn Examples.started)) = true)
  /\ exists delay,
      trace (snd (backoff env 1 Examples.started))
      = [EvMathRandom Examples.half; EvSetTimeout 0 ResolveSleep delay; EvTimerFired 0]
      /\ 0 <= delay <= 600.
Proof.
  cbv zeta.
  assert (H0 : 0 <= 1) by lia.
  assert (Hunit : in_unit_interval
                    (random (Examples.always (Failed Examples.abort_error))
                       (drawn Examples.started))).
  { unfold in_unit_interval. simpl. lia. }
  assert (Hdouble : is_binary64
                      (random (Examples.always (Failed Examples.abort_error))
                         (drawn Examples.started)) = true).
  { reflexivity. }
  split; [split; [exact H0 | split; [exact Hunit | exact Hdouble]]|].
  exact (backoff_delay_in_range (Examples.always (Failed Examples.abort_error)) 1
           Examples.started H0 Hunit Hdouble).
Defined.

(** ** The abort timer *)

Section C7.

Context `{Platform} (env : Env) (this : HttpClient).

(** C7.  Whatever way an attempt ends (return, continue or throw), its
    trace is: the abort timer is armed, then calls that clear nothing, then
    that timer is cleared; the set of armed timers is the one before the
    attempt.  Over a whole call the cleared handles are the handles of the
    abort timers, each armed once and cleared once, one per [fetch], and
    the timers armed after the call are those armed before it. *)
Theorem abort_timer_released_once (method : HttpMethod) (path : string)
    (init : option RequestInitEx) (s : State) :
  (forall url hdrs body init0 maxAttempts attempt lastError s0,
      let s1 := snd (attempt_body env this method url hdrs body init0 maxAttempts
                       attempt lastError s0) in
      armed s1 = armed s0
      /\ exists ms mid,
          trace s1 = trace s0
                     ++ [EvSetTimeout (next_handle s0) AbortRequest ms]
                     ++ mid ++ [EvClearTimeout (next_handle s0)]
          /\ acquired mid = [] /\ released mid = [])
  /\ let s' := snd (request env this method path init s) in
     armed s' = armed s
     /\ exists evs,
         trace s' = trace s ++ evs
         /\ released evs = acquired evs
         /\ NoDup (acquired evs)
         /\ length (acquired evs) = (fetched s' - fetched s)%nat
         /\ length (acquired evs) = fetch_count evs
         /\ Forall (fun handle => count_occ Nat.eq_dec (released evs) handle = 1%nat)
              (acquired evs).
Proof.
  split.
  { intros url hdrs body init0 maxAttempts attempt lastError s0.
    rewrite attempt_body_spec. cbv zeta. cbn [snd].
    split; [reflexivity|].
    exists (default (defaultTimeoutMs this) (init_timeoutMs init0)).
    destruct (continues _); unfold after_attempt, attempt_events; cbn [trace].
    - exists [EvFetch url method hdrs body (init_cache init0) (next_handle s0);
              EvMathRandom (random env (drawn s0));
              EvSetTimeout (S (next_handle s0)) ResolveSleep
                (backoff_delay attempt (random env (drawn s0)));
              EvTimerFired (S (next_handle s0))].
      now repeat split.
    - exists [EvFetch url method hdrs body (init_cache init0) (next_handle s0)].
      now repeat split. }
  cbv zeta.
  pose proof (prepare_frame env this path (default empty_init init) s) as Hframe.
  cbv zeta in Hframe.
  destruct Hframe as (_ & Harmed & Hf & _ & _ & evs0 & Htr0 & Hfc0 & Hacq0 & Hrel0 & _).
  destruct (prepare env this path (default empty_init init) s)
    as [[[[url hdrs] body]|e] s1] eqn:Hprep; cbn [snd] in *.
  - rewrite (request_unfold _ _ _ _ _ _ _ _ _ _ Hprep). cbn [snd].
    unfold request_loop.
    destruct (attempts_effects env this method url hdrs body (default empty_init init)
                (maxAttempts_of this) (S (Z.to_nat (maxAttempts_of this))) 0 None s1)
      as (_ & Harmed' & _ & evs & Htr & _ & Hrel & _ & Hnd & Hfetched & Hlen & _).
    split; [congruence|].
    exists (evs0 ++ evs).
    rewrite acquired_app, released_app, fetch_count_app, Hacq0, Hrel0, Hfc0.
    rewrite !app_nil_l, Nat.add_0_l.
    split; [rewrite Htr, Htr0; now rewrite app_assoc|].
    split; [exact Hrel|]. split; [exact Hnd|].
    split; [rewrite Hfetched, Hf; lia|]. split; [exact Hlen|].
    rewrite Hrel. apply Forall_forall. intros handle Hin.
    apply count_occ_NoDup; [exact Hnd|]. now apply list_elem_of_In.
  - rewrite (request_unprepared _ _ _ _ _ _ _ _ Hprep). cbn [snd].
    split; [exact Harmed|]. exists evs0. rewrite Hacq0, Hrel0, Hfc0, Hf.
    rewrite Nat.sub_diag. repeat split; auto using NoDup_nil_2.
Qed.

End C7.

(** ** The statement after the loop *)

Section C8.

Context `{Platform} (env : Env) (this : HttpClient).

(** C8.  Every iteration of the attempt loop ends in a return, a throw or
    a continue, and an iteration that continues is never the last one; so
    the loop of [request] is always left by [return] or [throw]: the
    statement after the loop (line 128) is never reached, and the promise
    always settles. *)
Theorem loop_fallback_unreachable (method : HttpMethod) (path url : string)
    (hdrs : Headers.t) (body : option string) (init : RequestInitEx)
    (init' : option RequestInitEx) (s : State) :
  (forall (attempt : Z) (lastError : option JsError) (s0 : State),
      continues (fst (attempt_body env this method url hdrs body init
                        (maxAttempts_of this) attempt lastError s0))
      && (maxAttempts_of this - 1 <=? attempt) = false)
  /\ match fst (request_loop env this method url hdrs body init s) with
     | Returned _ | Raised _ => True
     | Completed _ | OutOfFuel => False
     end
  /\ fst (request env this method path init' s) <> Pending.
Proof.
  assert (Hloop : forall url hdrs body init s,
    match fst (request_loop env this method url hdrs body init s) with
    | Returned _ | Raised _ => True
    | Completed _ | OutOfFuel => False
    end).
  { intros. unfold request_loop. pose proof maxAttempts_of_pos this.
    apply attempts_ends; lia. }
  split; [|split].
  - intros attempt lastError s0. rewrite attempt_body_spec. cbv zeta. simpl.
    destruct (continues _) eqn:Hc; [|reflexivity].
    apply verdict_continues in Hc. simpl. apply Z.leb_gt. lia.
  - apply Hloop.
  - destruct (prepare env this path (default empty_init init') s)
      as [[[[url0 hdrs0] body0]|e] s1] eqn:Hprep.
    + rewrite (request_unfold _ _ _ _ _ _ _ _ _ _ Hprep). simpl.
      specialize (Hloop url0 hdrs0 body0 (default empty_init init') s1).
      destruct (fst (request_loop _ _ _ _ _ _ _ _)); simpl; try discriminate;
        contradiction.
    + rewrite (request_unprepared _ _ _ _ _ _ _ _ Hprep). discriminate.
Qed.

End C8.

(** ** URL construction *)

Section C9.

Context `{Platform}.

(** C9.  The constructor strips the trailing slashes of [baseUrl], all of
    them and nothing else.  [buildUrl] hands to [new URL] the stripped base
    followed by the path, with one slash put between them when the path
    does not start with one; the query parameters are the entries whose
    value is defined, in order, each value converted by [String]; the
    result is the URL with that query, serialized.  On a host whose [URL]
    accepts [https://x.test/foo] and serializes it with the query [a=1] as
    the standard prescribes, [buildUrl("/foo", {a: 1, b: undefined})] on
    the base [https://x.test/] is [https://x.test/foo?a=1]. *)
Theorem buildUrl_construction (options : HTTPClientOptions) (s0 s : State)
    (this : HttpClient) (path : string)
    (query : option (list (string * QueryValue))) :
  constructor options s0 = (Ok this, s) ->
  (baseUrl this = Str.strip_trailing_slashes (opt_baseUrl options)
   /\ ~ Str.ends_with_slash (baseUrl this)
   /\ exists n, opt_baseUrl options = baseUrl this +:+ Str.slashes n)
  /\ ((forall rest, path = String "/" rest -> joined this path = baseUrl this +:+ path)
      /\ (Str.startsWith path "/" = false ->
          joined this path = baseUrl this +:+ "/" +:+ path))
  /\ (forall q,
        query_params q
        = List.map (fun entry => (fst entry, String_of (snd entry)))
            (List.filter (fun entry => is_defined (snd entry)) q))
  /\ fst (buildUrl this path query s)
     = match URL_new (joined this path) with
       | None => Throw (TypeError "Invalid URL")
       | Some url =>
           Ok (URL_toString
                 match query with
                 | Some q => URL_set_search url (URLSearchParams.toString (query_params q))
                 | None => url
                 end)
       end
  /\ (forall url,
        opt_baseUrl options = "https://x.test/" ->
        URL_new "https://x.test/foo" = Some url ->
        URL_toString (URL_set_search url "a=1") = "https://x.test/foo?a=1" ->
        fst (buildUrl this "/foo" (Some [("a", QNumber 1); ("b", QUndefined)]) s)
        = Ok "https://x.test/foo?a=1").
Proof.
  intros Hnew. apply constructor_baseUrl in Hnew.
  split; [|split; [|split; [|split]]].
  - split; [exact Hnew|]. rewrite Hnew.
    split; [apply strip_trailing_slashes_no_slash|].
    apply strip_trailing_slashes_decompose.
  - unfold joined. split.
    + intros rest ->. cbn [Str.startsWith]. now rewrite Ascii.eqb_refl.
    + now intros ->.
  - intros q. unfold query_params. now rewrite query_params_acc.
  - unfold buildUrl, bind. destruct (URL_new (joined this path)); reflexivity.
  - intros url Hbase Hparse Hhref. unfold buildUrl, bind, joined.
    rewrite Hnew, Hbase.
    change (Str.strip_trailing_slashes "https://x.test/"
            +:+ (if Str.startsWith "/foo" "/" then "/foo" else "/" +:+ "/foo"))
      with "https://x.test/foo".
    rewrite Hparse. cbn [or_TypeError ret fst].
    change (URLSearchParams.toString
              (query_params [("a", QNumber 1); ("b", QUndefined)])) with "a=1".
    now rewrite Hhref.
Qed.

End C9.

Lemma buildUrl_construction_witness :
  let query := Some [("a", QNumber 1); ("b", QUndefined)] in
  constructor Examples.users_options Examples.fresh = (Ok Examples.users, Examples.started)
  /\ baseUrl Examples.users = "https://x.test"
  /\ joined Examples.users "foo" = "https://x.test/foo"
  /\ fst (buildUrl Examples.users "/foo" query Examples.started)
     = Ok "https://x.test/foo?a=1".
Proof.
  cbv zeta.
  assert (Hnew : constructor Examples.users_options Examples.fresh
                 = (Ok Examples.users, Examples.started)) by reflexivity.
  split; [exact Hnew|].
  destruct (buildUrl_construction Examples.users_options Examples.fresh Examples.started
              Examples.users "foo" None Hnew)
    as ((Hbase & _) & (_ & Hjoin) & _ & _ & Hexample).
  split; [exact Hbase|]. split; [exact (Hjoin eq_refl)|].
  exact (Hexample ("https://x.test/foo", "") eq_refl eq_refl eq_refl).
Defined.

(** ** One request for all attempts *)

Section C10.

Context `{Platform} (env : Env) (this : HttpClient).

(** C10.  The URL, the headers and the body are built before the loop, by
    one run of [prepare] that calls [randomUUID()] at most once; every
    [fetch] of the call is made with these same values and the loop draws
    no identifier, so the attempts of one call carry one request id. *)
Theorem request_fixed_before_loop (method : HttpMethod) (path : string)
    (init : option RequestInitEx) (s s1 : State)
    (url : string) (hdrs : Headers.t) (body : option string) :
  prepare env this path (default empty_init init) s = (Ok (url, hdrs, body), s1) ->
  let s' := snd (request env this method path init s) in
  (issued s <= issued s1 <= S (issued s))%nat
  /\ issued s' = issued s1
  /\ fetched s1 = fetched s
  /\ exists evs,
      trace s' = trace s1 ++ evs
      /\ fetch_count evs = (fetched s' - fetched s)%nat
      /\ Forall (loop_event url method hdrs body
                   (init_cache (default empty_init init))) evs
      /\ Forall (fun e => request_id_of e = None
                          \/ request_id_of e = Some (Headers.get hdrs "x-request-id"))
           evs
      /\ Headers.get hdrs "x-request-id" <> None
      /\ (issued s1 <> issued s ->
          Headers.get hdrs "x-request-id"
          = Some (Headers.normalize (uuid env (issued s)))).
Proof.
  intros Hprep. cbv zeta.
  pose proof (buildHeaders_request_id env this _ _ _ _ (prepare_Ok env this _ _ _ _ _ _ _ Hprep))
    as [Hid Hdrawn].
  pose proof (prepare_frame env this path (default empty_init init) s) as Hframe.
  cbv zeta in Hframe. rewrite Hprep in Hframe. cbn [snd] in Hframe.
  destruct Hframe as (_ & _ & Hf & _ & Hissued & _).
  rewrite (request_unfold _ _ _ _ _ _ _ _ _ _ Hprep). cbn [snd].
  unfold request_loop.
  destruct (attempts_effects env this method url hdrs body (default empty_init init)
              (maxAttempts_of this) (S (Z.to_nat (maxAttempts_of this))) 0 None s1)
    as (_ & _ & Hiss & evs & Htr & Hev & _ & _ & _ & Hfetched & _ & _).
  split; [exact Hissued|]. split; [exact Hiss|]. split; [exact Hf|].
  exists evs. split; [exact Htr|]. split; [rewrite Hfetched, Hf; lia|].
  split; [exact Hev|].
  split; [|split; [exact Hid | exact Hdrawn]].
  eapply Forall_impl; [exact Hev|].
  intros [] Hle; simpl in *; auto.
  destruct Hle as (_ & _ & -> & _). now right.
Qed.

End C10.

Lemma request_fixed_before_loop_witness :
  let client := Examples.users in
  let s := Examples.started in
  let env := Examples.always (Resolved (Examples.reply 503 "Service Unavailable" "busy")) in
  let hdrs := [("x-request-id", Examples.request_id)] in
  let s1 := Examples.prepared in
  let s' := snd (request env client GET "/x" None s) in
  prepare env client "/x" empty_init s = (Ok ("https://x.test/x", hdrs, None), s1)
  /\ issued s' = 1%nat
  /\ exists evs,
      trace s' = trace s1 ++ evs
      /\ fetch_count evs = 3%nat
      /\ Forall (loop_event "https://x.test/x" GET hdrs None None) evs.
Proof.
  cbv zeta.
  assert (Hprep : prepare (Examples.always
                             (Resolved (Examples.reply 503 "Service Unavailable" "busy")))
                    Examples.users "/x" (default empty_init None) Examples.started
                  = (Ok ("https://x.test/x", [("x-request-id", Examples.request_id)], None),
                     Examples.prepared)).
  { vm_compute. reflexivity. }
  split; [exact Hprep|].
  destruct (request_fixed_before_loop _ Examples.users GET "/x" None _ _ _ _ _ Hprep)
    as (_ & Hissued & _ & evs & Htrace & Hcount & Hevs & _).
  split; [exact Hissued|]. exists evs. split; [exact Htrace|].
  split; [|exact Hevs]. rewrite Hcount. reflexivity.
Defined.

(** * Further properties *)

(** ** Runs of the attempt loop *)

Section RunFacts.

Context `{Platform} (env : Env) (this : HttpClient).
Context (method : HttpMethod) (url : string) (hdrs : Headers.t)
        (body : option string) (init : RequestInitEx) (maxAttempts : Z).

(** A thrown completion is the value thrown by the [catch] block. *)
Lemma verdict_throw (s : State) (attempt : Z) (lastError : option JsError)
    (answer : FetchOutcome) (e : JsError) :
  verdict this s maxAttempts attempt lastError answer = Throw e ->
  exists e0, e = rethrown e0.
Proof.
  unfold verdict, caught. intros Hv.
  destruct answer as [response|error].
  - destruct (shouldRetry _ _ _ _ _); [discriminate|].
    destruct (parse_result response) as [data_|e1].
    + destruct (negb (fr_ok response)); [|discriminate].
      destruct (shouldRetryError _ _ _); [discriminate|].
      injection Hv as <-. now eexists.
    + destruct (shouldRetryError _ _ _); [discriminate|].
      injection Hv as <-. now eexists.
  - destruct (shouldRetryError _ _ _); [discriminate|].
    injection Hv as <-. now eexists.
Qed.

(** A returned completion is built from an ok response whose body was
    read. *)
Lemma verdict_return (s : State) (attempt : Z) (lastError : option JsError)
    (answer : FetchOutcome) (r : HttpResponse) :
  verdict this s maxAttempts attempt lastError answer = Ok (Return r) ->
  exists response data_,
    answer = Resolved response
    /\ parse_result response = Ok data_
    /\ fr_ok response = true
    /\ r = {| data := data_; status := fr_status response;
              headers := fr_headers response |}.
Proof.
  unfold verdict, caught. intros Hv.
  destruct answer as [response|error].
  - destruct (shouldRetry _ _ _ _ _); [discriminate|].
    destruct (parse_result response) as [data_|e1] eqn:Hparse.
    + destruct (fr_ok response) eqn:Hok; cbn [negb] in Hv.
      * injection Hv as <-. now exists response, data_.
      * destruct (shouldRetryError _ _ _); discriminate.
    + destruct (shouldRetryError _ _ _); discriminate.
  - destruct (shouldRetryError _ _ _); discriminate.
Qed.

(** Every run of the loop that has an attempt to make, and fuel for all of
    them, consists of some attempts that continue followed by one that does
    not; the latter decides how the loop ends.  Each attempt makes one
    [fetch], and each of those that continue one backoff. *)
Lemma attempts_run (fuel : nat) :
  forall (attempt : Z) (lastError : option JsError) (s : State),
    attempt < maxAttempts ->
    (Z.to_nat (maxAttempts - attempt) <= fuel)%nat ->
    exists (k : nat) (lastError' : option JsError) (s' : State),
      attempt + Z.of_nat k < maxAttempts
      /\ attempts env this fuel method url hdrs body init maxAttempts attempt lastError s
         = (loop_result_of
              (verdict this s maxAttempts (attempt + Z.of_nat k) lastError'
                 (transport env (fetched s + k))), s')
      /\ continues (verdict this s maxAttempts (attempt + Z.of_nat k) lastError'
                      (transport env (fetched s + k))) = false
      /\ fetched s' = (fetched s + S k)%nat
      /\ drawn s' = (drawn s + k)%nat
      /\ next_handle s' = (next_handle s + S (2 * k))%nat.
Proof.
  induction fuel as [|fuel IH]; intros attempt lastError s Hlt Hfuel; [lia|].
  rewrite attempts_step by exact Hlt. cbv zeta.
  destruct (verdict this s maxAttempts attempt lastError (transport env (fetched s)))
    as [[lastError1|response]|error] eqn:Hv.
  - assert (Hnext : attempt < maxAttempts - 1).
    { eapply verdict_continues. rewrite Hv. reflexivity. }
    cbn [continues].
    set (s1 := after_attempt env this s method url hdrs body init attempt true).
    destruct (IH (attempt + 1) lastError1 s1) as (k & le & s' & Hk & Hrun & Hstop & Hf & Hd & Hh);
      [lia | lia |].
    exists (S k), le, s'.
    rewrite (verdict_heap this maxAttempts s s1) in Hrun, Hstop by reflexivity.
    replace (attempt + 1 + Z.of_nat k) with (attempt + Z.of_nat (S k)) in Hrun, Hstop by lia.
    replace (fetched s1 + k)%nat with (fetched s + S k)%nat in Hrun, Hstop by (simpl; lia).
    split; [lia|]. split; [exact Hrun|]. split; [exact Hstop|].
    rewrite Hf, Hd, Hh. unfold s1. simpl. lia.
  - exists O, lastError,
      (after_attempt env this s method url hdrs body init attempt false).
    rewrite Z.add_0_r, Nat.add_0_r, Hv. simpl. repeat split; lia.
  - exists O, lastError,
      (after_attempt env this s method url hdrs body init attempt false).
    rewrite Z.add_0_r, Nat.add_0_r, Hv. simpl. repeat split; lia.
Qed.

(** The loop stops at the first attempt that does not continue. *)
Lemma attempts_run_to (k : nat) :
  forall (attempt : Z) (lastError : option JsError) (s : State) (fuel : nat),
    (k < fuel)%nat ->
    (forall (j : nat) (lastError' : option JsError),
        (j < k)%nat ->
        continues (verdict this s maxAttempts (attempt + Z.of_nat j) lastError'
                     (transport env (fetched s + j))) = true) ->
    attempt + Z.of_nat k < maxAttempts ->
    (forall lastError',
        continues (verdict this s maxAttempts (attempt + Z.of_nat k) lastError'
                     (transport env (fetched s + k))) = false) ->
    exists (lastError' : option JsError) (s' : State),
      attempts env this fuel method url hdrs body init maxAttempts attempt lastError s
      = (loop_result_of (verdict this s maxAttempts (attempt + Z.of_nat k) lastError'
                           (transport env (fetched s + k))), s')
      /\ fetched s' = (fetched s + S k)%nat
      /\ drawn s' = (drawn s + k)%nat.
Proof.
  induction k as [|k IH]; intros attempt lastError s fuel Hfuel Hcont Hlt Hstop.
  - destruct fuel as [|fuel]; [lia|].
    rewrite attempts_step by lia. cbv zeta.
    specialize (Hstop lastError). rewrite Z.add_0_r, Nat.add_0_r in *.
    rewrite Hstop.
    exists lastError, (after_attempt env this s method url hdrs body init attempt false).
    split; [|simpl; lia].
    destruct (verdict _ _ _ _ _ _) as [[lastError'|response]|error];
      [discriminate | reflexivity..].
  - destruct fuel as [|fuel]; [lia|].
    rewrite attempts_step by lia. cbv zeta.
    generalize (Hcont O lastError ltac:(lia)). rewrite Z.add_0_r, Nat.add_0_r.
    destruct (verdict _ _ _ _ _ _) as [[lastError1|]|]; try discriminate. intros _.
    cbn [continues].
    set (s1 := after_attempt env this s method url hdrs body init attempt true).
    destruct (IH (attempt + 1) lastError1 s1 fuel) as (lastError' & s' & Hrun & Hf & Hd).
    + lia.
    + intros j lastError' Hj.
      rewrite (verdict_heap this maxAttempts s s1) by reflexivity.
      replace (attempt + 1 + Z.of_nat j) with (attempt + Z.of_nat (S j)) by lia.
      replace (fetched s1 + j)%nat with (fetched s + S j)%nat by (simpl; lia).
      apply Hcont. lia.
    + lia.
    + intros lastError'.
      rewrite (verdict_heap this maxAttempts s s1) by reflexivity.
      replace (attempt + 1 + Z.of_nat k) with (attempt + Z.of_nat (S k)) by lia.
      replace (fetched s1 + k)%nat with (fetched s + S k)%nat by (simpl; lia).
      apply Hstop.
    + exists lastError', s'. split; [|split].
      * rewrite Hrun. rewrite (verdict_heap this maxAttempts s s1) by reflexivity.
        replace (attempt + 1 + Z.of_nat k) with (attempt + Z.of_nat (S k)) by lia.
        replace (fetched s1 + k)%nat with (fetched s + S k)%nat by (simpl; lia).
        reflexivity.
      * rewrite Hf. simpl. lia.
      * rewrite Hd. simpl. lia.
Qed.

End RunFacts.

(** ** Timers and methods in a trace *)

Lemma abort_delays_app (evs evs' : list Event) :
  abort_delays (evs ++ evs') = abort_delays evs ++ abort_delays evs'.
Proof.
  induction evs as [|e evs IH]; simpl; [reflexivity|].
  destruct e as [h [] ms| | | | |]; simpl; now rewrite ?IH.
Qed.

Lemma sleeps_app (evs evs' : list Event) :
  sleeps (evs ++ evs') = sleeps evs ++ sleeps evs'.
Proof.
  induction evs as [|e evs IH]; simpl; [reflexivity|].
  destruct e as [h [] ms| | | | |]; simpl; now rewrite ?IH.
Qed.

Lemma fetch_methods_app (evs evs' : list Event) :
  fetch_methods (evs ++ evs') = fetch_methods evs ++ fetch_methods evs'.
Proof.
  induction evs as [|e evs IH]; simpl; [reflexivity|].
  destruct e; simpl; now rewrite ?IH.
Qed.

Section ScheduleFacts.

Context `{Platform} (env : Env) (this : HttpClient).
Context (method : HttpMethod) (url : string) (hdrs : Headers.t)
        (body : option string) (init : RequestInitEx) (maxAttempts : Z).

(** What a run of the loop writes to the trace: per attempt one abort timer
    with the timeout of the call and one [fetch] with the method of the
    call; per backoff one sleep, the [i]-th of them computed from the
    attempt counter [attempt + i] and the [i]-th random number drawn. *)
Lemma attempts_schedule (fuel : nat) :
  forall (attempt : Z) (lastError : option JsError) (s : State),
    let s' := snd (attempts env this fuel method url hdrs body init maxAttempts
                     attempt lastError s) in
    exists evs,
      trace s' = trace s ++ evs
      /\ fetched s' = (fetched s + fetch_count evs)%nat
      /\ abort_delays evs
         = List.repeat (default (defaultTimeoutMs this) (init_timeoutMs init))
             (fetch_count evs)
      /\ fetch_methods evs = List.repeat method (fetch_count evs)
      /\ drawn s' = (drawn s + length (sleeps evs))%nat
      /\ forall (i : nat) (ms : Z),
           sleeps evs !! i = Some ms ->
           ms = backoff_delay (attempt + Z.of_nat i) (random env (drawn s + i)).
Proof.
  induction fuel as [|fuel IH]; intros attempt lastError s; cbv zeta.
  { exists []. rewrite app_nil_r. simpl. repeat split; try lia. intros i ms [=]. }
  destruct (Z.lt_ge_cases attempt maxAttempts) as [Hlt|Hge].
  2:{ cbn [attempts]. apply Z.ltb_ge in Hge. rewrite Hge.
      exists []. rewrite app_nil_r. simpl. repeat split; try lia. intros i ms [=]. }
  rewrite attempts_step by exact Hlt. cbv zeta.
  destruct (verdict _ _ _ _ _ _) as [[lastError'|response]|error] eqn:Hv;
    cbn [continues snd].
  - set (s1 := after_attempt env this s method url hdrs body init attempt true).
    destruct (IH (attempt + 1) lastError' s1) as (evs & Htr & Hf & Hab & Hme & Hd & Hsl).
    exists (attempt_events env this s method url hdrs body init attempt true ++ evs).
    rewrite abort_delays_app, fetch_methods_app, sleeps_app, fetch_count_app.
    split; [rewrite Htr; unfold s1; simpl; now rewrite <- !app_assoc|].
    split; [rewrite Hf; unfold s1; simpl; lia|].
    split; [simpl; now rewrite Hab|].
    split; [simpl; now rewrite Hme|].
    split; [rewrite Hd; unfold s1; simpl; lia|].
    intros [|i] ms; simpl.
    + intros [= <-]. now rewrite Z.add_0_r, Nat.add_0_r.
    + intros Hi. rewrite (Hsl i ms Hi). unfold s1. simpl.
      f_equal; [lia | f_equal; lia].
  - exists (attempt_events env this s method url hdrs body init attempt false).
    simpl. repeat split; try lia. intros i ms [=].
  - exists (attempt_events env this s method url hdrs body init attempt false).
    simpl. repeat split; try lia. intros i ms [=].
Qed.

End ScheduleFacts.

(** ** Whole calls *)

Section CallFacts.

Context `{Platform} (env : Env) (this : HttpClient).

(** The preparation draws no random number, and what it writes to the
    trace is no timer and no [fetch]. *)
Lemma prepare_counters (path : string) (init : RequestInitEx) (s : State) :
  let s1 := snd (prepare env this path init s) in
  heap s1 = heap s /\ fetched s1 = fetched s /\ drawn s1 = drawn s
  /\ next_handle s1 = next_handle s /\ armed s1 = armed s
  /\ exists evs, trace s1 = trace s ++ evs
                 /\ fetch_count evs = O /\ abort_delays evs = []
                 /\ sleeps evs = [] /\ fetch_methods evs = [].
Proof.
  cbv zeta. destruct (issues_prepare env this path init s) as [-> | ->].
  - repeat split. exists []. now rewrite app_nil_r.
  - simpl. repeat split. now exists [EvRandomUUID (uuid env (issued s))].
Qed.

(** A prepared call runs its attempts up to the first one that does not
    continue, and settles as that one ends. *)
Lemma request_run (method : HttpMethod) (path : string)
    (init : option RequestInitEx) (s s1 : State)
    (url : string) (hdrs : Headers.t) (body : option string) :
  prepare env this path (default empty_init init) s = (Ok (url, hdrs, body), s1) ->
  exists (k : nat) (lastError : option JsError) (s' : State),
    Z.of_nat k < maxAttempts_of this
    /\ request env this method path init s
       = (settled_of (loop_result_of
            (verdict this s (maxAttempts_of this) (Z.of_nat k) lastError
               (transport env (fetched s + k)))), s')
    /\ continues (verdict this s (maxAttempts_of this) (Z.of_nat k) lastError
                    (transport env (fetched s + k))) = false
    /\ fetched s' = (fetched s + S k)%nat
    /\ drawn s' = (drawn s + k)%nat
    /\ next_handle s' = (next_handle s + S (2 * k))%nat.
Proof.
  intros Hprep.
  pose proof (prepare_counters path (default empty_init init) s) as Hframe.
  cbv zeta in Hframe. rewrite Hprep in Hframe. cbn [snd] in Hframe.
  destruct Hframe as (Hheap & Hf & Hd & Hh & _).
  pose proof (maxAttempts_of_pos this) as Hpos.
  rewrite (request_unfold _ _ _ _ _ _ _ _ _ _ Hprep). unfold request_loop.
  destruct (attempts_run env this method url hdrs body (default empty_init init)
              (maxAttempts_of this) (S (Z.to_nat (maxAttempts_of this))) 0 None s1)
    as (k & le & s' & Hk & Hrun & Hstop & Hf' & Hd' & Hh'); [lia | lia |].
  rewrite (verdict_heap this (maxAttempts_of this) s s1) in Hrun, Hstop by exact Hheap.
  rewrite Z.add_0_l, Hf in Hrun, Hstop.
  exists k, le, s'. rewrite Hrun. cbn [fst snd].
  split; [lia|]. split; [reflexivity|]. split; [exact Hstop|].
  rewrite Hf', Hd', Hh', Hf, Hd, Hh. repeat split.
Qed.

(** A prepared call whose first [k] attempts continue and whose next one
    does not settles as that one ends, after [k + 1] calls to [fetch] and
    [k] backoffs. *)
Lemma request_run_to (k : nat) (method : HttpMethod) (path : string)
    (init : option RequestInitEx) (s s1 : State)
    (url : string) (hdrs : Headers.t) (body : option string) :
  prepare env this path (default empty_init init) s = (Ok (url, hdrs, body), s1) ->
  (forall (j : nat) (lastError : option JsError),
      (j < k)%nat ->
      continues (verdict this s (maxAttempts_of this) (Z.of_nat j) lastError
                   (transport env (fetched s + j))) = true) ->
  Z.of_nat k < maxAttempts_of this ->
  (forall lastError,
      continues (verdict this s (maxAttempts_of this) (Z.of_nat k) lastError
                   (transport env (fetched s + k))) = false) ->
  exists (lastError : option JsError) (s' : State),
    request env this method path init s
    = (settled_of (loop_result_of
         (verdict this s (maxAttempts_of this) (Z.of_nat k) lastError
            (transport env (fetched s + k)))), s')
    /\ fetched s' = (fetched s + S k)%nat
    /\ drawn s' = (drawn s + k)%nat.
Proof.
  intros Hprep Hcont Hlt Hstop.
  pose proof (prepare_counters path (default empty_init init) s) as Hframe.
  cbv zeta in Hframe. rewrite Hprep in Hframe. cbn [snd] in Hframe.
  destruct Hframe as (Hheap & Hf & Hd & _).
  rewrite (request_unfold _ _ _ _ _ _ _ _ _ _ Hprep). unfold request_loop.
  destruct (attempts_run_to env this method url hdrs body (default empty_init init)
              (maxAttempts_of this) k 0 None s1 (S (Z.to_nat (maxAttempts_of this))))
    as (le & s' & Hrun & Hf' & Hd').
  - lia.
  - intros j le Hj. rewrite (verdict_heap this (maxAttempts_of this) s s1) by exact Hheap.
    rewrite Z.add_0_l, Hf. now apply Hcont.
  - lia.
  - intros le. rewrite (verdict_heap this (maxAttempts_of this) s s1) by exact Hheap.
    rewrite Z.add_0_l, Hf. apply Hstop.
  - rewrite (verdict_heap this (maxAttempts_of this) s s1) in Hrun by exact Hheap.
    rewrite Z.add_0_l, Hf in Hrun.
    exists le, s'. rewrite Hrun. cbn [fst snd].
    split; [reflexivity|]. rewrite Hf', Hd', Hf, Hd. now split.
Qed.

(** The timers and the [fetch] calls of one call. *)
Lemma request_schedule (method : HttpMethod) (path : string)
    (init : option RequestInitEx) (s : State) :
  let s' := snd (request env this method path init s) in
  exists evs,
    trace s' = trace s ++ evs
    /\ fetched s' = (fetched s + fetch_count evs)%nat
    /\ abort_delays evs
       = List.repeat (default (defaultTimeoutMs this)
                        (init_timeoutMs (default empty_init init)))
           (fetch_count evs)
    /\ fetch_methods evs = List.repeat method (fetch_count evs)
    /\ drawn s' = (drawn s + length (sleeps evs))%nat
    /\ forall (i : nat) (ms : Z),
         sleeps evs !! i = Some ms ->
         ms = backoff_delay (Z.of_nat i) (random env (drawn s + i)).
Proof.
  cbv zeta.
  pose proof (prepare_counters path (default empty_init init) s) as Hframe.
  cbv zeta in Hframe.
  destruct Hframe as (_ & Hf & Hd & _ & _ & evs0 & Htr0 & Hfc0 & Hab0 & Hsl0 & Hme0).
  destruct (prepare env this path (default empty_init init) s)
    as [[[[url hdrs] body]|e] s1] eqn:Hprep; cbn [snd] in *.
  - rewrite (request_unfold _ _ _ _ _ _ _ _ _ _ Hprep). cbn [snd]. unfold request_loop.
    destruct (attempts_schedule env this method url hdrs body (default empty_init init)
                (maxAttempts_of this) (S (Z.to_nat (maxAttempts_of this))) 0 None s1)
      as (evs & Htr & Hf' & Hab & Hme & Hd' & Hsl).
    exists (evs0 ++ evs).
    rewrite abort_delays_app, fetch_methods_app, sleeps_app, fetch_count_app.
    rewrite Hfc0, Hab0, Hsl0, Hme0. cbn [app Nat.add].
    split; [rewrite Htr, Htr0; now rewrite app_assoc|].
    split; [rewrite Hf', Hf; reflexivity|].
    split; [exact Hab|]. split; [exact Hme|].
    split; [rewrite Hd', Hd; reflexivity|].
    intros i ms Hi. rewrite (Hsl i ms Hi), Hd, Z.add_0_l. reflexivity.
  - rewrite (request_unprepared _ _ _ _ _ _ _ _ Hprep). cbn [snd].
    exists evs0. rewrite Hfc0, Hab0, Hsl0, Hme0. simpl.
    repeat split; try lia; try assumption. intros i ms [=].
Qed.

End CallFacts.

(** ** The [catch] block *)

Section CatchFacts.

Context `{JsValues}.

Lemma rethrown_Error (e : JsError) : instanceof_Error (rethrown e) = true.
Proof. unfold rethrown. destruct (instanceof_Error e) eqn:He; [exact He | reflexivity]. Qed.

Lemma TypeError_is_Error (e : JsError) :
  instanceof_TypeError e = true -> instanceof_Error e = true.
Proof. unfold instanceof_TypeError, instanceof_Error. now destruct (err_kind e). Qed.

(** The test of the [catch] block, by the properties of the error. *)
Lemma shouldRetryError_false (e : JsError) (attempt maxAttempts : Z) :
  err_name e <> Some "AbortError" ->
  err_status e <> Some 408 ->
  isNetworkError e = false ->
  shouldRetryError e attempt maxAttempts = false.
Proof.
  intros Hname Hstatus Hnet. unfold shouldRetryError.
  rewrite (bool_decide_eq_false_2 _ Hname), (bool_decide_eq_false_2 _ Hstatus), Hnet.
  apply andb_false_r.
Qed.

Lemma shouldRetryError_network (e : JsError) (attempt maxAttempts : Z) :
  isNetworkError e = true ->
  shouldRetryError e attempt maxAttempts = (attempt <? maxAttempts - 1).
Proof.
  intros Hnet. unfold shouldRetryError. rewrite Hnet, orb_true_r. apply andb_true_r.
Qed.

End CatchFacts.

(** ** Errors of the preparation *)

Section ThrowFacts.

Context `{Platform} (env : Env) (this : HttpClient).

Lemma bind_Throw {A B} (m : M A) (k : A -> M B) (s s' : State) (e : JsError) :
  bind m k s = (Throw e, s') ->
  m s = (Throw e, s') \/ exists a s1, m s = (Ok a, s1) /\ k a s1 = (Throw e, s').
Proof.
  unfold bind. destruct (m s) as [[a|e0] s1].
  - intros Hk. right. now exists a, s1.
  - intros [= <- <-]. now left.
Qed.

Lemma or_TypeError_Throw {A} (message : string) (o : option A) (s s' : State)
    (e : JsError) :
  or_TypeError message o s = (Throw e, s') ->
  o = None /\ e = TypeError message.
Proof. destruct o; simpl; [discriminate|]. unfold throw. now intros [= <- _]. Qed.

(** Closes the case of a step that throws: it is a [TypeError], or the step
    cannot throw. *)
Ltac thrown_TypeError H :=
  first [ discriminate H
        | apply or_TypeError_Throw in H as [_ ->]; reflexivity ].

(** Header construction throws nothing but a [TypeError]. *)
Lemma buildHeaders_Throw (init : RequestInitEx) (s s' : State) (e : JsError) :
  buildHeaders env this init s = (Throw e, s') -> instanceof_TypeError e = true.
Proof.
  unfold buildHeaders. intros Hrun.
  apply bind_Throw in Hrun as [Hrun | (defaults & s1 & _ & Hrun)];
    [discriminate Hrun|].
  apply bind_Throw in Hrun as [Hrun | (hdrs0 & s2 & _ & Hrun)];
    [thrown_TypeError Hrun|].
  apply bind_Throw in Hrun as [Hrun | (hdrs1 & s3 & _ & Hrun)].
  { destruct (negb _); [|discriminate Hrun].
    apply bind_Throw in Hrun as [Hrun | (id & s3 & _ & Hrun)];
      [discriminate Hrun | thrown_TypeError Hrun]. }
  apply bind_Throw in Hrun as [Hrun | (hdrs2 & s4 & _ & Hrun)].
  { destruct (init_authToken init) as [token|]; [|discriminate Hrun].
    destruct (negb _); thrown_TypeError Hrun. }
  apply bind_Throw in Hrun as [Hrun | (hdrs3 & s5 & _ & Hrun)];
    [|discriminate Hrun].
  destruct (_ && _); thrown_TypeError Hrun.
Qed.

(** The preparation of a call throws a [TypeError] of URL or header
    construction, or, these two done, the value [JSON.stringify] throws. *)
Lemma prepare_Throw (path : string) (init : RequestInitEx) (s s' : State)
    (e : JsError) :
  prepare env this path init s = (Throw e, s') ->
  instanceof_TypeError e = true
  \/ exists v u hdrs,
       init_json init = Some v
       /\ JSON_stringify v = Throw e
       /\ URL_new (joined this path) = Some u
       /\ buildHeaders env this init s = (Ok hdrs, s').
Proof.
  unfold prepare. intros Hrun.
  apply bind_Throw in Hrun as [Hrun | (url & s1 & Hurl & Hrun)].
  { left. unfold buildUrl in Hrun.
    apply bind_Throw in Hrun as [Hrun | (u & s1 & _ & Hrun)];
      [thrown_TypeError Hrun | discriminate Hrun]. }
  pose proof (quiet_buildUrl this path (init_query init) s) as Hquiet.
  rewrite Hurl in Hquiet. cbn [snd] in Hquiet. subst s1.
  apply bind_Throw in Hrun as [Hrun | (hdrs & s2 & Hhdrs & Hrun)];
    [left; now apply buildHeaders_Throw in Hrun|].
  apply bind_Throw in Hrun as [Hrun | (body & s3 & _ & Hrun)];
    [|discriminate Hrun].
  destruct (init_json init) as [v|]; [|discriminate Hrun].
  right. unfold completion in Hrun.
  destruct (JSON_stringify v) as [text|e0] eqn:Hjson; [discriminate Hrun|].
  unfold throw in Hrun. injection Hrun as -> ->.
  unfold buildUrl in Hurl. apply bind_Ok in Hurl as (u & s3 & Hurl & _).
  apply or_TypeError_Ok in Hurl as [Hurl _].
  now exists v, u, hdrs.
Qed.

(** What a successful preparation went through. *)
Lemma prepare_Ok_inv (path : string) (init : RequestInitEx) (s s1 : State)
    (url : string) (hdrs : Headers.t) (body : option string) :
  prepare env this path init s = (Ok (url, hdrs, body), s1) ->
  (exists u, URL_new (joined this path) = Some u)
  /\ buildHeaders env this init s = (Ok hdrs, s1)
  /\ match init_json init with
     | Some v => JSON_stringify v = Ok body
     | None => body = None
     end.
Proof.
  intros Hprep. split; [|split].
  - unfold prepare, buildUrl in Hprep.
    apply bind_Ok in Hprep as (url' & s2 & Hurl & _).
    apply bind_Ok in Hurl as (u & s3 & Hurl & _).
    apply or_TypeError_Ok in Hurl as [Hurl _]. now exists u.
  - now apply prepare_Ok in Hprep.
  - unfold prepare in Hprep.
    apply bind_Ok in Hprep as (url' & s2 & _ & Hprep).
    apply bind_Ok in Hprep as (hdrs' & s3 & _ & Hprep).
    apply bind_Ok in Hprep as (body' & s4 & Hbody & Hprep).
    apply ret_Ok in Hprep as [[= _ _ ->] _].
    destruct (init_json init) as [v|].
    + now apply completion_Ok in Hbody.
    + now apply ret_Ok in Hbody.
Qed.

End ThrowFacts.

(** ** Attempts that are retried *)

Section RetriedFacts.

Context `{Platform} (this : HttpClient).

(** An attempt whose response [shouldRetry] accepts, or whose fault
    [shouldRetryError] accepts, continues. *)
Lemma retried_continues (s : State) (maxAttempts attempt : Z)
    (lastError : option JsError) (answer : FetchOutcome) :
  match answer with
  | Resolved r => shouldRetry this s (fr_status r) attempt maxAttempts = true
  | Failed e => shouldRetryError e attempt maxAttempts = true
  end ->
  continues (verdict this s maxAttempts attempt lastError answer) = true.
Proof.
  unfold verdict, caught. destruct answer as [r|e]; now intros ->.
Qed.

End RetriedFacts.

(** ** The verb helpers *)

Section X1.

Context `{Platform} (env : Env) (this : HttpClient).

(** X1.  Each of the five verb helpers is [request] with its own verb, and
    every [fetch] it makes carries that method. *)
Theorem verb_helpers_send_their_method (path : string)
    (init : option RequestInitEx) (s : State) :
  let sends (call : string -> option RequestInitEx -> State -> Settled * State)
            (verb : HttpMethod) :=
    call path init s = request env this verb path init s
    /\ exists evs,
         trace (snd (call path init s)) = trace s ++ evs
         /\ fetch_methods evs
            = List.repeat verb (fetched (snd (call path init s)) - fetched s) in
  sends (get env this) GET
  /\ sends (post env this) POST
  /\ sends (put env this) PUT
  /\ sends (patch env this) PATCH
  /\ sends (delete_ env this) DELETE.
Proof.
  cbv zeta.
  assert (Hverb : forall verb,
    exists evs,
      trace (snd (request env this verb path init s)) = trace s ++ evs
      /\ fetch_methods evs
         = List.repeat verb (fetched (snd (request env this verb path init s)) - fetched s)).
  { intros verb.
    destruct (request_schedule env this verb path init s)
      as (evs & Htr & Hf & _ & Hme & _).
    exists evs. split; [exact Htr|]. rewrite Hme, Hf. f_equal. lia. }
  unfold get, post, put, patch, delete_.
  repeat split; apply Hverb.
Qed.

End X1.

(** ** Reading the body *)

Lemma prefix_spec (p s : string) :
  String.prefix p s = true <-> exists post, s = p +:+ post.
Proof.
  revert s. induction p as [|a p IH]; intros s.
  - split; [intros _; now exists s | intros _; now destruct s].
  - destruct s as [|b s]; cbn [String.prefix String.append].
    + split; [discriminate | intros [post [=]]].
    + destruct (ascii_dec a b) as [<- | Hne].
      * rewrite IH. split; intros [post Heq]; exists post; [now rewrite Heq | now injection Heq].
      * split; [discriminate | intros [post Heq]; injection Heq as Hab _; congruence].
Qed.

Lemma includes_cons (a : ascii) (s sub : string) :
  Str.includes (String a s) sub = String.prefix sub (String a s) || Str.includes s sub.
Proof.
  unfold Str.includes. cbn [String.index].
  destruct (String.prefix sub (String a s)); [reflexivity|].
  now destruct (String.index 0 sub s).
Qed.

(** [s.includes(sub)] holds exactly when [sub] occurs in [s]. *)
Lemma includes_spec (s sub : string) :
  Str.includes s sub = true <-> exists pre post, s = pre +:+ sub +:+ post.
Proof.
  split.
  - induction s as [|a s IH].
    + unfold Str.includes. simpl. destruct sub; [|discriminate].
      intros _. now exists "", "".
    + rewrite includes_cons. intros Hor. apply orb_true_iff in Hor as [Hpre | Hin].
      * apply prefix_spec in Hpre as [post Heq]. now exists "", post.
      * destruct (IH Hin) as (pre & post & ->). now exists (String a pre), post.
  - intros (pre & post & ->). induction pre as [|a pre IH].
    + cbn [String.append]. destruct (sub +:+ post) as [|a rest] eqn:Heq.
      * apply append_eq_nil in Heq as [-> _]. reflexivity.
      * rewrite includes_cons. apply orb_true_iff. left.
        apply prefix_spec. exists post. now rewrite Heq.
    + cbn [String.append]. rewrite includes_cons, IH. apply orb_true_r.
Qed.

Section X2.

Context `{JsValues}.

(** X2.  How the body of a response is read.  A response of status 204
    has no data, whatever its headers and its body.  Any other response
    is read as JSON when its [content-type] header holds the text
    [application/json] somewhere, in these very letters, and as text
    otherwise, also when it has no [content-type] header; an error of the
    reader is passed on. *)
Theorem parseResponse_by_status_and_content_type (response : FetchResponse) (s : State) :
  let is_json :=
    exists value pre post,
      Headers.get (fr_headers response) "content-type" = Some value
      /\ value = pre +:+ "application/json" +:+ post in
  (fr_status response = 204 -> parseResponse response s = (Ok DUndefined, s))
  /\ (fr_status response <> 204 -> is_json ->
      parseResponse response s
      = (match fr_json response with
         | Ok v => Ok (DJson v)
         | Throw e => Throw e
         end, s))
  /\ (fr_status response <> 204 -> ~ is_json ->
      parseResponse response s
      = (match fr_text response with
         | Ok text => Ok (DText text)
         | Throw e => Throw e
         end, s)).
Proof.
  cbv zeta. rewrite parseResponse_pure. unfold parse_result.
  split; [|split].
  - intros ->. reflexivity.
  - intros Hstatus (value & pre & post & Hget & ->).
    apply Z.eqb_neq in Hstatus. rewrite Hstatus, Hget. cbn [default from_option id].
    replace (Str.includes (pre +:+ "application/json" +:+ post) "application/json")
      with true by (symmetry; apply includes_spec; now exists pre, post).
    reflexivity.
  - intros Hstatus Hnot. apply Z.eqb_neq in Hstatus. rewrite Hstatus.
    destruct (Str.includes _ _) eqn:Hinc; [|reflexivity].
    exfalso. apply Hnot. apply includes_spec in Hinc as (pre & post & Heq).
    destruct (Headers.get (fr_headers response) "content-type") as [value|].
    + exists value, pre, post. now split.
    + destruct pre; discriminate.
Qed.

End X2.

(** ** Bodies that cannot be read *)

Section X3.

Context `{Platform} (env : Env) (this : HttpClient).

(** X3.  The body of a response that is not retried for its status is read
    before the status is looked at.  When the reading throws, the [catch]
    block receives that error, whether the response is ok or not: no
    status error is built.  An error that the [catch] block does not
    retry (neither an abort, nor of status 408, nor a network error)
    rejects the call, after the [k] attempts that were retried before
    it. *)
Theorem unreadable_body_rejects_with_read_error (method : HttpMethod) (path : string)
    (init : option RequestInitEx) (s s1 : State)
    (url : string) (hdrs : Headers.t) (body : option string)
    (k : nat) (response : FetchResponse) (e : JsError) :
  prepare env this path (default empty_init init) s = (Ok (url, hdrs, body), s1) ->
  let maxAttempts := Z.max 1 (retries this + 1) in
  Z.of_nat k < maxAttempts ->
  (forall j, (j < k)%nat ->
     match transport env (fetched s + j) with
     | Resolved r => shouldRetry this s (fr_status r) (Z.of_nat j) maxAttempts = true
     | Failed e' => shouldRetryError e' (Z.of_nat j) maxAttempts = true
     end) ->
  transport env (fetched s + k) = Resolved response ->
  Set_has s (retryStatuses this) (fr_status response) = false ->
  fst (parseResponse response s) = Throw e ->
  let s' := snd (request env this method path init s) in
  (forall init0 attempt lastError s0,
      heap s0 = heap s ->
      fetched s0 = (fetched s + k)%nat ->
      fst (attempt_body env this method url hdrs body init0 maxAttempts attempt
             lastError s0)
      = if shouldRetryError e attempt maxAttempts
        then Ok (Continue (Some e)) else Throw (rethrown e))
  /\ (err_name e <> Some "AbortError" ->
      err_status e <> Some 408 ->
      isNetworkError e = false ->
      fst (request env this method path init s) = Rejected (rethrown e)
      /\ fetched s' = (fetched s + S k)%nat
      /\ drawn s' = (drawn s + k)%nat).
Proof.
  intros Hprep. cbv zeta. fold (maxAttempts_of this).
  intros Hk Hretried Htr Hset Hparse.
  rewrite parseResponse_pure in Hparse. cbn [fst] in Hparse.
  assert (Hv : forall attempt le,
    verdict this s (maxAttempts_of this) attempt le (transport env (fetched s + k))
    = caught (maxAttempts_of this) attempt e).
  { intros attempt le. rewrite Htr. unfold verdict, shouldRetry.
    now rewrite Hset, Hparse. }
  split.
  { intros init0 attempt lastError s0 Hheap Hfetched.
    rewrite attempt_body_spec. cbv zeta. cbn [fst].
    rewrite (verdict_heap this (maxAttempts_of this) s s0) by exact Hheap.
    now rewrite Hfetched, Hv. }
  intros Hname Hstatus Hnet.
  destruct (request_run_to env this k method path init s s1 url hdrs body Hprep)
    as (le & s' & Hrun & Hf & Hd).
  - intros j le Hj. apply retried_continues, Hretried, Hj.
  - exact Hk.
  - intros le. rewrite Hv. unfold caught. now rewrite shouldRetryError_false.
  - rewrite Hrun, Hv. unfold caught.
    rewrite shouldRetryError_false by assumption.
    cbn [fst snd loop_result_of settled_of]. now repeat split.
Qed.

End X3.

Lemma unreadable_body_rejects_with_read_error_witness :
  let response := Examples.broken_json 500 "Internal Server Error" in
  let env := Examples.always (Resolved response) in
  let s' := snd (request env Examples.users GET "/x" None Examples.started) in
  (transport env (fetched Examples.started) = Resolved response
   /\ Set_has Examples.started (retryStatuses Examples.users) (fr_status response) = false
   /\ fst (parseResponse response Examples.started) = Throw Examples.syntax_error
   /\ fr_ok response = false)
  /\ fst (request env Examples.users GET "/x" None Examples.started)
     = Rejected Examples.syntax_error
  /\ fetched s' = 1%nat.
Proof.
  cbv zeta. split; [repeat split|].
  assert (Hprep : prepare (Examples.always
                             (Resolved (Examples.broken_json 500 "Internal Server Error")))
                    Examples.users "/x" (default empty_init None) Examples.started
                  = (Ok ("https://x.test/x", [("x-request-id", Examples.request_id)], None),
                     Examples.prepared)).
  { vm_compute. reflexivity. }
  destruct (unreadable_body_rejects_with_read_error
              (Examples.always (Resolved (Examples.broken_json 500 "Internal Server Error")))
              Examples.users GET "/x" None Examples.started _ _ _ _ 0
              (Examples.broken_json 500 "Internal Server Error") Examples.syntax_error
              Hprep) as (_ & Hrej).
  - simpl. lia.
  - intros j Hj. lia.
  - reflexivity.
  - reflexivity.
  - reflexivity.
  - destruct Hrej as (Hres & Hf & _); [discriminate | discriminate | reflexivity |].
    split; [exact Hres | exact Hf].
Defined.

(** ** What a call settles to *)

Section X4.

Context `{Platform} (env : Env) (this : HttpClient).

(** X4.  A call is fulfilled only with the response of the last [fetch] it
    made: that response is ok (its status lies between 200 and 299), and
    the result holds its status, its headers and its parsed body. *)
Theorem fulfilled_response_is_ok_and_last (method : HttpMethod) (path : string)
    (init : option RequestInitEx) (s : State) (r : HttpResponse) :
  fst (request env this method path init s) = Fulfilled r ->
  let s' := snd (request env this method path init s) in
  200 <= status r <= 299
  /\ (fetched s < fetched s')%nat
  /\ exists response,
       transport env (fetched s' - 1) = Resolved response
       /\ status r = fr_status response
       /\ headers r = fr_headers response
       /\ fst (parseResponse response s') = Ok (data r).
Proof.
  cbv zeta.
  destruct (prepare env this path (default empty_init init) s)
    as [[[[url hdrs] body]|e] s1] eqn:Hprep.
  2:{ rewrite (request_unprepared _ _ _ _ _ _ _ _ Hprep). discriminate. }
  destruct (request_run env this method path init s s1 url hdrs body Hprep)
    as (k & le & s' & Hk & -> & Hstop & Hf & _).
  cbn [fst snd].
  destruct (verdict _ _ _ _ _ _) as [[le'|r']|e] eqn:Hv; try discriminate.
  intros [= ->].
  apply verdict_return in Hv as (response & data_ & Htr & Hparse & Hok & ->).
  cbn [status headers data].
  unfold fr_ok in Hok. apply andb_true_iff in Hok as [Hlo Hhi].
  apply Z.leb_le in Hlo, Hhi.
  split; [lia|]. split; [lia|].
  exists response. rewrite parseResponse_pure, Hparse.
  replace (fetched s' - 1)%nat with (fetched s + k)%nat by lia.
  now repeat split.
Qed.

End X4.

Lemma fulfilled_response_is_ok_and_last_witness :
  let env := Examples.timeout_then_ok in
  let r := {| data := DText "done"; status := 200;
              headers := [("content-type", "text/plain")] |} in
  let s' := snd (request env Examples.users GET "/x" None Examples.started) in
  fst (request env Examples.users GET "/x" None Examples.started) = Fulfilled r
  /\ 200 <= status r <= 299
  /\ fetched s' = 2%nat
  /\ transport env (fetched s' - 1) = Resolved (Examples.reply 200 "OK" "done").
Proof.
  cbv zeta.
  assert (Hrun : fst (request Examples.timeout_then_ok Examples.users GET "/x" None
                        Examples.started)
                 = Fulfilled {| data := DText "done"; status := 200;
                                headers := [("content-type", "text/plain")] |}).
  { vm_compute. reflexivity. }
  split; [exact Hrun|].
  destruct (fulfilled_response_is_ok_and_last Examples.timeout_then_ok Examples.users
              GET "/x" None Examples.started _ Hrun) as (Hok & _ & _).
  split; [exact Hok|]. split; vm_compute; reflexivity.
Defined.

(** ** Rejections *)

Section X5.

Context `{Platform} (env : Env) (this : HttpClient).

(** X5.  A call that has made a [fetch] never rejects with a value that
    is no [Error]: whatever [fetch] or the reading of the body throws, the
    rejection of [request] is an [Error] instance.  A call that rejects
    without having made a [fetch] rejects with what the preparation threw:
    a [TypeError] of URL or header construction, or the value that
    [JSON.stringify] threw for the payload, which is passed on as it is
    and need not be an [Error]. *)
Theorem rejection_after_fetch_is_an_Error (method : HttpMethod) (path : string)
    (init : option RequestInitEx) (s : State) (e : JsError) :
  fst (request env this method path init s) = Rejected e ->
  let s' := snd (request env this method path init s) in
  (fetched s' <> fetched s -> instanceof_Error e = true)
  /\ (fetched s' = fetched s ->
      instanceof_TypeError e = true
      \/ exists v, init_json (default empty_init init) = Some v
                   /\ JSON_stringify v = Throw e).
Proof.
  cbv zeta.
  destruct (prepare env this path (default empty_init init) s)
    as [[[[url hdrs] body]|e0] s1] eqn:Hprep.
  - destruct (request_run env this method path init s s1 url hdrs body Hprep)
      as (k & le & s' & _ & -> & Hstop & Hf & _).
    cbn [fst snd].
    destruct (verdict _ _ _ _ _ _) as [[le'|r]|e'] eqn:Hv; try discriminate.
    intros [= <-]. split; [|lia]. intros _.
    apply verdict_throw in Hv as [e0 ->]. apply rethrown_Error.
  - pose proof (prepare_counters env this path (default empty_init init) s) as Hframe.
    cbv zeta in Hframe. rewrite Hprep in Hframe. cbn [snd] in Hframe.
    destruct Hframe as (_ & Hf & _).
    rewrite (request_unprepared _ _ _ _ _ _ _ _ Hprep). cbn [fst snd].
    intros [= <-]. split; [congruence|]. intros _.
    apply prepare_Throw in Hprep as [Htype | (v & u & hdrs & Hjson & Hthrow & _)];
      [now left | right; now exists v].
Qed.

End X5.

Lemma rejection_after_fetch_is_an_Error_witness :
  let host := Examples.throwing Examples.thrown_string in
  let env := Examples.always (Failed Examples.thrown_string) in
  let init := Some (Examples.with_headers [] (Some 7)) in
  let run := @request Host.values host env Examples.users POST "/x" init
               Examples.started in
  fst run = Rejected Examples.thrown_string
  /\ instanceof_Error Examples.thrown_string = false
  /\ fetched (snd run) = fetched Examples.started
  /\ @JSON_stringify Host.values host 7 = Throw Examples.thrown_string.
Proof.
  cbv zeta.
  assert (Hrun : fst (@request Host.values (Examples.throwing Examples.thrown_string)
                        (Examples.always (Failed Examples.thrown_string))
                        Examples.users POST "/x"
                        (Some (Examples.with_headers [] (Some 7))) Examples.started)
                 = Rejected Examples.thrown_string).
  { vm_compute. reflexivity. }
  split; [exact Hrun|]. split; [reflexivity|].
  assert (Hf : fetched (snd (@request Host.values
                               (Examples.throwing Examples.thrown_string)
                               (Examples.always (Failed Examples.thrown_string))
                               Examples.users POST "/x"
                               (Some (Examples.with_headers [] (Some 7)))
                               Examples.started))
               = fetched Examples.started).
  { vm_compute. reflexivity. }
  split; [exact Hf|].
  destruct (proj2 (@rejection_after_fetch_is_an_Error Host.values
                     (Examples.throwing Examples.thrown_string)
                     (Examples.always (Failed Examples.thrown_string))
                     Examples.users POST "/x"
                     (Some (Examples.with_headers [] (Some 7))) Examples.started
                     _ Hrun) Hf) as [Htype | (v & Hjson & Hthrow)].
  - discriminate Htype.
  - injection Hjson as <-. exact Hthrow.
Defined.

(** ** The abort timer of an attempt *)

Section X6.

Context `{Platform} (env : Env) (this : HttpClient).

(** X6.  Every attempt of a call arms its abort timer with the timeout of
    the call: [init.timeoutMs] when the call gives one, zero included, and
    the default timeout of the client otherwise.  There is one such timer
    per [fetch]. *)
Theorem abort_timer_uses_call_timeout (method : HttpMethod) (path : string)
    (init : option RequestInitEx) (s : State) :
  let s' := snd (request env this method path init s) in
  let timeout := match init with
                 | Some i =>
                     match init_timeoutMs i with
                     | Some ms => ms
                     | None => defaultTimeoutMs this
                     end
                 | None => defaultTimeoutMs this
                 end in
  exists evs,
    trace s' = trace s ++ evs
    /\ abort_delays evs = List.repeat timeout (fetched s' - fetched s).
Proof.
  cbv zeta.
  destruct (request_schedule env this method path init s)
    as (evs & Htr & Hf & Hab & _).
  exists evs. split; [exact Htr|]. rewrite Hab, Hf.
  replace (fetched s + fetch_count evs - fetched s)%nat with (fetch_count evs) by lia.
  f_equal. destruct init as [i|]; simpl; [|reflexivity].
  now destruct (init_timeoutMs i).
Qed.

End X6.

(** ** Backoffs *)

Section X7.

Context `{Platform} (env : Env) (this : HttpClient).

(** X7.  A call sleeps between its attempts only: the number of backoffs
    (each one random number and one sleep) is the number of [fetch] calls
    less one.  No [fetch] at all is made exactly when the preparation of
    the call throws; a client whose retry budget is zero or less never
    sleeps. *)
Theorem no_backoff_after_last_attempt (method : HttpMethod) (path : string)
    (init : option RequestInitEx) (s : State) :
  let s' := snd (request env this method path init s) in
  let made := (fetched s' - fetched s)%nat in
  let slept := (drawn s' - drawn s)%nat in
  (exists evs,
      trace s' = trace s ++ evs
      /\ fetch_count evs = made
      /\ length (sleeps evs) = slept)
  /\ slept = (made - 1)%nat
  /\ (made = O <->
      exists e, fst (prepare env this path (default empty_init init) s) = Throw e)
  /\ (retries this <= 0 -> slept = O).
Proof.
  cbv zeta.
  split.
  { destruct (request_schedule env this method path init s)
      as (evs & Htr & Hf & _ & _ & Hd & _).
    exists evs. split; [exact Htr|]. split; lia. }
  destruct (prepare env this path (default empty_init init) s)
    as [[[[url hdrs] body]|e] s1] eqn:Hprep.
  - destruct (request_run env this method path init s s1 url hdrs body Hprep)
      as (k & le & s' & Hk & -> & _ & Hf & Hd & _).
    cbn [fst snd]. rewrite Hf, Hd.
    split; [lia|]. split.
    + split; [lia|]. intros [e [=]].
    + intros Hr. unfold maxAttempts_of in Hk. lia.
  - pose proof (prepare_counters env this path (default empty_init init) s) as Hframe.
    cbv zeta in Hframe. rewrite Hprep in Hframe. cbn [snd] in Hframe.
    destruct Hframe as (_ & Hf & Hd & _).
    rewrite (request_unprepared _ _ _ _ _ _ _ _ Hprep). cbn [fst snd].
    rewrite Hf, Hd, !Nat.sub_diag.
    split; [reflexivity|]. split; [|reflexivity].
    split; [|reflexivity]. intros _. now exists e.
Qed.

End X7.

Section X8.

Context `{Platform} (env : Env) (this : HttpClient).

(** X8.  The backoffs of one call follow the attempt counter: the sleep
    after attempt [i] (counted from zero) is the floor of the binary64
    product of the [i]-th random number the call draws and
    [min(4000, 300 * 2^i) + 1], and for the numbers [Math.random()] gives,
    binary64 numbers in [[0, 1)], it lasts between 0 and
    [min(4000, 300 * 2^i)] milliseconds. *)
Theorem backoff_delays_follow_attempts (method : HttpMethod) (path : string)
    (init : option RequestInitEx) (s : State) :
  (forall n, in_unit_interval (random env n) /\ is_binary64 (random env n) = true) ->
  let s' := snd (request env this method path init s) in
  exists evs,
    trace s' = trace s ++ evs
    /\ forall (i : nat) (ms : Z),
         sleeps evs !! i = Some ms ->
         ms = Number.floor_of_product
                (rnd_num (random env (drawn s + i)))
                (rnd_den (random env (drawn s + i)))
                (Z.min 4000 (300 * 2 ^ Z.of_nat i) + 1)
         /\ 0 <= ms <= Z.min 4000 (300 * 2 ^ Z.of_nat i).
Proof.
  intros Hunit. cbv zeta.
  destruct (request_schedule env this method path init s)
    as (evs & Htr & _ & _ & _ & _ & Hsl).
  exists evs. split; [exact Htr|]. intros i ms Hi.
  rewrite (Hsl i ms Hi). split; [reflexivity|].
  apply (backoff_delay_bounds (Z.of_nat i) _ (proj1 (Hunit _)) (proj2 (Hunit _))).
Qed.

End X8.

Lemma backoff_delays_follow_attempts_witness :
  let env := Examples.always (Failed Examples.abort_error) in
  let s' := snd (request env Examples.users GET "/x" None Examples.started) in
  (forall n, in_unit_interval (random env n) /\ is_binary64 (random env n) = true)
  /\ exists evs,
       trace s' = trace Examples.started ++ evs
       /\ sleeps evs = [150; 300]
       /\ forall (i : nat) (ms : Z),
            sleeps evs !! i = Some ms -> 0 <= ms <= Z.min 4000 (300 * 2 ^ Z.of_nat i).
Proof.
  cbv zeta.
  assert (Hunit : forall n,
            in_unit_interval (random (Examples.always (Failed Examples.abort_error)) n)
            /\ is_binary64 (random (Examples.always (Failed Examples.abort_error)) n)
               = true).
  { intros n. split; [unfold in_unit_interval; simpl; lia | reflexivity]. }
  split; [exact Hunit|].
  destruct (backoff_delays_follow_attempts (Examples.always (Failed Examples.abort_error))
              Examples.users GET "/x" None Examples.started Hunit)
    as (evs & Htr & Hsl).
  exists evs. split; [exact Htr|]. split.
  - assert (Hrun : trace (snd (request (Examples.always (Failed Examples.abort_error))
                                 Examples.users GET "/x" None Examples.started))
                   = trace Examples.started
                     ++ [EvRandomUUID Examples.request_id;
                         EvSetTimeout 0 AbortRequest 5000;
                         EvFetch "https://x.test/x" GET
                           [("x-request-id", Examples.request_id)] None None 0;
                         EvMathRandom Examples.half;
                         EvSetTimeout 1 ResolveSleep 150;
                         EvTimerFired 1;
                         EvClearTimeout 0;
                         EvSetTimeout 2 AbortRequest 5000;
                         EvFetch "https://x.test/x" GET
                           [("x-request-id", Examples.request_id)] None None 2;
                         EvMathRandom Examples.half;
                         EvSetTimeout 3 ResolveSleep 300;
                         EvTimerFired 3;
                         EvClearTimeout 2;
                         EvSetTimeout 4 AbortRequest 5000;
                         EvFetch "https://x.test/x" GET
                           [("x-request-id", Examples.request_id)] None None 4;
                         EvClearTimeout 4]).
    { vm_compute. reflexivity. }
    rewrite Hrun in Htr. apply app_inv_head in Htr. subst evs. reflexivity.
  - intros i ms Hi. now apply Hsl.
Defined.

(** ** Faults of the transport *)

Section X9.

Context `{Platform} (env : Env) (this : HttpClient).

(** X9.  A [fetch] that fails with a network error (a [TypeError], or an
    error named [FetchError]) is retried after a backoff while attempts
    remain.  When every [fetch] fails so, the call makes exactly
    [max(1, retries + 1)] attempts, sleeps between them, and rejects with
    the error of the last one. *)
Theorem network_errors_retried_to_exhaustion (method : HttpMethod) (path : string)
    (init : option RequestInitEx) (s s1 : State)
    (url : string) (hdrs : Headers.t) (body : option string) :
  prepare env this path (default empty_init init) s = (Ok (url, hdrs, body), s1) ->
  (forall n, exists e, transport env n = Failed e /\ isNetworkError e = true) ->
  let s' := snd (request env this method path init s) in
  let maxAttempts := Z.max 1 (retries this + 1) in
  (forall init0 attempt lastError s0 e,
      transport env (fetched s0) = Failed e ->
      attempt < maxAttempts - 1 ->
      fst (attempt_body env this method url hdrs body init0 maxAttempts attempt
             lastError s0) = Ok (Continue (Some e)))
  /\ exists e,
       transport env (fetched s + Z.to_nat maxAttempts - 1) = Failed e
       /\ fst (request env this method path init s) = Rejected (rethrown e)
       /\ Z.of_nat (fetched s' - fetched s) = maxAttempts
       /\ Z.of_nat (drawn s' - drawn s) = maxAttempts - 1.
Proof.
  intros Hprep Hall. cbv zeta. fold (maxAttempts_of this).
  pose proof (maxAttempts_of_pos this) as Hpos.
  assert (Hv : forall n attempt lastError,
    exists e, transport env n = Failed e
              /\ verdict this s (maxAttempts_of this) attempt lastError (transport env n)
                 = if attempt <? maxAttempts_of this - 1
                   then Ok (Continue (Some e)) else Throw (rethrown e)).
  { intros n attempt lastError. destruct (Hall n) as (e & Htr & Hnet).
    exists e. split; [exact Htr|]. rewrite Htr. unfold verdict, caught.
    now rewrite shouldRetryError_network by exact Hnet. }
  split.
  { intros init0 attempt lastError s0 e Htr Hlt.
    rewrite attempt_body_spec. cbv zeta. cbn [fst].
    destruct (Hall (fetched s0)) as (e' & Htr' & Hnet).
    rewrite Htr in Htr'. injection Htr' as <-.
    rewrite Htr. unfold verdict, caught.
    rewrite shouldRetryError_network by exact Hnet.
    apply Z.ltb_lt in Hlt. now rewrite Hlt. }
  destruct (request_run_to env this (Z.to_nat (maxAttempts_of this) - 1) method path init
              s s1 url hdrs body Hprep) as (le & s' & Hrun & Hf & Hd).
  - intros j le Hj. destruct (Hv (fetched s + j)%nat (Z.of_nat j) le) as (e & _ & ->).
    replace (Z.of_nat j <? maxAttempts_of this - 1) with true
      by (symmetry; apply Z.ltb_lt; lia).
    reflexivity.
  - lia.
  - intros le.
    destruct (Hv (fetched s + (Z.to_nat (maxAttempts_of this) - 1))%nat
                (Z.of_nat (Z.to_nat (maxAttempts_of this) - 1)) le) as (e & _ & ->).
    replace (Z.of_nat (Z.to_nat (maxAttempts_of this) - 1) <? maxAttempts_of this - 1)
      with false by (symmetry; apply Z.ltb_ge; lia).
    reflexivity.
  - rewrite Hrun. cbn [fst snd].
    destruct (Hv (fetched s + (Z.to_nat (maxAttempts_of this) - 1))%nat
                (Z.of_nat (Z.to_nat (maxAttempts_of this) - 1)) le) as (e & Htr & ->).
    replace (Z.of_nat (Z.to_nat (maxAttempts_of this) - 1) <? maxAttempts_of this - 1)
      with false by (symmetry; apply Z.ltb_ge; lia).
    exists e.
    replace (fetched s + Z.to_nat (maxAttempts_of this) - 1)%nat
      with (fetched s + (Z.to_nat (maxAttempts_of this) - 1))%nat by lia.
    split; [exact Htr|]. split; [reflexivity|]. rewrite Hf, Hd. lia.
Qed.

End X9.

Lemma network_errors_retried_to_exhaustion_witness :
  let env := Examples.always (Failed Examples.network_error) in
  let s' := snd (request env Examples.users GET "/x" None Examples.started) in
  (forall n, exists e, transport env n = Failed e /\ isNetworkError e = true)
  /\ fst (request env Examples.users GET "/x" None Examples.started)
     = Rejected Examples.network_error
  /\ Z.of_nat (fetched s' - fetched Examples.started) = 3
  /\ Z.of_nat (drawn s' - drawn Examples.started) = 2.
Proof.
  cbv zeta.
  assert (Hall : forall n, exists e,
            transport (Examples.always (Failed Examples.network_error)) n = Failed e
            /\ isNetworkError e = true).
  { intros n. eexists. split; reflexivity. }
  split; [exact Hall|].
  assert (Hprep : prepare (Examples.always (Failed Examples.network_error))
                    Examples.users "/x" (default empty_init None) Examples.started
                  = (Ok ("https://x.test/x", [("x-request-id", Examples.request_id)], None),
                     Examples.prepared)).
  { vm_compute. reflexivity. }
  destruct (network_errors_retried_to_exhaustion _ Examples.users GET "/x" None _ _ _ _ _
              Hprep Hall) as (_ & e & Htr & Hres & Hmade & Hslept).
  injection Htr as <-. split; [exact Hres|]. split; [exact Hmade | exact Hslept].
Defined.

Section X10.

Context `{Platform} (env : Env) (this : HttpClient).

(** X10.  A [fetch] that fails with an error that is neither an abort, nor
    an error of status 408, nor a network error ends the call, whatever
    attempts remain: after [k] attempts that were retried, such a fault of
    the next [fetch] rejects the call after [k + 1] calls to [fetch] and
    [k] backoffs.  The rejection is that error, or
    [HTTPError("Unknown HTTP error")] when the thrown value is no
    [Error]. *)
Theorem other_fetch_failure_ends_call (method : HttpMethod) (path : string)
    (init : option RequestInitEx) (s s1 : State)
    (url : string) (hdrs : Headers.t) (body : option string)
    (k : nat) (e : JsError) :
  prepare env this path (default empty_init init) s = (Ok (url, hdrs, body), s1) ->
  let maxAttempts := Z.max 1 (retries this + 1) in
  Z.of_nat k < maxAttempts ->
  (forall j, (j < k)%nat ->
     match transport env (fetched s + j) with
     | Resolved r => shouldRetry this s (fr_status r) (Z.of_nat j) maxAttempts = true
     | Failed e' => shouldRetryError e' (Z.of_nat j) maxAttempts = true
     end) ->
  transport env (fetched s + k) = Failed e ->
  err_name e <> Some "AbortError" ->
  err_status e <> Some 408 ->
  isNetworkError e = false ->
  let s' := snd (request env this method path init s) in
  fst (request env this method path init s)
  = Rejected (if instanceof_Error e then e
              else HTTPError "Unknown HTTP error" None None)
  /\ fetched s' = (fetched s + S k)%nat
  /\ drawn s' = (drawn s + k)%nat.
Proof.
  intros Hprep. cbv zeta. fold (maxAttempts_of this).
  intros Hk Hretried Htr Hname Hstatus Hnet.
  assert (Hv : forall le,
    verdict this s (maxAttempts_of this) (Z.of_nat k) le (transport env (fetched s + k))
    = Throw (rethrown e)).
  { intros le. rewrite Htr. unfold verdict, caught.
    now rewrite shouldRetryError_false. }
  destruct (request_run_to env this k method path init s s1 url hdrs body Hprep)
    as (le & s' & Hrun & Hf & Hd).
  - intros j le Hj. apply retried_continues, Hretried, Hj.
  - exact Hk.
  - intros le. now rewrite Hv.
  - rewrite Hrun, Hv. cbn [fst snd loop_result_of settled_of]. now repeat split.
Qed.

End X10.

Lemma other_fetch_failure_ends_call_witness :
  let env := Examples.busy_then_thrown in
  let s' := snd (request env Examples.users GET "/x" None Examples.started) in
  (transport env 0 = Resolved (Examples.reply 503 "Service Unavailable" "busy")
   /\ transport env 1 = Failed Examples.thrown_string
   /\ err_name Examples.thrown_string <> Some "AbortError"
   /\ err_status Examples.thrown_string <> Some 408
   /\ isNetworkError Examples.thrown_string = false)
  /\ fst (request env Examples.users GET "/x" None Examples.started)
     = Rejected (HTTPError "Unknown HTTP error" None None)
  /\ fetched s' = 2%nat
  /\ drawn s' = 1%nat.
Proof.
  cbv zeta.
  assert (Hprep : prepare Examples.busy_then_thrown Examples.users "/x"
                    (default empty_init None) Examples.started
                  = (Ok ("https://x.test/x", [("x-request-id", Examples.request_id)], None),
                     Examples.prepared)).
  { vm_compute. reflexivity. }
  assert (Hname : err_name Examples.thrown_string <> Some "AbortError") by discriminate.
  assert (Hstatus : err_status Examples.thrown_string <> Some 408) by discriminate.
  split; [repeat split; assumption|].
  apply (other_fetch_failure_ends_call Examples.busy_then_thrown Examples.users GET "/x"
           None Examples.started _ _ _ _ 1 Examples.thrown_string Hprep).
  - simpl. lia.
  - intros [|j] Hj; [reflexivity | lia].
  - reflexivity.
  - exact Hname.
  - exact Hstatus.
  - reflexivity.
Defined.

(** ** Retries that end well *)

Section X11.

Context `{Platform} (env : Env) (this : HttpClient).

(** X11.  When the first [k] attempts of a call are retried (a response
    that [shouldRetry] accepts, or a fault that [shouldRetryError]
    accepts) and the next [fetch] gives an ok response that is not retried
    and whose body can be read, the call is fulfilled with that response,
    after [k + 1] calls to [fetch] and [k] backoffs; what the earlier
    attempts received is dropped. *)
Theorem retried_attempts_then_success (method : HttpMethod) (path : string)
    (init : option RequestInitEx) (s s1 : State)
    (url : string) (hdrs : Headers.t) (body : option string)
    (k : nat) (response : FetchResponse) (data_ : Data) :
  prepare env this path (default empty_init init) s = (Ok (url, hdrs, body), s1) ->
  let maxAttempts := Z.max 1 (retries this + 1) in
  Z.of_nat k < maxAttempts ->
  (forall j, (j < k)%nat ->
     match transport env (fetched s + j) with
     | Resolved r => shouldRetry this s (fr_status r) (Z.of_nat j) maxAttempts = true
     | Failed e => shouldRetryError e (Z.of_nat j) maxAttempts = true
     end) ->
  transport env (fetched s + k) = Resolved response ->
  shouldRetry this s (fr_status response) (Z.of_nat k) maxAttempts = false ->
  fr_ok response = true ->
  fst (parseResponse response s) = Ok data_ ->
  let s' := snd (request env this method path init s) in
  fst (request env this method path init s)
  = Fulfilled {| data := data_; status := fr_status response;
                 headers := fr_headers response |}
  /\ fetched s' = (fetched s + S k)%nat
  /\ drawn s' = (drawn s + k)%nat.
Proof.
  intros Hprep. cbv zeta. fold (maxAttempts_of this).
  intros Hk Hretried Htr Hretry Hok Hparse.
  rewrite parseResponse_pure in Hparse. cbn [fst] in Hparse.
  assert (Hv : forall le,
    verdict this s (maxAttempts_of this) (Z.of_nat k) le (transport env (fetched s + k))
    = Ok (Return {| data := data_; status := fr_status response;
                    headers := fr_headers response |})).
  { intros le. rewrite Htr. unfold verdict. now rewrite Hretry, Hparse, Hok. }
  destruct (request_run_to env this k method path init s s1 url hdrs body Hprep)
    as (le & s' & Hrun & Hf & Hd).
  - intros j le Hj. apply retried_continues, Hretried, Hj.
  - exact Hk.
  - intros le. now rewrite Hv.
  - rewrite Hrun, Hv. cbn [fst snd loop_result_of settled_of]. now repeat split.
Qed.

End X11.

Lemma retried_attempts_then_success_witness :
  let env := Examples.flaky in
  let s' := snd (request env Examples.users GET "/x" None Examples.started) in
  (transport env 0 = Resolved (Examples.reply 503 "Service Unavailable" "busy")
   /\ transport env 1 = Failed Examples.network_error
   /\ transport env 2 = Resolved (Examples.reply 200 "OK" "done"))
  /\ fst (request env Examples.users GET "/x" None Examples.started)
     = Fulfilled {| data := DText "done"; status := 200;
                    headers := [("content-type", "text/plain")] |}
  /\ fetched s' = 3%nat
  /\ drawn s' = 2%nat.
Proof.
  cbv zeta. split; [repeat split|].
  assert (Hprep : prepare Examples.flaky Examples.users "/x" (default empty_init None)
                    Examples.started
                  = (Ok ("https://x.test/x", [("x-request-id", Examples.request_id)], None),
                     Examples.prepared)).
  { vm_compute. reflexivity. }
  apply (retried_attempts_then_success Examples.flaky Examples.users GET "/x" None
           Examples.started _ _ _ _ 2 (Examples.reply 200 "OK" "done") (DText "done")
           Hprep).
  - simpl. lia.
  - intros [|[|j]] Hj; [reflexivity | reflexivity | lia].
  - reflexivity.
  - reflexivity.
  - reflexivity.
  - reflexivity.
Defined.

(** ** Objects and their spread *)

Lemma Record_get_assign (obj : Record.t) (key value key' : string) :
  Record.get (Record.assign obj key value) key'
  = if String.eqb key key' then Some value else Record.get obj key'.
Proof.
  unfold Record.get.
  induction obj as [|[k v] obj IH]; simpl.
  - destruct (String.eqb key key'); reflexivity.
  - destruct (String.eqb k key) eqn:Hk; simpl.
    + apply String.eqb_eq in Hk. subst k.
      destruct (String.eqb key key'); reflexivity.
    + destruct (String.eqb k key') eqn:Hk'; [|exact IH].
      apply String.eqb_eq in Hk'. subst k. now rewrite String.eqb_sym, Hk.
Qed.

Lemma Record_keys_assign (obj : Record.t) (key value : string) :
  Record.keys (Record.assign obj key value)
  = if existsb (String.eqb key) (Record.keys obj)
    then Record.keys obj else Record.keys obj ++ [key].
Proof.
  unfold Record.keys.
  induction obj as [|[k v] obj IH]; simpl; [reflexivity|].
  rewrite (String.eqb_sym key k).
  destruct (String.eqb k key) eqn:Hk; simpl.
  - apply String.eqb_eq in Hk. now subst k.
  - rewrite IH. now destruct (existsb _ _).
Qed.

Lemma existsb_eqb_In (key : string) (keys : list string) :
  existsb (String.eqb key) keys = true <-> In key keys.
Proof.
  rewrite existsb_exists. split.
  - intros (k & Hin & Hk). apply String.eqb_eq in Hk. now subst.
  - intros Hin. exists key. split; [exact Hin | apply String.eqb_refl].
Qed.

Lemma Record_get_None (obj : Record.t) (key : string) :
  Record.get obj key = None <-> ~ In key (Record.keys obj).
Proof.
  unfold Record.get, Record.keys.
  induction obj as [|[k v] obj IH]; simpl; [tauto|].
  destruct (String.eqb k key) eqn:Hk.
  - apply String.eqb_eq in Hk. split; [discriminate | intros Hn; exfalso; auto].
  - apply String.eqb_neq in Hk. rewrite IH. tauto.
Qed.

Lemma assign_all_NoDup (source acc : Record.t) :
  List.NoDup (Record.keys acc) -> List.NoDup (Record.keys (Record.assign_all source acc)).
Proof.
  revert acc. induction source as [|[k v] source IH]; intros acc Hnd; simpl; [exact Hnd|].
  apply IH. cbn [fst snd]. rewrite Record_keys_assign.
  destruct (existsb _ _) eqn:Hex; [exact Hnd|].
  apply NoDup_ListNoDup. apply NoDup_app. apply NoDup_ListNoDup in Hnd.
  split; [exact Hnd|]. split; [|apply NoDup_singleton].
  intros x Hx Hx'. apply list_elem_of_In in Hx. apply list_elem_of_singleton in Hx'. subst x.
  apply existsb_eqb_In in Hx. congruence.
Qed.

Lemma assign_all_keys (source acc : Record.t) (key : string) :
  In key (Record.keys (Record.assign_all source acc))
  <-> In key (Record.keys acc) \/ In key (Record.keys source).
Proof.
  revert acc. induction source as [|[k v] source IH]; intros acc; simpl; [tauto|].
  rewrite IH. cbn [fst snd]. rewrite Record_keys_assign.
  destruct (existsb _ _) eqn:Hex.
  - apply existsb_eqb_In in Hex. split; [tauto|].
    intros [Hin | [<- | Hin]]; tauto.
  - rewrite in_app_iff. simpl. tauto.
Qed.

Lemma assign_all_get (source acc : Record.t) (key : string) :
  List.NoDup (Record.keys source) ->
  Record.get (Record.assign_all source acc) key
  = match Record.get source key with
    | Some value => Some value
    | None => Record.get acc key
    end.
Proof.
  revert acc. induction source as [|[k v] source IH]; intros acc Hnd; [reflexivity|].
  simpl in Hnd. apply List.NoDup_cons_iff in Hnd as [Hk Hnd].
  cbn [Record.assign_all fold_left fst snd]. fold (Record.assign_all source (Record.assign acc k v)).
  rewrite IH by exact Hnd. rewrite Record_get_assign.
  unfold Record.get at 3. cbn [find fst snd]. fold (Record.get source key).
  destruct (String.eqb k key) eqn:Hkey.
  - apply String.eqb_eq in Hkey. subst key.
    apply Record_get_None in Hk. now rewrite Hk.
  - unfold Record.get at 2. reflexivity.
Qed.

(** The source objects one after the other: the properties of the
    accumulator keep their places and take the values of the source, and
    the new properties of the source follow in its order. *)
Lemma assign_all_structure (source acc : Record.t) :
  List.NoDup (Record.keys source) ->
  List.NoDup (Record.keys acc) ->
  Record.assign_all source acc
  = List.map (fun kv => (fst kv, default (snd kv) (Record.get source (fst kv)))) acc
    ++ List.filter (fun kv => negb (existsb (String.eqb (fst kv)) (Record.keys acc)))
         source.
Proof.
  revert acc. induction source as [|[k v] source IH]; intros acc Hs Ha.
  { simpl. rewrite app_nil_r. induction acc as [|[k v] acc IHa]; [reflexivity|].
    simpl. f_equal. apply IHa. simpl in Ha. now apply List.NoDup_cons_iff in Ha. }
  simpl in Hs. apply List.NoDup_cons_iff in Hs as [Hk Hs].
  cbn [Record.assign_all fold_left fst snd]. fold (Record.assign_all source (Record.assign acc k v)).
  assert (Ha' : List.NoDup (Record.keys (Record.assign acc k v))).
  { apply (assign_all_NoDup [(k, v)] acc Ha). }
  rewrite IH by assumption. clear IH.
  rewrite Record_keys_assign. cbn [List.filter fst].
  destruct (existsb (String.eqb k) (Record.keys acc)) eqn:Hex; cbn [negb].
  - f_equal.
    clear Ha'. induction acc as [|[k0 v0] acc IHa]; [discriminate|].
    simpl in Ha. apply List.NoDup_cons_iff in Ha as [Hk0 Ha].
    cbn [Record.assign]. destruct (String.eqb k0 k) eqn:Hk0k.
    + apply String.eqb_eq in Hk0k. subst k0. cbn [map fst snd].
      unfold Record.get at 1 3. cbn [find fst snd]. rewrite String.eqb_refl.
      fold (Record.get source k). apply Record_get_None in Hk. rewrite Hk. cbn [default].
      f_equal. apply map_ext_in. intros [k1 v1] Hin. cbn [fst snd].
      unfold Record.get at 2. cbn [find fst snd].
      destruct (String.eqb k k1) eqn:Hk1; [|reflexivity].
      apply String.eqb_eq in Hk1. subst k1. exfalso. apply Hk0.
      apply (in_map fst) in Hin. exact Hin.
    + cbn [map fst snd]. f_equal.
      * unfold Record.get at 2. cbn [find fst snd].
        rewrite String.eqb_sym, Hk0k. reflexivity.
      * apply IHa; [exact Ha|].
        simpl in Hex. rewrite String.eqb_sym, Hk0k in Hex. exact Hex.
  - assert (Hassign : Record.assign acc k v = acc ++ [(k, v)]).
    { clear -Hex. induction acc as [|[k0 v0] acc IHa]; [reflexivity|].
      simpl in Hex. apply orb_false_iff in Hex as [Hk0 Hex].
      cbn [Record.assign]. rewrite String.eqb_sym, Hk0. simpl. f_equal. now apply IHa. }
    rewrite Hassign, map_app, <- app_assoc. cbn [map fst snd app].
    f_equal; [|f_equal].
    + apply map_ext_in. intros [k1 v1] Hin. cbn [fst snd].
      unfold Record.get at 2. cbn [find fst snd].
      destruct (String.eqb k k1) eqn:Hk1; [|reflexivity].
      apply String.eqb_eq in Hk1. subst k1.
      apply (in_map fst) in Hin. cbn [fst] in Hin. apply existsb_eqb_In in Hin.
      unfold Record.keys in Hex. congruence.
    + apply Record_get_None in Hk. now rewrite Hk.
    + apply List.filter_ext_in. intros [k1 v1] Hin. cbn [fst].
      rewrite existsb_app. cbn [existsb].
      rewrite orb_false_r.
      destruct (String.eqb k1 k) eqn:Hk1; [|now rewrite orb_false_r].
      apply String.eqb_eq in Hk1. subst k1. exfalso. apply Hk.
      apply (in_map fst) in Hin. exact Hin.
Qed.

(** [{ ...a, ...b }]: the properties of [a] in their places, with the
    values [b] gives them, and then the other properties of [b]. *)
Lemma spread_structure (a b : Record.t) :
  List.NoDup (Record.keys a) -> List.NoDup (Record.keys b) ->
  Record.spread a b
  = List.map (fun kv => (fst kv, default (snd kv) (Record.get b (fst kv)))) a
    ++ List.filter (fun kv => negb (existsb (String.eqb (fst kv)) (Record.keys a))) b.
Proof.
  intros Ha Hb. unfold Record.spread.
  change (Record.assign_all b (Record.assign_all a []) = List.map
            (fun kv => (fst kv, default (snd kv) (Record.get b (fst kv)))) a
          ++ List.filter (fun kv => negb (existsb (String.eqb (fst kv)) (Record.keys a))) b).
  assert (Hself : Record.assign_all a [] = a).
  { rewrite assign_all_structure by (assumption || constructor).
    cbn [map app Record.keys existsb negb]. clear.
    induction a as [|kv a IH]; [reflexivity|]. simpl. now f_equal. }
  rewrite Hself. now apply assign_all_structure.
Qed.

Lemma spread_NoDup (a b : Record.t) : List.NoDup (Record.keys (Record.spread a b)).
Proof.
  unfold Record.spread. apply (assign_all_NoDup b), (assign_all_NoDup a). constructor.
Qed.

Lemma spread_keys (a b : Record.t) (key : string) :
  In key (Record.keys (Record.spread a b))
  <-> In key (Record.keys a) \/ In key (Record.keys b).
Proof.
  unfold Record.spread.
  rewrite (assign_all_keys b), (assign_all_keys a). simpl. tauto.
Qed.

Lemma spread_get (a b : Record.t) (key : string) :
  List.NoDup (Record.keys a) -> List.NoDup (Record.keys b) ->
  Record.get (Record.spread a b) key
  = match Record.get b key with
    | Some value => Some value
    | None => Record.get a key
    end.
Proof.
  intros Ha Hb. unfold Record.spread.
  rewrite (assign_all_get b) by exact Hb. rewrite (assign_all_get a) by exact Ha.
  destruct (Record.get b key); [reflexivity|]. now destruct (Record.get a key).
Qed.

(** ** Header lists built from objects *)

Lemma of_record_acc (record : Record.t) (acc hdrs : Headers.t) :
  Headers.of_record record acc = Some hdrs ->
  hdrs = acc ++ List.map header_of record.
Proof.
  revert acc. induction record as [|[k v] record IH]; intros acc; simpl.
  - intros [= <-]. now rewrite app_nil_r.
  - unfold Headers.append, Headers.checked.
    destruct (Headers.valid_name k && Headers.valid_value (Headers.normalize v));
      [|discriminate].
    intros Hrec. apply IH in Hrec. rewrite Hrec, <- app_assoc. reflexivity.
Qed.

Lemma of_record_headers (record : Record.t) (hdrs : Headers.t) :
  Headers.of_record record [] = Some hdrs -> hdrs = List.map header_of record.
Proof. apply of_record_acc. Qed.

Lemma filter_header_of (name : string) (record : Record.t) :
  List.filter (Headers.same_name name) (List.map header_of record)
  = List.map header_of (List.filter (fun kv => names name (fst kv)) record).
Proof.
  induction record as [|[k v] record IH]; [reflexivity|].
  cbn [List.map List.filter]. unfold Headers.same_name at 1, names at 1.
  cbn [header_of fst snd].
  destruct (String.eqb (Str.toLowerCase k) (Str.toLowerCase name)); cbn [List.map];
    now rewrite IH.
Qed.

Lemma filter_keys_none (p : string -> bool) (record : Record.t) :
  (forall key, In key (Record.keys record) -> p key = false) ->
  List.filter (fun kv => p (fst kv)) record = [].
Proof.
  induction record as [|[k v] record IH]; intros Hnone; [reflexivity|].
  cbn [List.filter fst]. rewrite (Hnone k) by now left.
  apply IH. intros key Hin. apply Hnone. now right.
Qed.

Lemma filter_keys_unique (p : string -> bool) (record : Record.t) (key value : string) :
  List.NoDup (Record.keys record) ->
  Record.get record key = Some value ->
  p key = true ->
  (forall key', In key' (Record.keys record) -> p key' = true -> key' = key) ->
  List.filter (fun kv => p (fst kv)) record = [(key, value)].
Proof.
  induction record as [|[k v] record IH]; intros Hnd Hget Hp Huniq; [discriminate|].
  simpl in Hnd. apply List.NoDup_cons_iff in Hnd as [Hk Hnd].
  unfold Record.get in Hget. cbn [find fst snd] in Hget. cbn [List.filter fst].
  destruct (String.eqb k key) eqn:Hkey.
  - apply String.eqb_eq in Hkey. subst k. injection Hget as ->. rewrite Hp. f_equal.
    apply filter_keys_none. intros key' Hin.
    destruct (p key') eqn:Hp'; [|reflexivity].
    exfalso. apply Hk. rewrite <- (Huniq key'); [exact Hin | now right | exact Hp'].
  - destruct (p k) eqn:Hpk.
    + apply String.eqb_neq in Hkey. exfalso. apply Hkey. apply Huniq; [now left | exact Hpk].
    + apply IH; [exact Hnd | exact Hget | exact Hp |].
      intros key' Hin. apply Huniq. now right.
Qed.

Lemma names_refl (name : string) : names name name = true.
Proof. apply String.eqb_refl. Qed.

(** The header built from the one property that names it. *)
Lemma of_record_get_unique (record : Record.t) (hdrs : Headers.t)
    (name key value : string) :
  Headers.of_record record [] = Some hdrs ->
  List.NoDup (Record.keys record) ->
  Record.get record key = Some value ->
  names name key = true ->
  (forall key', In key' (Record.keys record) -> names name key' = true -> key' = key) ->
  Headers.get hdrs name = Some (Headers.normalize value).
Proof.
  intros Hrec Hnd Hget Hname Huniq. apply of_record_headers in Hrec. subst hdrs.
  unfold Headers.get. rewrite filter_header_of.
  rewrite (filter_keys_unique (names name) record key value) by assumption.
  reflexivity.
Qed.

(** No header is built under a name that no property has. *)
Lemma of_record_get_none (record : Record.t) (hdrs : Headers.t) (name : string) :
  Headers.of_record record [] = Some hdrs ->
  (forall key, In key (Record.keys record) -> names name key = false) ->
  Headers.get hdrs name = None.
Proof.
  intros Hrec Hnone. apply of_record_headers in Hrec. subst hdrs.
  unfold Headers.get. rewrite filter_header_of.
  now rewrite (filter_keys_none (names name) record) by assumption.
Qed.

Lemma of_record_get_some (record : Record.t) (hdrs : Headers.t) (name key : string) :
  Headers.of_record record [] = Some hdrs ->
  In key (Record.keys record) ->
  names name key = true ->
  Headers.get hdrs name <> None.
Proof.
  intros Hrec Hin Hname. apply of_record_headers in Hrec. subst hdrs.
  unfold Headers.get. rewrite filter_header_of.
  induction record as [|[k v] record IH]; [destruct Hin|].
  cbn [List.filter fst]. destruct (names name k) eqn:Hk.
  - cbn [List.map]. discriminate.
  - apply IH. destruct Hin as [Hin | Hin]; [|exact Hin].
    cbn [fst] in Hin. subst k. congruence.
Qed.

Lemma get_has (hdrs : Headers.t) (name : string) :
  Headers.get hdrs name <> None -> Headers.has hdrs name = true.
Proof.
  unfold Headers.has, Headers.get.
  induction hdrs as [|h hdrs IH]; simpl; [congruence|].
  destruct (Headers.same_name name h); simpl; [reflexivity | exact IH].
Qed.

Lemma has_false_get (hdrs : Headers.t) (name : string) :
  Headers.has hdrs name = false -> Headers.get hdrs name = None.
Proof.
  intros Hhas. destruct (Headers.get hdrs name) eqn:Hget; [|reflexivity].
  rewrite get_has in Hhas; [discriminate | congruence].
Qed.

Lemma get_same_name (hdrs : Headers.t) (name name' : string) :
  Str.toLowerCase name = Str.toLowerCase name' ->
  Headers.get hdrs name = Headers.get hdrs name'.
Proof. intros Heq. unfold Headers.get, Headers.same_name. now rewrite Heq. Qed.

Lemma has_same_name (hdrs : Headers.t) (name name' : string) :
  Str.toLowerCase name = Str.toLowerCase name' ->
  Headers.has hdrs name = Headers.has hdrs name'.
Proof. intros Heq. unfold Headers.has, Headers.same_name. now rewrite Heq. Qed.

Lemma has_set_other (hdrs hdrs' : Headers.t) (name name' value : string) :
  Str.toLowerCase name <> Str.toLowerCase name' ->
  Headers.set hdrs name value = Some hdrs' ->
  Headers.has hdrs' name' = Headers.has hdrs name'.
Proof.
  intros Hne Hset. pose proof (get_set_other _ _ _ _ _ Hne Hset) as Hget.
  destruct (Headers.has hdrs name') eqn:Hhas.
  - apply get_has. rewrite Hget. now apply has_get.
  - destruct (Headers.has hdrs' name') eqn:Hhas'; [|reflexivity].
    apply has_get in Hhas'. apply has_false_get in Hhas. congruence.
Qed.

(** ** The headers of a call *)

Section HeaderValues.

Context `{Platform} (env : Env) (this : HttpClient).

(** The value of every header of a call, from the header list built from
    the merged record: the bearer token comes first, then what the record
    gives, then the request id and the content type the client adds. *)
Lemma buildHeaders_get (init : RequestInitEx) (s s' : State) (hdrs : Headers.t) :
  buildHeaders env this init s = (Ok hdrs, s') ->
  exists hdrs0,
    Headers.of_record
      (Record.spread (read_record s (defaultHeaders this))
         (default [] (init_headers init))) [] = Some hdrs0
    /\ (Headers.has hdrs0 "x-request-id" = true -> s' = s)
    /\ forall name,
         Headers.get hdrs name
         = if names "Authorization" name
              && match init_authToken init with
                 | Some token => negb (String.eqb token "")
                 | None => false
                 end
           then Some (Headers.normalize ("Bearer " +:+ default "" (init_authToken init)))
           else match Headers.get hdrs0 name with
                | Some value => Some value
                | None =>
                    if names "x-request-id" name
                    then Some (Headers.normalize (uuid env (issued s)))
                    else if names "Content-Type" name
                            && bool_decide (is_Some (init_json init))
                         then Some "application/json"
                         else None
                end.
Proof.
  intros Hrun.
  apply buildHeaders_Ok in Hrun as (hdrs0 & hdrs1 & hdrs2 & Hrec & Hid & Hauth & Hct).
  exists hdrs0. split; [exact Hrec|]. split.
  { intros Hhas. rewrite Hhas in Hid. tauto. }
  intros name.
  (* the request id *)
  assert (H1 : Headers.get hdrs1 name
               = match Headers.get hdrs0 name with
                 | Some value => Some value
                 | None => if names "x-request-id" name
                           then Some (Headers.normalize (uuid env (issued s)))
                           else None
                 end).
  { destruct (Headers.has hdrs0 "x-request-id") eqn:Hhas.
    - destruct Hid as [-> _]. destruct (Headers.get hdrs0 name) eqn:Hget; [reflexivity|].
      destruct (names "x-request-id" name) eqn:Hn; [|reflexivity].
      apply String.eqb_eq in Hn. rewrite (has_same_name _ _ name) in Hhas by now symmetry.
      apply has_get in Hhas. congruence.
    - destruct Hid as [Hset _]. destruct (names "x-request-id" name) eqn:Hn.
      + apply String.eqb_eq in Hn.
        rewrite (get_same_name hdrs1 name "x-request-id") by exact Hn.
        rewrite (get_same_name hdrs0 name "x-request-id") by exact Hn.
        rewrite (has_false_get _ _ Hhas). now apply get_set_same in Hset.
      + apply String.eqb_neq in Hn.
        rewrite (get_set_other _ _ _ name _ (fun Heq => Hn (eq_sym Heq)) Hset).
        now destruct (Headers.get hdrs0 name). }
  (* the bearer token *)
  assert (H2 : Headers.get hdrs2 name
               = if names "Authorization" name
                    && match init_authToken init with
                       | Some token => negb (String.eqb token "")
                       | None => false
                       end
                 then Some (Headers.normalize
                              ("Bearer " +:+ default "" (init_authToken init)))
                 else Headers.get hdrs1 name).
  { destruct (init_authToken init) as [token|]; [|subst; now rewrite andb_false_r].
    destruct (String.eqb token ""); cbn [negb]; [subst; now rewrite andb_false_r|].
    rewrite andb_true_r. cbn [default]. destruct (names "Authorization" name) eqn:Hn.
    - apply String.eqb_eq in Hn.
      rewrite (get_same_name hdrs2 name "Authorization") by exact Hn.
      now apply get_set_same in Hauth.
    - apply String.eqb_neq in Hn.
      now rewrite (get_set_other _ _ _ name _ (fun Heq => Hn (eq_sym Heq)) Hauth). }
  assert (Hhas2 : Headers.has hdrs2 "Content-Type" = Headers.has hdrs0 "Content-Type").
  { transitivity (Headers.has hdrs1 "Content-Type").
    - destruct (init_authToken init) as [token|]; [|now subst].
      destruct (String.eqb token ""); [now subst|].
      eapply has_set_other; [|exact Hauth]. discriminate.
    - destruct (Headers.has hdrs0 "x-request-id"); [now destruct Hid as [-> _]|].
      destruct Hid as [Hset _]. eapply has_set_other; [|exact Hset]. discriminate. }
  (* the content type *)
  assert (H3 : Headers.get hdrs name
               = if names "Content-Type" name
                    && (bool_decide (is_Some (init_json init))
                        && negb (Headers.has hdrs0 "Content-Type"))
                 then Some "application/json"
                 else Headers.get hdrs2 name).
  { rewrite Hhas2 in Hct.
    destruct (bool_decide (is_Some (init_json init))
              && negb (Headers.has hdrs0 "Content-Type"));
      [|subst; now rewrite andb_false_r].
    rewrite andb_true_r. destruct (names "Content-Type" name) eqn:Hn.
    - apply String.eqb_eq in Hn.
      rewrite (get_same_name hdrs name "Content-Type") by exact Hn.
      now apply get_set_same in Hct.
    - apply String.eqb_neq in Hn.
      now rewrite (get_set_other _ _ _ name _ (fun Heq => Hn (eq_sym Heq)) Hct). }
  rewrite H3, H2, H1. clear H1 H2 H3 Hid Hauth Hct Hhas2.
  destruct (names "Content-Type" name) eqn:Hct; cbn [andb].
  - assert (Hauth : names "Authorization" name = false).
    { apply String.eqb_eq in Hct. apply String.eqb_neq. rewrite Hct. discriminate. }
    assert (Hid : names "x-request-id" name = false).
    { apply String.eqb_eq in Hct. apply String.eqb_neq. rewrite Hct. discriminate. }
    rewrite Hauth, Hid. cbn [andb].
    apply String.eqb_eq in Hct.
    rewrite (has_same_name hdrs0 "Content-Type" name) by now symmetry.
    destruct (Headers.get hdrs0 name) eqn:Hget.
    + rewrite get_has by congruence. now rewrite andb_false_r.
    + destruct (Headers.has hdrs0 name) eqn:Hhas.
      * apply has_get in Hhas. congruence.
      * now rewrite andb_true_r.
  - reflexivity.
Qed.

End HeaderValues.

(** Keys that are pairwise distinct, for a given list of keys. *)
Ltac distinct_keys :=
  repeat (apply List.NoDup_cons; [simpl; intuition discriminate|]); apply List.NoDup_nil.

Section MergedFacts.

Context `{Platform} (env : Env) (this : HttpClient).

Lemma names_eq (name key : string) :
  names name key = true <-> Str.toLowerCase key = Str.toLowerCase name.
Proof. apply String.eqb_eq. Qed.

Lemma names_neq (name key : string) :
  names name key = false <-> Str.toLowerCase key <> Str.toLowerCase name.
Proof. apply String.eqb_neq. Qed.

(** The header that the one property naming it gives, in the headers built
    from [{ ...defaults, ...call }]. *)
Lemma merged_get_unique (defaults call : Record.t) (hdrs0 : Headers.t)
    (name key : string) :
  Headers.of_record (Record.spread defaults call) [] = Some hdrs0 ->
  List.NoDup (Record.keys defaults) ->
  List.NoDup (Record.keys call) ->
  Str.toLowerCase key = Str.toLowerCase name ->
  (forall key', In key' (Record.keys defaults) \/ In key' (Record.keys call) ->
                Str.toLowerCase key' = Str.toLowerCase name -> key' = key) ->
  Headers.get hdrs0 name
  = match match Record.get call key with
          | Some value => Some value
          | None => Record.get defaults key
          end with
    | Some value => Some (Headers.normalize value)
    | None => None
    end.
Proof.
  intros Hrec Hd Hc Hname Huniq.
  pose proof (spread_get defaults call key Hd Hc) as Hget.
  destruct (match Record.get call key with
            | Some value => Some value
            | None => Record.get defaults key
            end) as [value|] eqn:Hlookup.
  - eapply of_record_get_unique; [exact Hrec | apply spread_NoDup | exact Hget | |].
    + now apply names_eq.
    + intros key' Hin Hn. apply Huniq; [now apply spread_keys | now apply names_eq].
  - eapply of_record_get_none; [exact Hrec|].
    intros key' Hin. destruct (names name key') eqn:Hn; [|reflexivity].
    apply spread_keys in Hin. apply names_eq in Hn.
    rewrite (Huniq key' Hin Hn) in Hin. apply spread_keys in Hin.
    apply Record_get_None in Hget. contradiction.
Qed.

Lemma merged_get_none (defaults call : Record.t) (hdrs0 : Headers.t) (name : string) :
  Headers.of_record (Record.spread defaults call) [] = Some hdrs0 ->
  (forall key, In key (Record.keys defaults) \/ In key (Record.keys call) ->
               Str.toLowerCase key <> Str.toLowerCase name) ->
  Headers.get hdrs0 name = None.
Proof.
  intros Hrec Hnone. eapply of_record_get_none; [exact Hrec|].
  intros key Hin. apply names_neq. apply Hnone. now apply spread_keys.
Qed.

Lemma merged_get_some (defaults call : Record.t) (hdrs0 : Headers.t) (name key : string) :
  Headers.of_record (Record.spread defaults call) [] = Some hdrs0 ->
  In key (Record.keys defaults) \/ In key (Record.keys call) ->
  Str.toLowerCase key = Str.toLowerCase name ->
  Headers.get hdrs0 name <> None.
Proof.
  intros Hrec Hin Hname. eapply of_record_get_some; [exact Hrec | | apply names_eq, Hname].
  now apply spread_keys.
Qed.

End MergedFacts.

(** ** The request id of the caller *)

Section X12.

Context `{Platform} (env : Env) (this : HttpClient).

(** X12.  When the default headers or the headers of the call hold a
    request id, under a key that is [x-request-id] in any letter case,
    header construction calls [randomUUID()] not at all and leaves the
    state as it is; the [x-request-id] header sent is what the merged
    headers give: the value supplied, the one of the call before the one
    of the defaults, when one key names it. *)
Theorem supplied_request_id_is_kept (init : RequestInitEx) (s s' : State)
    (hdrs : Headers.t) (key : string) :
  let defaults := read_record s (defaultHeaders this) in
  let call := default [] (init_headers init) in
  buildHeaders env this init s = (Ok hdrs, s') ->
  In key (Record.keys defaults) \/ In key (Record.keys call) ->
  Str.toLowerCase key = "x-request-id" ->
  s' = s
  /\ (exists hdrs0,
        Headers.of_record (Record.spread defaults call) [] = Some hdrs0
        /\ Headers.get hdrs0 "x-request-id" <> None
        /\ Headers.get hdrs "x-request-id" = Headers.get hdrs0 "x-request-id")
  /\ (List.NoDup (Record.keys defaults) ->
      List.NoDup (Record.keys call) ->
      (forall key', In key' (Record.keys defaults) \/ In key' (Record.keys call) ->
                    Str.toLowerCase key' = "x-request-id" -> key' = key) ->
      exists value,
        match Record.get call key with
        | Some v => Some v
        | None => Record.get defaults key
        end = Some value
        /\ Headers.get hdrs "x-request-id" = Some (Headers.normalize value)).
Proof.
  cbv zeta. intros Hrun Hin Hkey.
  apply buildHeaders_get in Hrun as (hdrs0 & Hrec & Hquiet & Hget).
  pose proof (merged_get_some _ _ _ "x-request-id" key Hrec Hin Hkey) as Hsome.
  split; [apply Hquiet, get_has, Hsome|].
  assert (Hsame : Headers.get hdrs "x-request-id" = Headers.get hdrs0 "x-request-id").
  { rewrite Hget. change (names "Authorization" "x-request-id") with false. cbn [andb].
    destruct (Headers.get hdrs0 "x-request-id"); [reflexivity | congruence]. }
  split; [now exists hdrs0|].
  intros Hd Hc Huniq.
  pose proof (merged_get_unique _ _ _ "x-request-id" key Hrec Hd Hc Hkey Huniq) as Hvalue.
  rewrite Hvalue in Hsome.
  destruct (match Record.get (default [] (init_headers init)) key with
            | Some v => Some v
            | None => Record.get (read_record s (defaultHeaders this)) key
            end) as [value|]; [|congruence].
  exists value. split; [reflexivity|].
  now rewrite Hsame, Hvalue.
Qed.

End X12.

Lemma supplied_request_id_is_kept_witness :
  let client := Examples.caller_client 2 in
  let s := Examples.constructed [503] [("X-Request-Id", "default-id"); ("X-Env", "prod")] in
  let env := Examples.always (Failed Examples.abort_error) in
  let init := Examples.with_headers [("X-Request-Id", "call-id ")] None in
  let hdrs := [("x-request-id", "call-id"); ("x-env", "prod")] in
  buildHeaders env client init s = (Ok hdrs, s)
  /\ Headers.get hdrs "x-request-id" = Some "call-id".
Proof.
  cbv zeta.
  assert (Hrun : buildHeaders (Examples.always (Failed Examples.abort_error))
                   (Examples.caller_client 2)
                   (Examples.with_headers [("X-Request-Id", "call-id ")] None)
                   (Examples.constructed [503]
                      [("X-Request-Id", "default-id"); ("X-Env", "prod")])
                 = (Ok [("x-request-id", "call-id"); ("x-env", "prod")],
                    Examples.constructed [503]
                      [("X-Request-Id", "default-id"); ("X-Env", "prod")])).
  { reflexivity. }
  split; [exact Hrun|].
  destruct (supplied_request_id_is_kept _ _ _ _ _ _ "X-Request-Id" Hrun
              (or_intror (or_introl eq_refl)) eq_refl) as (_ & _ & Hvalue).
  destruct Hvalue as (value & Hlookup & Hget).
  - distinct_keys.
  - distinct_keys.
  - intros key' [[<- | [<- | []]] | [<- | []]]; (reflexivity || discriminate).
  - injection Hlookup as <-. exact Hget.
Defined.

(** ** The content type *)

Section X13.

Context `{Platform} (env : Env) (this : HttpClient).

(** X13.  The client sets [Content-Type: application/json] exactly when
    the call has a JSON body and neither the default headers nor the
    headers of the call name a content type, in any letter case.  Without
    a JSON body no content type is added; when a content type is supplied
    the header is what the merged headers give, JSON body or not: the
    value supplied, when one key names it. *)
Theorem content_type_added_for_json_when_missing (init : RequestInitEx) (s s' : State)
    (hdrs : Headers.t) :
  let defaults := read_record s (defaultHeaders this) in
  let call := default [] (init_headers init) in
  buildHeaders env this init s = (Ok hdrs, s') ->
  ((forall key, In key (Record.keys defaults) \/ In key (Record.keys call) ->
                Str.toLowerCase key <> "content-type") ->
   Headers.get hdrs "Content-Type"
   = match init_json init with
     | Some _ => Some "application/json"
     | None => None
     end)
  /\ (forall key,
        In key (Record.keys defaults) \/ In key (Record.keys call) ->
        Str.toLowerCase key = "content-type" ->
        exists hdrs0,
          Headers.of_record (Record.spread defaults call) [] = Some hdrs0
          /\ Headers.get hdrs0 "Content-Type" <> None
          /\ Headers.get hdrs "Content-Type" = Headers.get hdrs0 "Content-Type")
  /\ (forall key value,
        List.NoDup (Record.keys defaults) ->
        List.NoDup (Record.keys call) ->
        Str.toLowerCase key = "content-type" ->
        (forall key', In key' (Record.keys defaults) \/ In key' (Record.keys call) ->
                      Str.toLowerCase key' = "content-type" -> key' = key) ->
        match Record.get call key with
        | Some v => Some v
        | None => Record.get defaults key
        end = Some value ->
        Headers.get hdrs "Content-Type" = Some (Headers.normalize value)).
Proof.
  cbv zeta. intros Hrun.
  apply buildHeaders_get in Hrun as (hdrs0 & Hrec & _ & Hget).
  specialize (Hget "Content-Type").
  change (names "Authorization" "Content-Type") with false in Hget.
  change (names "x-request-id" "Content-Type") with false in Hget.
  change (names "Content-Type" "Content-Type") with true in Hget.
  cbn [andb] in Hget.
  split; [|split].
  - intros Hmissing.
    rewrite (merged_get_none _ _ _ "Content-Type" Hrec Hmissing) in Hget.
    rewrite Hget. destruct (init_json init) as [v|]; [|reflexivity].
    rewrite bool_decide_eq_true_2 by now exists v. reflexivity.
  - intros key Hin Hkey. exists hdrs0.
    pose proof (merged_get_some _ _ _ "Content-Type" key Hrec Hin Hkey) as Hsome.
    split; [exact Hrec|]. split; [exact Hsome|].
    rewrite Hget. destruct (Headers.get hdrs0 "Content-Type"); [reflexivity | congruence].
  - intros key value Hd Hc Hkey Huniq Hlookup.
    rewrite (merged_get_unique _ _ _ "Content-Type" key Hrec Hd Hc Hkey Huniq) in Hget.
    now rewrite Hlookup in Hget.
Qed.

End X13.

Lemma content_type_added_for_json_when_missing_witness :
  let client := Examples.caller_client 2 in
  let s := Examples.constructed [503] [("X-Env", "prod")] in
  let env := Examples.always (Failed Examples.abort_error) in
  let json := Examples.with_headers [] (Some 7) in
  let text := Examples.with_headers [("content-type", "text/plain")] (Some 7) in
  let hdrs := [("x-env", "prod"); ("x-request-id", Examples.request_id);
               ("content-type", "application/json")] in
  let hdrs' := [("x-env", "prod"); ("content-type", "text/plain");
                ("x-request-id", Examples.request_id)] in
  fst (buildHeaders env client json s) = Ok hdrs
  /\ Headers.get hdrs "Content-Type" = Some "application/json"
  /\ fst (buildHeaders env client text s) = Ok hdrs'
  /\ Headers.get hdrs' "Content-Type" = Some "text/plain".
Proof.
  cbv zeta.
  assert (Hjson : buildHeaders (Examples.always (Failed Examples.abort_error))
                    (Examples.caller_client 2) (Examples.with_headers [] (Some 7))
                    (Examples.constructed [503] [("X-Env", "prod")])
                  = (Ok [("x-env", "prod"); ("x-request-id", Examples.request_id);
                         ("content-type", "application/json")],
                     snd (buildHeaders (Examples.always (Failed Examples.abort_error))
                            (Examples.caller_client 2) (Examples.with_headers [] (Some 7))
                            (Examples.constructed [503] [("X-Env", "prod")])))).
  { reflexivity. }
  assert (Htext : buildHeaders (Examples.always (Failed Examples.abort_error))
                    (Examples.caller_client 2)
                    (Examples.with_headers [("content-type", "text/plain")] (Some 7))
                    (Examples.constructed [503] [("X-Env", "prod")])
                  = (Ok [("x-env", "prod"); ("content-type", "text/plain");
                         ("x-request-id", Examples.request_id)],
                     snd (buildHeaders (Examples.always (Failed Examples.abort_error))
                            (Examples.caller_client 2)
                            (Examples.with_headers [("content-type", "text/plain")] (Some 7))
                            (Examples.constructed [503] [("X-Env", "prod")])))).
  { reflexivity. }
  split; [now rewrite Hjson|]. split; [|split; [now rewrite Htext|]].
  - apply (proj1 (content_type_added_for_json_when_missing _ _ _ _ _ _ Hjson)).
    intros key [[<- | []] | []]. discriminate.
  - apply (proj2 (proj2 (content_type_added_for_json_when_missing _ _ _ _ _ _ Htext))
             "content-type" "text/plain").
    + distinct_keys.
    + distinct_keys.
    + reflexivity.
    + intros key' [[<- | []] | [<- | []]]; (reflexivity || discriminate).
    + reflexivity.
Defined.

(** ** Headers of the call and default headers *)

Section X14.

Context `{Platform} (env : Env) (this : HttpClient).

(** X14.  The headers of a call are laid over the default headers key by
    key: for a key that no other key of the two objects matches in another
    letter case, the header sent is the value the call gives, else the
    value the defaults give, with surrounding whitespace removed.  Besides
    the request id, the content type and the bearer token, the client adds
    no header of its own.  (An [Authorization] key is looked at here only
    for a call without a token.) *)
Theorem call_headers_override_defaults (init : RequestInitEx) (s s' : State)
    (hdrs : Headers.t) (key : string) :
  let defaults := read_record s (defaultHeaders this) in
  let call := default [] (init_headers init) in
  buildHeaders env this init s = (Ok hdrs, s') ->
  List.NoDup (Record.keys defaults) ->
  List.NoDup (Record.keys call) ->
  (forall key', In key' (Record.keys defaults) \/ In key' (Record.keys call) ->
                Str.toLowerCase key' = Str.toLowerCase key -> key' = key) ->
  (Str.toLowerCase key = "authorization" ->
   init_authToken init = None \/ init_authToken init = Some "") ->
  (forall value,
      Record.get call key = Some value ->
      Headers.get hdrs key = Some (Headers.normalize value))
  /\ (forall value,
        Record.get call key = None ->
        Record.get defaults key = Some value ->
        Headers.get hdrs key = Some (Headers.normalize value))
  /\ (Record.get call key = None ->
      Record.get defaults key = None ->
      Str.toLowerCase key <> "x-request-id" ->
      Str.toLowerCase key <> "content-type" ->
      Headers.get hdrs key = None).
Proof.
  cbv zeta. intros Hrun Hd Hc Huniq Htoken.
  apply buildHeaders_get in Hrun as (hdrs0 & Hrec & _ & Hget).
  pose proof (merged_get_unique _ _ _ key key Hrec Hd Hc eq_refl Huniq) as Hvalue.
  specialize (Hget key).
  assert (Hauth : names "Authorization" key
                  && match init_authToken init with
                     | Some token => negb (String.eqb token "")
                     | None => false
                     end = false).
  { destruct (names "Authorization" key) eqn:Hn; [|reflexivity].
    apply names_eq in Hn. destruct (Htoken Hn) as [-> | ->]; reflexivity. }
  rewrite Hauth, Hvalue in Hget. clear Hauth Hvalue.
  split; [|split].
  - intros value Hcall. now rewrite Hcall in Hget.
  - intros value Hcall Hdef. now rewrite Hcall, Hdef in Hget.
  - intros Hcall Hdef Hid Hct. rewrite Hcall, Hdef in Hget.
    apply (names_neq "x-request-id") in Hid. apply (names_neq "Content-Type") in Hct.
    now rewrite Hid, Hct in Hget.
Qed.

End X14.

Lemma call_headers_override_defaults_witness :
  let client := Examples.caller_client 2 in
  let s := Examples.constructed [503] [("Accept", "text/html"); ("X-Env", "prod")] in
  let env := Examples.always (Failed Examples.abort_error) in
  let init := Examples.with_headers [("Accept", " application/json ")] None in
  let hdrs := [("accept", "application/json"); ("x-env", "prod");
               ("x-request-id", Examples.request_id)] in
  fst (buildHeaders env client init s) = Ok hdrs
  /\ Headers.get hdrs "Accept" = Some "application/json"
  /\ Headers.get hdrs "X-Env" = Some "prod"
  /\ Headers.get hdrs "X-Other" = None.
Proof.
  cbv zeta.
  assert (Hrun : buildHeaders (Examples.always (Failed Examples.abort_error))
                   (Examples.caller_client 2)
                   (Examples.with_headers [("Accept", " application/json ")] None)
                   (Examples.constructed [503] [("Accept", "text/html"); ("X-Env", "prod")])
                 = (Ok [("accept", "application/json"); ("x-env", "prod");
                        ("x-request-id", Examples.request_id)],
                    snd (buildHeaders (Examples.always (Failed Examples.abort_error))
                           (Examples.caller_client 2)
                           (Examples.with_headers [("Accept", " application/json ")] None)
                           (Examples.constructed [503]
                              [("Accept", "text/html"); ("X-Env", "prod")])))).
  { reflexivity. }
  assert (Hd : List.NoDup (Record.keys [("Accept", "text/html"); ("X-Env", "prod")])).
  { distinct_keys. }
  assert (Hc : List.NoDup (Record.keys [("Accept", " application/json ")])).
  { distinct_keys. }
  split; [now rewrite Hrun|].
  split; [|split].
  - refine (proj1 (call_headers_override_defaults _ _ _ _ _ _ "Accept" Hrun Hd Hc _ _)
              " application/json " eq_refl).
    + intros key' [[<- | [<- | []]] | [<- | []]]; (reflexivity || discriminate).
    + discriminate.
  - refine (proj1 (proj2 (call_headers_override_defaults _ _ _ _ _ _ "X-Env" Hrun Hd Hc _ _))
              "prod" eq_refl eq_refl).
    + intros key' [[<- | [<- | []]] | [<- | []]]; (reflexivity || discriminate).
    + discriminate.
  - refine (proj2 (proj2 (call_headers_override_defaults _ _ _ _ _ _ "X-Other" Hrun Hd Hc _ _))
              eq_refl eq_refl _ _); try discriminate.
    intros key' [[<- | [<- | []]] | [<- | []]]; discriminate.
Defined.

(** ** Keys that differ by letter case *)

Lemma filter_comm {A} (f g : A -> bool) (l : list A) :
  List.filter f (List.filter g l) = List.filter g (List.filter f l).
Proof.
  induction l as [|x l IH]; [reflexivity|]. simpl.
  destruct (g x) eqn:Hg, (f x) eqn:Hf; simpl; rewrite ?Hg, ?Hf, IH; reflexivity.
Qed.

Lemma filter_map_value {B} (p : string -> bool) (f : string * B -> B)
    (l : list (string * B)) :
  List.filter (fun kv => p (fst kv)) (List.map (fun kv => (fst kv, f kv)) l)
  = List.map (fun kv => (fst kv, f kv)) (List.filter (fun kv => p (fst kv)) l).
Proof.
  induction l as [|[k v] l IH]; [reflexivity|]. cbn [List.map List.filter fst].
  destruct (p k); cbn [List.map]; now rewrite IH.
Qed.

(** A default and a header of the call whose keys differ by letter case
    only give two headers of one name, the default first. *)
Lemma merged_get_pair (defaults call : Record.t) (hdrs0 : Headers.t)
    (key1 key2 value1 value2 : string) :
  Headers.of_record (Record.spread defaults call) [] = Some hdrs0 ->
  List.NoDup (Record.keys defaults) ->
  List.NoDup (Record.keys call) ->
  Record.get defaults key1 = Some value1 ->
  Record.get call key2 = Some value2 ->
  Record.get call key1 = None ->
  Record.get defaults key2 = None ->
  Str.toLowerCase key2 = Str.toLowerCase key1 ->
  (forall key', In key' (Record.keys defaults) \/ In key' (Record.keys call) ->
                Str.toLowerCase key' = Str.toLowerCase key1 ->
                key' = key1 \/ key' = key2) ->
  Headers.get hdrs0 key1
  = Some (Headers.normalize value1 +:+ ", " +:+ Headers.normalize value2).
Proof.
  intros Hrec Hd Hc Hget1 Hget2 Hnone1 Hnone2 Hcase Huniq.
  apply of_record_headers in Hrec. subst hdrs0.
  unfold Headers.get. rewrite filter_header_of.
  rewrite spread_structure by assumption.
  rewrite List.filter_app.
  rewrite (filter_map_value (names key1)
             (fun kv => default (snd kv) (Record.get call (fst kv)))).
  rewrite (filter_keys_unique (names key1) defaults key1 value1); try assumption.
  2:{ apply names_refl. }
  2:{ intros key' Hin Hn. apply names_eq in Hn.
      destruct (Huniq key' (or_introl Hin) Hn) as [-> | ->]; [reflexivity|].
      apply Record_get_None in Hnone2. contradiction. }
  rewrite filter_comm.
  rewrite (filter_keys_unique (names key1) call key2 value2); try assumption.
  2:{ now apply names_eq. }
  2:{ intros key' Hin Hn. apply names_eq in Hn.
      destruct (Huniq key' (or_intror Hin) Hn) as [-> | ->]; [|reflexivity].
      apply Record_get_None in Hnone1. contradiction. }
  cbn [List.map List.filter fst snd]. rewrite Hnone1.
  replace (existsb (String.eqb key2) (Record.keys defaults)) with false.
  2:{ symmetry. apply not_true_is_false. intros Hex. apply existsb_eqb_In in Hex.
      apply Record_get_None in Hnone2. contradiction. }
  reflexivity.
Qed.

Section X15.

Context `{Platform} (env : Env) (this : HttpClient).

(** X15.  A header of the call does not replace a default whose key
    differs from its own by letter case: the object spread keeps both
    properties, and the header list combines them.  The header sent is
    the two values, the default first, joined by a comma and a space. *)
Theorem case_variant_headers_are_combined (init : RequestInitEx) (s s' : State)
    (hdrs : Headers.t) (key1 key2 value1 value2 : string) :
  let defaults := read_record s (defaultHeaders this) in
  let call := default [] (init_headers init) in
  buildHeaders env this init s = (Ok hdrs, s') ->
  List.NoDup (Record.keys defaults) ->
  List.NoDup (Record.keys call) ->
  Record.get defaults key1 = Some value1 ->
  Record.get call key2 = Some value2 ->
  Record.get call key1 = None ->
  Record.get defaults key2 = None ->
  Str.toLowerCase key2 = Str.toLowerCase key1 ->
  (forall key', In key' (Record.keys defaults) \/ In key' (Record.keys call) ->
                Str.toLowerCase key' = Str.toLowerCase key1 ->
                key' = key1 \/ key' = key2) ->
  (Str.toLowerCase key1 = "authorization" ->
   init_authToken init = None \/ init_authToken init = Some "") ->
  Headers.get hdrs key1
  = Some (Headers.normalize value1 +:+ ", " +:+ Headers.normalize value2)
  /\ Headers.get hdrs key2 = Headers.get hdrs key1.
Proof.
  cbv zeta. intros Hrun Hd Hc Hget1 Hget2 Hnone1 Hnone2 Hcase Huniq Htoken.
  apply buildHeaders_get in Hrun as (hdrs0 & Hrec & _ & Hget).
  split; [|now apply get_same_name].
  rewrite (Hget key1).
  rewrite (merged_get_pair _ _ _ key1 key2 value1 value2 Hrec) by assumption.
  destruct (names "Authorization" key1) eqn:Hn; [|reflexivity].
  apply names_eq in Hn. destruct (Htoken Hn) as [-> | ->]; reflexivity.
Qed.

End X15.

Lemma case_variant_headers_are_combined_witness :
  let client := Examples.caller_client 2 in
  let s := Examples.constructed [503] [("X-Env", "prod")] in
  let env := Examples.always (Failed Examples.abort_error) in
  let init := Examples.with_headers [("x-env", "test")] None in
  let hdrs := [("x-env", "prod"); ("x-env", "test");
               ("x-request-id", Examples.request_id)] in
  fst (buildHeaders env client init s) = Ok hdrs
  /\ Headers.get hdrs "X-Env" = Some "prod, test".
Proof.
  cbv zeta.
  assert (Hrun : buildHeaders (Examples.always (Failed Examples.abort_error))
                   (Examples.caller_client 2)
                   (Examples.with_headers [("x-env", "test")] None)
                   (Examples.constructed [503] [("X-Env", "prod")])
                 = (Ok [("x-env", "prod"); ("x-env", "test");
                        ("x-request-id", Examples.request_id)],
                    snd (buildHeaders (Examples.always (Failed Examples.abort_error))
                           (Examples.caller_client 2)
                           (Examples.with_headers [("x-env", "test")] None)
                           (Examples.constructed [503] [("X-Env", "prod")])))).
  { reflexivity. }
  split; [now rewrite Hrun|].
  refine (proj1 (case_variant_headers_are_combined _ _ _ _ _ _ "X-Env" "x-env" "prod" "test"
                   Hrun _ _ eq_refl eq_refl eq_refl eq_refl eq_refl _ _)).
  - distinct_keys.
  - distinct_keys.
  - intros key' [[<- | []] | [<- | []]] _; [now left | now right].
  - discriminate.
Defined.

(** ** Calls that cannot be prepared *)

Lemma of_record_valid (record : Record.t) (acc hdrs : Headers.t) :
  Headers.of_record record acc = Some hdrs ->
  forall key value,
    In (key, value) record ->
    Headers.valid_name key = true
    /\ Headers.valid_value (Headers.normalize value) = true.
Proof.
  revert acc. induction record as [|[k v] record IH]; intros acc Hrec key value Hin;
    [destruct Hin|].
  simpl in Hrec. unfold Headers.append, Headers.checked in Hrec.
  destruct (Headers.valid_name k && Headers.valid_value (Headers.normalize v)) eqn:Hvalid;
    [|discriminate].
  destruct Hin as [[= <- <-] | Hin].
  - now apply andb_true_iff in Hvalid.
  - eapply IH; [exact Hrec | exact Hin].
Qed.

Lemma set_valid (hdrs hdrs' : Headers.t) (name value : string) :
  Headers.set hdrs name value = Some hdrs' ->
  Headers.valid_name name = true
  /\ Headers.valid_value (Headers.normalize value) = true.
Proof.
  unfold Headers.set, Headers.checked.
  destruct (Headers.valid_name name && Headers.valid_value (Headers.normalize value))
    eqn:Hvalid; [|discriminate].
  intros _. now apply andb_true_iff in Hvalid.
Qed.

Section X16.

Context `{Platform} (env : Env) (this : HttpClient).

(** X16.  A call whose URL is not accepted by [new URL], one of whose
    headers has a name or a value that [Headers] refuses, whose bearer
    token makes a header value that [Headers] refuses, or for whose JSON
    payload [JSON.stringify] throws, is rejected before the loop is
    entered: no [fetch] is made, no timer is armed, no random number is
    drawn, and nothing is retried.  The rejection is a [TypeError] when
    the URL, a header or the token is the cause; otherwise it is the
    value that [JSON.stringify] threw.  A refused URL leaves the state
    untouched. *)
Theorem unprepared_call_makes_no_attempt (method : HttpMethod) (path : string)
    (init : option RequestInitEx) (s : State) :
  let init_ := default empty_init init in
  let merged := Record.spread (read_record s (defaultHeaders this))
                  (default [] (init_headers init_)) in
  let refused :=
    URL_new (joined this path) = None
    \/ (exists key value,
          In (key, value) merged
          /\ (Headers.valid_name key = false
              \/ Headers.valid_value (Headers.normalize value) = false))
    \/ (exists token,
          init_authToken init_ = Some token /\ token <> ""
          /\ Headers.valid_value (Headers.normalize ("Bearer " +:+ token)) = false) in
  refused \/ (exists v thrown, init_json init_ = Some v /\ JSON_stringify v = Throw thrown) ->
  let s' := snd (request env this method path init s) in
  (exists e,
      fst (request env this method path init s) = Rejected e
      /\ (refused -> instanceof_TypeError e = true)
      /\ (instanceof_TypeError e = true
          \/ exists v, init_json init_ = Some v /\ JSON_stringify v = Throw e))
  /\ fetched s' = fetched s
  /\ drawn s' = drawn s
  /\ next_handle s' = next_handle s
  /\ armed s' = armed s
  /\ heap s' = heap s
  /\ (URL_new (joined this path) = None -> s' = s).
Proof.
  cbv zeta. intros Hcause.
  pose proof (prepare_counters env this path (default empty_init init) s) as Hframe.
  cbv zeta in Hframe.
  assert (Hheaders : forall hdrs s1,
            buildHeaders env this (default empty_init init) s = (Ok hdrs, s1) ->
            (exists key value,
                In (key, value)
                  (Record.spread (read_record s (defaultHeaders this))
                     (default [] (init_headers (default empty_init init))))
                /\ (Headers.valid_name key = false
                    \/ Headers.valid_value (Headers.normalize value) = false))
            \/ (exists token,
                  init_authToken (default empty_init init) = Some token /\ token <> ""
                  /\ Headers.valid_value (Headers.normalize ("Bearer " +:+ token)) = false) ->
            False).
  { intros hdrs s1 Hhdrs Hbad.
    apply buildHeaders_Ok in Hhdrs as (hdrs0 & hdrs1 & hdrs2 & Hrec & _ & Hauth & _).
    destruct Hbad as [(key & value & Hin & Hbad) | (token & Htoken & Hne & Hbad)].
    - destruct (of_record_valid _ _ _ Hrec key value Hin) as [Hname Hvalue].
      destruct Hbad; congruence.
    - rewrite Htoken in Hauth. apply String.eqb_neq in Hne. rewrite Hne in Hauth.
      apply set_valid in Hauth as [_ Hvalue]. congruence. }
  destruct (prepare env this path (default empty_init init) s)
    as [[[[url hdrs] body]|e] s1] eqn:Hprep; cbn [snd] in Hframe.
  - exfalso.
    apply prepare_Ok_inv in Hprep as ((u & Hurl) & Hhdrs & Hbody).
    destruct Hcause as [[Hnone | Hbad] | (v & thrown & Hjson & Hthrow)].
    + congruence.
    + exact (Hheaders _ _ Hhdrs Hbad).
    + rewrite Hjson in Hbody. congruence.
  - rewrite (request_unprepared _ _ _ _ _ _ _ _ Hprep). cbn [fst snd].
    destruct Hframe as (Hheap & Hf & Hd & Hh & Ha & _).
    split.
    { exists e. split; [reflexivity|].
      pose proof (prepare_Throw _ _ _ _ _ _ _ Hprep) as Hthrown.
      split.
      - intros Hrefused.
        destruct Hthrown as [Htype | (v & u & hdrs & _ & _ & Hurl & Hhdrs)];
          [exact Htype|].
        exfalso. destruct Hrefused as [Hnone | Hbad];
          [congruence | exact (Hheaders _ _ Hhdrs Hbad)].
      - destruct Hthrown as [Htype | (v & u & hdrs & Hjson & Hthrow & _)];
          [now left | right; now exists v]. }
    repeat (split; [assumption|]).
    intros Hnone. unfold prepare, buildUrl, bind in Hprep. rewrite Hnone in Hprep.
    cbn in Hprep. congruence.
Qed.

End X16.

Lemma unprepared_call_makes_no_attempt_witness :
  let env := Examples.always (Resolved (Examples.reply 200 "OK" "done")) in
  let run := request env Examples.rootless GET "/x" None Examples.started in
  joined Examples.rootless "/x" = "/x"
  /\ URL_new "/x" = None
  /\ (exists e, fst run = Rejected e /\ instanceof_TypeError e = true)
  /\ fetched (snd run) = 0%nat
  /\ snd run = Examples.started.
Proof.
  cbv zeta.
  assert (Hurl : URL_new (joined Examples.rootless "/x") = None) by reflexivity.
  split; [reflexivity|]. split; [exact Hurl|].
  destruct (unprepared_call_makes_no_attempt
              (Examples.always (Resolved (Examples.reply 200 "OK" "done")))
              Examples.rootless GET "/x" None Examples.started
              (or_introl (or_introl Hurl)))
    as ((e & Hrun & Htype & _) & Hf & _ & _ & _ & _ & Hsame).
  split; [exists e; split; [exact Hrun | exact (Htype (or_introl Hurl))]|].
  split; [exact Hf | exact (Hsame Hurl)].
Defined.

(** ** The platform calls of one attempt *)

Section X17.

Context `{Platform} (env : Env) (this : HttpClient).

(** X17.  The platform calls of one attempt, in order: [setTimeout] for
    the abort timer, [fetch] with the signal of that timer, and
    [clearTimeout] for the abort timer.  In an attempt that is retried the
    backoff comes before the [finally] block: the random number is drawn
    and the sleep timer is set and fires, for the floor of the binary64
    product of line 181, and only then is [clearTimeout] called for the
    abort timer.  An attempt that returns or throws draws no random number
    and sets no other timer. *)
Theorem abort_timer_cleared_after_backoff (method : HttpMethod) (url : string)
    (hdrs : Headers.t) (body : option string) (init : RequestInitEx)
    (maxAttempts attempt : Z) (lastError : option JsError) (s : State) :
  let run := attempt_body env this method url hdrs body init maxAttempts attempt
               lastError s in
  let handle := next_handle s in
  let timeout := match init_timeoutMs init with
                 | Some ms => ms
                 | None => defaultTimeoutMs this
                 end in
  let r := random env (drawn s) in
  let delay := Z.min 4000 (300 * 2 ^ attempt) in
  trace (snd run)
  = trace s
    ++ [EvSetTimeout handle AbortRequest timeout;
        EvFetch url method hdrs body (init_cache init) handle]
    ++ match fst run with
       | Ok (Continue _) =>
           [EvMathRandom r;
            EvSetTimeout (S handle) ResolveSleep
              (Number.floor_of_product (rnd_num r) (rnd_den r) (delay + 1));
            EvTimerFired (S handle)]
       | _ => []
       end
    ++ [EvClearTimeout handle].
Proof.
  cbv zeta. rewrite attempt_body_spec. cbv zeta. cbn [fst snd].
  unfold after_attempt, attempt_events. cbn [trace].
  replace (default (defaultTimeoutMs this) (init_timeoutMs init))
    with (match init_timeoutMs init with
          | Some ms => ms
          | None => defaultTimeoutMs this
          end) by now destruct (init_timeoutMs init).
  destruct (verdict _ _ _ _ _ _) as [[lastError'|response]|error]; reflexivity.
Qed.

End X17.
